(** * iLO inspect interface: a shallow embedding of
      [ironic/drivers/modules/ilo/inspect.py] and its verification.

    Python dictionaries are [gmap]s, Python sets are [gset]s, Python
    exceptions are values of [exn] carried by a [result], and the
    collaborators of the module (the iLO client, the power interface, the
    conductor, the port store) are fields of an environment record.  The
    node and the stores live in an explicit [world] that is threaded through
    a state-and-exception monad. *)

From stdpp Require Import gmap strings list fin_maps pretty.
From Stdlib Require Import Ascii.

(** ** Python values *)

(** Scalars that the controller, the node properties and the port table
    hold. *)
Inductive atom :=
| ANone
| ABool (b : bool)
| AInt (z : Z)
| AStr (s : string).

(** A payload returned by the controller: a scalar, a list of scalars or a
    dictionary of scalars keyed by strings. *)
Inductive pyval :=
| PAtom (a : atom)
| PList (l : list atom)
| PDict (d : gmap string atom).

(** ** Exceptions *)

Inductive exn :=
| HardwareInspectionFailure (error : errarg)
| InvalidParameterValue (msg : string)
| MissingParameterValue (msg : string)
| IloOperationError (operation : string) (error : errarg)
| IloError (msg : string)
| MACAlreadyExists (mac : string)
| ValueError (msg : string)
| TypeError (msg : string)
| AttributeError (msg : string)
| KeyError (key : string)
| OtherError (name msg : string)
| ModelLimit (what : string)
with errarg :=
| ErrText (s : string)
| ErrExn (e : exn).

(** [OtherError] stands for any exception class a collaborator may raise
    that this module never names.  [ModelLimit] is not a Python exception:
    the embedding answers with it where Python's behaviour is outside what
    is modelled (format directives the module never uses). *)

Inductive result (A : Type) :=
| Ok (a : A)
| Raise (e : exn).
Arguments Ok {A} a.
Arguments Raise {A} e.

Definition rbind {A B} (r : result A) (k : A → result B) : result B :=
  match r with
  | Ok a => k a
  | Raise e => Raise e
  end.

Declare Scope result_scope.
Delimit Scope result_scope with res.
Notation "x <- r ;; k" := (rbind r (λ x, k))
  (at level 100, r at next level, right associativity) : result_scope.

(** ** String primitives of Python used by the module *)

Module Py.

Definition code (c : ascii) : N := Ascii.N_of_ascii c.

Definition char_isupper (c : ascii) : bool :=
  ((65 <=? code c) && (code c <=? 90))%N.

Definition char_lower (c : ascii) : ascii :=
  if char_isupper c then Ascii.ascii_of_N (code c + 32) else c.

(** [s.lower()] *)
Fixpoint lower (s : string) : string :=
  match s with
  | "" => ""
  | String c s' => String (char_lower c) (lower s')
  end.

Definition char_isdigit (c : ascii) : bool :=
  ((48 <=? code c) && (code c <=? 57))%N.

Fixpoint all_digits (s : string) : bool :=
  match s with
  | "" => true
  | String c s' => char_isdigit c && all_digits s'
  end.

(** [s.isdigit()] on ASCII text: at least one character and all of them
    digits, which in ASCII are 0 to 9. *)
Definition isdigit (s : string) : bool :=
  match s with
  | "" => false
  | _ => all_digits s
  end.

Definition char_isascii (c : ascii) : bool := (code c <? 128)%N.

(** Text of ASCII characters only.  On other text Python's [isdigit] also
    knows digits that are not 0 to 9 (superscripts, the digits of other
    scripts); such text is outside the embedding. *)
Fixpoint ascii_text (s : string) : bool :=
  match s with
  | "" => true
  | String c s' => char_isascii c && ascii_text s'
  end.

(** [s.split(sep)] for a one-character separator: never an empty list. *)
Fixpoint split (sep : ascii) (s : string) : list string :=
  match s with
  | "" => [""]
  | String c s' =>
      if Ascii.eqb c sep then "" :: split sep s'
      else match split sep s' with
           | [] => [String c ""]
           | t :: ts => String c t :: ts
           end
  end.

(** The text before and after the first [sep], if there is one. *)
Fixpoint partition (sep : ascii) (s : string) : option (string * string) :=
  match s with
  | "" => None
  | String c s' =>
      if Ascii.eqb c sep then Some ("", s')
      else match partition sep s' with
           | Some (a, b) => Some (String c a, b)
           | None => None
           end
  end.

(** [s.split(sep, 1)] *)
Definition split1 (sep : ascii) (s : string) : list string :=
  match partition sep s with
  | Some (a, b) => [a; b]
  | None => [s]
  end.

(** [sep.join(l)] *)
Fixpoint join (sep : string) (l : list string) : string :=
  match l with
  | [] => ""
  | [x] => x
  | x :: l' => x +:+ sep +:+ join sep l'
  end.

(** [s.startswith(p)] *)
Fixpoint startswith (p s : string) : bool :=
  match p, s with
  | "", _ => true
  | String a p', String b s' => Ascii.eqb a b && startswith p' s'
  | String _ _, "" => false
  end.

(** [sub in s] *)
Fixpoint contains (sub s : string) : bool :=
  startswith sub s
  || match s with
     | "" => false
     | String _ s' => contains sub s'
     end.

Definition hex_digit (n : N) : ascii :=
  Ascii.ascii_of_N (if (n <? 10)%N then 48 + n else 87 + n).

Definition hex2 (c : ascii) : string :=
  String (hex_digit (code c / 16)) (String (hex_digit (code c mod 16)) "").

(** The code of a character in hexadecimal without padding ([%x]). *)
Definition hex (c : ascii) : string :=
  if (code c <? 16)%N then String (hex_digit (code c)) "" else hex2 c.

Fixpoint contains_char (x : ascii) (s : string) : bool :=
  match s with
  | "" => false
  | String c s' => Ascii.eqb c x || contains_char x s'
  end.

Fixpoint repr_body (quote : ascii) (s : string) : string :=
  match s with
  | "" => ""
  | String c s' =>
      (if Ascii.eqb c quote || Ascii.eqb c "\"%char then String "\" (String c "")
       else if Ascii.eqb c "009"%char then "\t"
       else if Ascii.eqb c "010"%char then "\n"
       else if Ascii.eqb c "013"%char then "\r"
       else if (code c <? 32)%N || (127 <=? code c)%N then "\x" +:+ hex2 c
       else String c "") +:+ repr_body quote s'
  end.

(** [repr(s)] of a byte string: single quotes unless the string has a
    single quote and no double quote. *)
Definition repr_str (s : string) : string :=
  let quote : ascii :=
    if contains_char "'" s && negb (contains_char "034" s)
    then "034"%char else "'"%char in
  String quote (repr_body quote s) +:+ String quote "".

Definition str_atom (a : atom) : string :=
  match a with
  | ANone => "None"
  | ABool true => "True"
  | ABool false => "False"
  | AInt z => pretty z
  | AStr s => s
  end.

(** The name of the type of a scalar, as an error message gives it. *)
Definition type_name (a : atom) : string :=
  match a with
  | ANone => "NoneType"
  | ABool _ => "bool"
  | AInt _ => "int"
  | AStr _ => "str"
  end.

Definition repr_atom (a : atom) : string :=
  match a with
  | AStr s => repr_str s
  | _ => str_atom a
  end.

Definition repr_item (kv : string * atom) : string :=
  repr_str kv.1 +:+ ": " +:+ repr_atom kv.2.

(** [repr(v)]; a dictionary is rendered in its iteration order. *)
Definition repr (v : pyval) : string :=
  match v with
  | PAtom a => repr_atom a
  | PList l => "[" +:+ join ", " (repr_atom <$> l) +:+ "]"
  | PDict d => "{" +:+ join ", " (repr_item <$> map_to_list d) +:+ "}"
  end.

(** [str(v)], which is what [%s] inserts. *)
Definition str (v : pyval) : string :=
  match v with
  | PAtom a => str_atom a
  | _ => repr v
  end.

Definition truthy_atom (a : atom) : bool :=
  match a with
  | ANone => false
  | ABool b => b
  | AInt z => negb (z =? 0)%Z
  | AStr s => negb (String.eqb s "")
  end.

(** Truth value of an object in a condition. *)
Definition truthy (v : pyval) : bool :=
  match v with
  | PAtom a => truthy_atom a
  | PList l => negb (bool_decide (l = []))
  | PDict d => negb (bool_decide (d = ∅))
  end.

(** Truth value of the result of [d.get(k)], which is [None] when the
    key is absent. *)
Definition truthy_opt {A} (t : A → bool) (o : option A) : bool :=
  match o with
  | Some v => t v
  | None => false
  end.

End Py.

(** ** The [%] operator on strings

    Every message of the module is built by [fmt % args] with a literal
    format.  The formats use only [%s] and [%(key)s]; [%r] and [%%] are
    modelled as well.  A character after [%] or [%(key)] that is no
    directive of Python raises [ValueError], as in Python; a directive that
    Python knows and the module never uses (flags, widths, numeric
    conversions) is outside the model. *)

Module Fmt.

Inductive args :=
| One (v : pyval)                       (* fmt % value *)
| Mapping (m : list (string * pyval)).  (* fmt % {key: value, ...} *)

(** The argument for a directive: the entry of the mapping for a keyed
    directive, the single value (used once) for a plain one. *)
Definition fetch (a : args) (used : bool) (key : option string)
  : result (pyval * bool) :=
  match key, a with
  | Some k, Mapping m =>
      match List.find (λ kv, String.eqb kv.1 k) m with
      | Some kv => Ok (kv.2, used)
      | None => Raise (KeyError k)
      end
  | Some _, One _ => Raise (TypeError "format requires a mapping")
  | None, One v =>
      if used then Raise (TypeError "not enough arguments for format string")
      else Ok (v, true)
  | None, Mapping _ => Raise (ModelLimit "positional directive with a mapping")
  end.

(** Characters that can follow [%] in a directive Python accepts. *)
Definition directive_chars : string := "#0- +*.123456789hlLdiouxXeEfFgGcrs%".

Definition unsupported (c : ascii) (idx : nat) : exn :=
  ValueError ("unsupported format character '" +:+ String c "" +:+ "' (0x"
              +:+ Py.hex c +:+ ") at index " +:+ pretty idx).

Definition finished (a : args) (used : bool) : result string :=
  match a with
  | One _ =>
      if used then Ok ""
      else Raise (TypeError "not all arguments converted during string formatting")
  | Mapping _ => Ok ""
  end.

Definition emit (text : string) (rest : result string) : result string :=
  match rest with
  | Ok s => Ok (text +:+ s)
  | Raise e => Raise e
  end.

(** [lit] copies literal text, [pct] stands just after a [%], [key] reads
    a parenthesised mapping key, [conv] expects the conversion character.
    [idx] is the index in the format of the first character of [s]. *)
Fixpoint lit (a : args) (used : bool) (idx : nat) (s : string) : result string :=
  match s with
  | "" => finished a used
  | String c s' =>
      if Ascii.eqb c "%" then pct a used (S idx) s'
      else emit (String c "") (lit a used (S idx) s')
  end
with pct (a : args) (used : bool) (idx : nat) (s : string) : result string :=
  match s with
  | "" => Raise (ValueError "incomplete format")
  | String c s' =>
      if Ascii.eqb c "(" then key a used "" 0 (S idx) s'
      else if Ascii.eqb c "%" then emit "%" (lit a used (S idx) s')
      else if Ascii.eqb c "s" then
        match fetch a used None with
        | Ok (v, used') => emit (Py.str v) (lit a used' (S idx) s')
        | Raise e => Raise e
        end
      else if Ascii.eqb c "r" then
        match fetch a used None with
        | Ok (v, used') => emit (Py.repr v) (lit a used' (S idx) s')
        | Raise e => Raise e
        end
      else if Py.contains_char c directive_chars
      then Raise (ModelLimit "format directive")
      else Raise (unsupported c idx)
  end
with key (a : args) (used : bool) (k : string) (depth : nat) (idx : nat)
         (s : string) : result string :=
  match s with
  | "" => Raise (ValueError "incomplete format key")
  | String c s' =>
      if Ascii.eqb c ")" then
        match depth with
        | 0 => conv a used k (S idx) s'
        | S d => key a used (k +:+ String c "") d (S idx) s'
        end
      else if Ascii.eqb c "(" then key a used (k +:+ String c "") (S depth) (S idx) s'
      else key a used (k +:+ String c "") depth (S idx) s'
  end
with conv (a : args) (used : bool) (k : string) (idx : nat) (s : string)
  : result string :=
  match s with
  | "" => Raise (ValueError "incomplete format")
  | String c s' =>
      if Ascii.eqb c "%" then emit "%" (lit a used (S idx) s')
      else if Ascii.eqb c "s" then
        match fetch a used (Some k) with
        | Ok (v, used') => emit (Py.str v) (lit a used' (S idx) s')
        | Raise e => Raise e
        end
      else if Ascii.eqb c "r" then
        match fetch a used (Some k) with
        | Ok (v, used') => emit (Py.repr v) (lit a used' (S idx) s')
        | Raise e => Raise e
        end
      else if Py.contains_char c directive_chars
      then Raise (ModelLimit "format directive")
      else Raise (unsupported c idx)
  end.

(** [fmt % a] *)
Definition format (fmt : string) (a : args) : result string :=
  lit a false 0 fmt.

End Fmt.

Notation "fmt %% a" := (Fmt.format fmt a) (at level 40, left associativity).

(** ** Dictionaries and sets of strings *)

Module Dict.

(** [dict(pairs)], where every element of [pairs] is the list a
    [split(':', 1)] returned: an element that has not exactly two items
    raises [ValueError]; a later pair overwrites an earlier one. *)
Fixpoint of_pairs (i : nat) (pairs : list (list string)) (acc : gmap string atom)
  : result (gmap string atom) :=
  match pairs with
  | [] => Ok acc
  | [k; v] :: rest => of_pairs (S i) rest (<[k := AStr v]> acc)
  | p :: _ =>
      Raise (ValueError ("dictionary update sequence element #" +:+ pretty i
                         +:+ " has length " +:+ pretty (length p)
                         +:+ "; 2 is required"))
  end.

(** The strings that iterating over a value yields, as far as membership
    in a set of capability names is concerned: the keys of a dictionary,
    the string items of a list, the characters of a string.  Other
    scalars are not iterable. *)
Fixpoint chars (s : string) : gset string :=
  match s with
  | "" => ∅
  | String c s' => {[ String c "" ]} ∪ chars s'
  end.

Definition atom_strings (l : list atom) : gset string :=
  list_to_set (omap (λ a, match a with AStr s => Some s | _ => None end) l).

Definition iter (v : pyval) : result (gset string) :=
  match v with
  | PDict d => Ok (dom d)
  | PList l => Ok (atom_strings l)
  | PAtom (AStr s) => Ok (chars s)
  | PAtom ANone => Raise (TypeError "'NoneType' object is not iterable")
  | PAtom (ABool _) => Raise (TypeError "'bool' object is not iterable")
  | PAtom (AInt _) => Raise (TypeError "'int' object is not iterable")
  end.

(** [v.get(key)]: only a dictionary has the method. *)
Definition get (v : pyval) (key : string) : result atom :=
  match v with
  | PDict d => Ok (default ANone (d !! key))
  | PList _ => Raise (AttributeError "'list' object has no attribute 'get'")
  | PAtom a =>
      Raise (AttributeError
               ("'" +:+ Py.type_name a +:+ "' object has no attribute 'get'"))
  end.

(** [d[key]] *)
Definition getitem {A} (d : gmap string A) (key : string) : result A :=
  match d !! key with
  | Some v => Ok v
  | None => Raise (KeyError key)
  end.

(** [v[key]] for a payload [v]. *)
Definition subscript (v : pyval) (key : string) : result atom :=
  match v with
  | PDict d => getitem d key
  | PList _ => Raise (TypeError "list indices must be integers, not str")
  | PAtom _ => Raise (TypeError "object is not subscriptable")
  end.

(** A payload used where the module calls dictionary methods on it. *)
Definition as_dict (v : pyval) : result (gmap string atom) :=
  match v with
  | PDict d => Ok d
  | PList _ => Raise (AttributeError "'list' object has no attribute 'get'")
  | PAtom a =>
      Raise (AttributeError
               ("'" +:+ Py.type_name a +:+ "' object has no attribute 'get'"))
  end.

End Dict.

(** ** The node, the task and the collaborators *)

Record node := Node {
  node_id : Z;                       (* node.id *)
  uuid : string;                     (* node.uuid *)
  properties : gmap string atom;     (* node.properties *)
  driver_info : gmap string string;  (* node.driver_info *)
}.

Definition set_properties (n : node) (p : gmap string atom) : node :=
  {| node_id := node_id n; uuid := uuid n; properties := p;
     driver_info := driver_info n |}.

(** Modelled from the spec: the constants of [ironic.common.states], which
    is not among the sources.  The spec names the power states ON, OFF and
    UNKNOWN and the terminal state MANAGEABLE. *)
Inductive state :=
| POWER_ON
| POWER_OFF
| POWER_UNKNOWN
| MANAGEABLE.

Global Instance state_eq_dec : EqDecision state.
Proof. solve_decision. Defined.

(** The row handed to [create_port]. *)
Record port_dict := PortDict {
  address : atom;
  port_node_id : Z;
}.

Inductive level := DEBUG | INFO | WARN.

(** A log record: level, format, arguments. *)
Record log_record := LogRecord {
  log_level : level;
  log_fmt : string;
  log_args : Fmt.args;
}.

(** Calls the workflow makes to its collaborators, oldest first. *)
Inductive call :=
| CallGetIloObject
| CallGetPowerState
| CallPowerAction (target : state)
| CallGetEssentialProperties
| CallGetServerCapabilities
| CallSave
| CallCreatePort (p : port_dict).

Record world := World {
  task_node : node;          (* task.node, the in-memory object *)
  saved : list node;         (* what node.save() has persisted, oldest first *)
  ports : list port_dict;    (* rows created through the port store *)
  log : list log_record;
  calls : list call;
}.

(** The collaborators, none of which is defined in the module: each field
    gives the outcome of the call named in its comment. *)
Record env := Env {
  parse_driver_info : node → result (gmap string string);
                                    (* ilo_common.parse_driver_info(node) *)
  str_node : node → string;         (* str(node) *)
  get_ilo_object : node → result unit;
                                    (* ilo_common.get_ilo_object(node) *)
  get_power_state : result state;   (* task.driver.power.get_power_state(task) *)
  node_power_action : state → result unit;
                                    (* conductor_utils.node_power_action(task, s) *)
  get_essential_properties : result (gmap string pyval);
                                    (* ilo_object.get_essential_properties() *)
  get_server_capabilities : result pyval;
                                    (* ilo_object.get_server_capabilities() *)
  create_port : port_dict → list port_dict → result unit;
                                    (* sql_dbapi.create_port(port_dict) *)
}.

(** ** The monad of the workflow: state and exceptions

    A computation runs in a world and ends with a value or a raised
    exception; the changes made to the world before an exception stay. *)

Definition M (A : Type) : Type := world → result A * world.

Definition ret {A} (a : A) : M A := λ w, (Ok a, w).

Definition bind {A B} (m : M A) (k : A → M B) : M B :=
  λ w, match m w with
       | (Ok a, w') => k a w'
       | (Raise e, w') => (Raise e, w')
       end.

Definition raise {A} (e : exn) : M A := λ w, (Raise e, w).

Definition lift {A} (r : result A) : M A := λ w, (r, w).

(** [try: m except <the exceptions on which handler is defined>: handler] *)
Definition try_except {A} (m : M A) (handler : exn → option (M A)) : M A :=
  λ w, match m w with
       | (Ok a, w') => (Ok a, w')
       | (Raise e, w') =>
           match handler e with
           | Some h => h w'
           | None => (Raise e, w')
           end
       end.

Declare Scope workflow_scope.
Delimit Scope workflow_scope with M.
Bind Scope workflow_scope with M.
Notation "x <- m ;; k" := (bind m (λ x, k))
  (at level 100, m at next level, right associativity) : workflow_scope.
Notation "m ;; k" := (bind m (λ _, k))
  (at level 100, right associativity) : workflow_scope.

Fixpoint for_each {A} (l : list A) (body : A → M unit) : M unit :=
  match l with
  | [] => ret tt
  | x :: l' => (body x ;; for_each l' body)%M
  end.

(** The world after one change. *)
Definition with_node (w : world) (n : node) : world :=
  World n (saved w) (ports w) (log w) (calls w).

Definition with_call (w : world) (c : call) : world :=
  World (task_node w) (saved w) (ports w) (log w) (calls w ++ [c]).

Definition with_log (w : world) (r : log_record) : world :=
  World (task_node w) (saved w) (ports w) (log w ++ [r]) (calls w).

Definition with_saved (w : world) (n : node) : world :=
  World (task_node w) (saved w ++ [n]) (ports w) (log w) (calls w).

Definition with_row (w : world) (p : port_dict) : world :=
  World (task_node w) (saved w) (ports w ++ [p]) (log w) (calls w).

Definition get_node : M node := λ w, (Ok (task_node w), w).

Definition put_node (n : node) : M unit := λ w, (Ok tt, with_node w n).

Definition record_call (c : call) : M unit := λ w, (Ok tt, with_call w c).

Definition LOG (l : level) (fmt : string) (a : Fmt.args) : M unit :=
  λ w, (Ok tt, with_log w (LogRecord l fmt a)).

(** [task.node.save()] *)
Definition save : M unit :=
  λ w, (Ok tt, with_saved (with_call w CallSave) (task_node w)).

(** [sql_dbapi.create_port(port_dict)] *)
Definition db_create_port (E : env) (p : port_dict) : M unit :=
  λ w, match create_port E p (ports w) with
       | Ok _ => (Ok tt, with_row (with_call w (CallCreatePort p)) p)
       | Raise e => (Raise e, with_call w (CallCreatePort p))
       end.

Definition call_collaborator {A} (c : call) (r : result A) : M A :=
  (record_call c ;; lift r)%M.

Definition text (s : string) : pyval := PAtom (AStr s).

(** ** The module *)

Definition ESSENTIAL_PROPERTIES_KEYS : gset string :=
  {[ "memory_mb"; "local_gb"; "cpus"; "cpu_arch" ]}.

Definition CAPABILITIES_KEYS : gset string :=
  {[ "BootMode"; "secure_boot"; "rom_firmware_version";
     "ilo_firmware_version"; "server_model"; "max_raid_level";
     "pci_gpu_devices"; "sr_iov_devices"; "nic_capacity" ]}.

(** Python fixes no order in which a dictionary is gone through; the
    embedding goes through it in the order of [map_to_list], and what is
    stated of a loop over a dictionary or of a string joined from one is
    stated for some order of its entries. *)
Definition _create_ports_if_not_exist (E : env) (node : node)
    (macs : gmap string atom) : M unit :=
  let node_id := node_id node in
  for_each (map_to_list macs).*2 (λ mac,
    let port_dict := PortDict mac node_id in
    try_except
      (db_create_port E port_dict ;;
       LOG INFO "Port created for MAC address %(address)s for node %(node)s"
           (Fmt.Mapping [("address", PAtom mac); ("node", text (uuid node))]))
      (λ e, match e with
            | MACAlreadyExists _ =>
                Some (LOG WARN
                        "Port already exists for MAC address %(address)s for node %(node)s"
                        (Fmt.Mapping [("address", PAtom mac);
                                      ("node", text (uuid node))]))
            | _ => None
            end))%M.

Definition _validate (node : node) (data : gmap string pyval) : result unit :=
  (_ <- (if Py.truthy_opt Py.truthy (data !! "properties") then
           match data !! "properties" with
           | Some (PDict props) =>
               let valid_keys := ESSENTIAL_PROPERTIES_KEYS in
               let missing_keys := valid_keys ∖ dom props in
               if bool_decide (missing_keys ≠ ∅) then
                 error <- "Server didn't return the key(s): %(key)s"
                          %% Fmt.Mapping
                               [("key", text (Py.join ", " (elements missing_keys)))] ;;
                 Raise (HardwareInspectionFailure (ErrText error))
               else Ok tt
           | Some props =>
               error <- "Essential properties are expected to be in dictionary format, received %(properties)s from node %(node)s."
                        %% Fmt.Mapping [("properties", props);
                                        ("node", text (uuid node))] ;;
               Raise (HardwareInspectionFailure (ErrText error))
           | None => Raise (KeyError "properties")
           end
         else
           error <- "The node %s didn't return 'properties' as the key with inspection."
                    %% Fmt.One (text (uuid node)) ;;
           Raise (HardwareInspectionFailure (ErrText error))) ;;
   if Py.truthy_opt Py.truthy (data !! "macs") then
     match data !! "macs" with
     | Some (PDict _) => Ok tt
     | Some macs =>
         error <- "Node %(node)s didn't return MACs %(macs)s in dictionary format."
                  %% Fmt.Mapping [("macs", macs); ("node", text (uuid node))] ;;
         Raise (HardwareInspectionFailure (ErrText error))
     | None => Raise (KeyError "macs")
     end
   else
     error <- "The node %s didn't return 'macs' as the key with inspection."
              %% Fmt.One (text (uuid node)) ;;
     Raise (HardwareInspectionFailure (ErrText error)))%res.

Definition _get_essential_properties (E : env) (node : node)
  : M (gmap string pyval) :=
  (result <- try_except
               (call_collaborator CallGetEssentialProperties
                                  (get_essential_properties E))
               (λ e, match e with
                     | IloError _ =>
                         Some (raise (HardwareInspectionFailure (ErrExn e)))
                     | _ => None
                     end) ;;
   lift (_validate node result) ;;
   ret result)%M.

Definition _create_supported_capabilities_dict (capabilities : pyval)
  : result (gmap string atom) :=
  (items <- Dict.iter capabilities ;;
   foldr (λ key acc,
            valid_cap <- acc ;;
            value <- Dict.get capabilities key ;;
            Ok (<[key := value]> valid_cap))
         (Ok ∅) (elements (CAPABILITIES_KEYS ∩ items)))%res.

(** One item of the capabilities string. *)
Definition capability_item (kv : string * atom) : result string :=
  "%(key)s:%(value)s" %% Fmt.Mapping [("key", text kv.1); ("value", PAtom kv.2)].

Fixpoint collect {A B} (f : A → result B) (l : list A) : result (list B) :=
  match l with
  | [] => Ok []
  | x :: l' => (y <- f x ;; ys <- collect f l' ;; Ok (y :: ys))%res
  end.

Definition _update_capabilities (node : node) (new_capabilities : pyval)
  : result string :=
  (cap_dict <-
     (let node_capabilities := properties node !! "capabilities" in
      if Py.truthy_opt Py.truthy_atom node_capabilities then
        match node_capabilities with
        | Some (AStr capabilities) =>
            match Dict.of_pairs 0 (Py.split1 ":" <$> Py.split "," capabilities) ∅ with
            | Raise (ValueError _) =>
                msg <- "Node %(node)s has invalid capabilities string %(capabilities), unable to modify the node properties['capabilities'] string"
                       %% Fmt.Mapping [("node", text (uuid node));
                                       ("capabilities", text capabilities)] ;;
                Raise (InvalidParameterValue msg)
            | r => r
            end
        | Some a =>
            Raise (AttributeError
                     ("'" +:+ Py.type_name a
                      +:+ "' object has no attribute 'split'"))
        | None =>
            Raise (AttributeError "'NoneType' object has no attribute 'split'")
        end
      else Ok ∅) ;;
   cap_dict <-
     match new_capabilities with
     | PDict d => Ok (d ∪ cap_dict)
     | _ =>
         msg <- "The expected format of capabilities from inspection is dictionary while node %(node)s returned %(capabilities)s."
                %% Fmt.Mapping [("node", text (uuid node));
                                ("capabilities", new_capabilities)] ;;
         Raise (HardwareInspectionFailure (ErrText msg))
     end ;;
   items <- collect capability_item (map_to_list cap_dict) ;;
   Ok (Py.join "," items))%res.

(** [str(driver_info.get('inspect_ports'))] *)
Definition desired_ports (node : node) : string :=
  match driver_info node !! "inspect_ports" with
  | Some s => s
  | None => "None"
  end.

Definition _get_macs_for_desired_ports (node : node) (macs : gmap string atom)
  : result (gmap string atom) :=
  let desired_macs := desired_ports node in
  if String.eqb (Py.lower desired_macs) "all" then Ok macs
  else
    (desired_macs_list <-
       collect (λ port_number, "Port %s" %% Fmt.One (text port_number))
               (Py.split "," desired_macs) ;;
     let '(to_be_created_macs, non_existing_ports) :=
       foldl (λ '(created, missing) port_number,
                match macs !! port_number with
                | Some mac_address =>
                    if Py.truthy_atom mac_address
                    then (<[port_number := mac_address]> created, missing)
                    else (created, (missing ++ [AStr port_number])%list)
                | None => (created, (missing ++ [AStr port_number])%list)
                end)
             ((∅, []) : gmap string atom * list atom) desired_macs_list in
     if negb (bool_decide (non_existing_ports = [])) then
       error <- "Could not find requested ports %(ports)s on the node %(node)s"
                %% Fmt.Mapping [("ports", PList non_existing_ports);
                                ("node", text (uuid node))] ;;
       Raise (HardwareInspectionFailure (ErrText error))
     else Ok to_be_created_macs)%res.

Definition _get_capabilities (E : env) (node : node) : M pyval :=
  try_except
    (call_collaborator CallGetServerCapabilities (get_server_capabilities E))
    (λ e, match e with
          | IloError _ =>
              Some (LOG DEBUG "Node %s did not return any additional capabilities."
                        (Fmt.One (text (uuid node))) ;;
                    ret (PAtom ANone))
          | _ => None
          end)%M.

(** [IloInspect.validate].  The values of the driver information are
    text; [isdigit] is modelled on ASCII text, so for an expression with a
    character outside ASCII the embedding gives no answer. *)
Definition validate (E : env) (node : node) : result unit :=
  (driver_info <- parse_driver_info E node ;;
   match driver_info !! "inspect_ports" with
   | None =>
       Raise (MissingParameterValue
                "Missing 'inspect_ports' parameter in node's driver_info.")
   | Some value =>
       if negb (Py.ascii_text value)
       then Raise (ModelLimit "isdigit on text outside ASCII")
       else
       if negb (String.eqb (Py.lower value) "all")
          && negb (String.eqb (Py.lower value) "none")
          && negb (forallb Py.isdigit (Py.split "," value))
       then
         msg <- "inspect_ports can accept either comma separated port numbers, or a single port number, or 'all' or 'none'. %(value)s given for node %(node)s driver_info['inspect_ports']"
                %% Fmt.Mapping [("value", text value);
                                ("node", text (str_node E node))] ;;
         Raise (InvalidParameterValue msg)
       else Ok tt
   end)%res.

(** [IloInspect.inspect_hardware] *)
Definition inspect_hardware (E : env) : M state :=
  (node <- get_node ;;
   call_collaborator CallGetIloObject (get_ilo_object E node) ;;
   state <- try_except
              (call_collaborator CallGetPowerState (get_power_state E))
              (λ e, match e with
                    | IloOperationError _ _ =>
                        Some (operation <- lift ("Inspecting hardware (get_power_state) on %s"
                                                 %% Fmt.One (text (uuid node))) ;;
                              raise (IloOperationError operation (ErrExn e)))
                    | _ => None
                    end) ;;
   power_turned_on <-
     (if bool_decide (state ≠ POWER_ON) then
        LOG INFO "The node %s is not powered on. Powering on the node for inspection."
            (Fmt.One (text (uuid node))) ;;
        call_collaborator (CallPowerAction POWER_ON) (node_power_action E POWER_ON) ;;
        ret true
      else ret false) ;;
   node <- get_node ;;
   result <- _get_essential_properties E node ;;
   properties_ <- lift (Dict.getitem result "properties") ;;
   inspected_properties <-
     lift (foldr (λ known_property acc,
                    (inspected <- acc ;;
                     value <- Dict.subscript properties_ known_property ;;
                     Ok (<[known_property := value]> inspected))%res)
                 (Ok ∅) (elements ESSENTIAL_PROPERTIES_KEYS)) ;;
   node <- get_node ;;
   let node_properties := inspected_properties ∪ properties node in
   put_node (set_properties node node_properties) ;;
   node <- get_node ;;
   capabilities <- _get_capabilities E node ;;
   (if Py.truthy capabilities then
      valid_cap <- lift (_create_supported_capabilities_dict capabilities) ;;
      node <- get_node ;;
      capabilities <- lift (_update_capabilities node (PDict valid_cap)) ;;
      if negb (String.eqb capabilities "") then
        put_node (set_properties node
                    (<["capabilities" := AStr capabilities]> node_properties))
      else ret tt
    else ret tt) ;;
   save ;;
   node <- get_node ;;
   let driver_info := driver_info node in
   inspect_ports <- lift (Dict.getitem driver_info "inspect_ports") ;;
   (if negb (String.eqb (Py.lower inspect_ports) "none") then
      macs <- lift (macs <- Dict.getitem result "macs" ;; Dict.as_dict macs)%res ;;
      macs_input_given <- lift (_get_macs_for_desired_ports node macs) ;;
      if negb (bool_decide (macs_input_given = ∅)) then
        _create_ports_if_not_exist E node macs_input_given
      else ret tt
    else ret tt) ;;
   LOG DEBUG "Node properties for %(node)s are updated as %(properties)s"
       (Fmt.Mapping [("properties", PDict inspected_properties);
                     ("node", text (uuid node))]) ;;
   LOG INFO "Node %s inspected." (Fmt.One (text (uuid node))) ;;
   (if power_turned_on : bool then
      call_collaborator (CallPowerAction POWER_OFF) (node_power_action E POWER_OFF) ;;
      LOG INFO "The node %s was powered on for inspection. Powered off the node as inspection completed."
          (Fmt.One (text (uuid node)))
    else ret tt) ;;
   ret MANAGEABLE)%M.

(** ** A concrete controller, node and port store *)

Module Sample.

Definition essentials : gmap string atom :=
  {[ "memory_mb" := AInt 32768; "local_gb" := AInt 100;
     "cpus" := AInt 16; "cpu_arch" := AStr "x86_64" ]}.

Definition macs : gmap string atom :=
  {[ "Port 1" := AStr "aa:aa:aa:aa:aa:aa"; "Port 2" := AStr "bb:bb:bb:bb:bb:bb" ]}.

Definition inspection : gmap string pyval :=
  {[ "properties" := PDict essentials; "macs" := PDict macs ]}.

Definition node0 (caps : option string) (ports : string) : node :=
  Node 7 "node-1"
       (match caps with
        | Some c => {[ "capabilities" := AStr c ]}
        | None => ∅
        end)
       {[ "inspect_ports" := ports ]}.

(** A port store that refuses a MAC it already holds. *)
Definition unique_store (p : port_dict) (rows : list port_dict) : result unit :=
  if bool_decide (Exists (λ q, Py.str_atom (address q) = Py.str_atom (address p)) rows)
  then Raise (MACAlreadyExists (Py.str_atom (address p)))
  else Ok tt.

(** A port store that has lost its connection. *)
Definition broken_store (p : port_dict) (rows : list port_dict) : result unit :=
  Raise (OtherError "DBConnectionError" "connection lost").

Definition controller (power : state) (caps : result pyval) : env :=
  {| parse_driver_info := λ n, Ok (driver_info n);
     str_node := uuid;
     get_ilo_object := λ _, Ok tt;
     get_power_state := Ok power;
     node_power_action := λ _, Ok tt;
     get_essential_properties := Ok inspection;
     get_server_capabilities := caps;
     create_port := unique_store |}.

Definition with_store (E : env)
    (store : port_dict → list port_dict → result unit) : env :=
  {| parse_driver_info := parse_driver_info E;
     str_node := str_node E;
     get_ilo_object := get_ilo_object E;
     get_power_state := get_power_state E;
     node_power_action := node_power_action E;
     get_essential_properties := get_essential_properties E;
     get_server_capabilities := get_server_capabilities E;
     create_port := store |}.

Definition start (n : node) : world := World n [] [] [] [].

End Sample.


(** ** Statements about the validator *)

Definition no_properties_error (node : node) : exn :=
  HardwareInspectionFailure
    (ErrText ("The node " +:+ uuid node
              +:+ " didn't return 'properties' as the key with inspection.")).

Definition no_macs_error (node : node) : exn :=
  HardwareInspectionFailure
    (ErrText ("The node " +:+ uuid node
              +:+ " didn't return 'macs' as the key with inspection.")).

(** The properties part of an inspection result passes the validator. *)
Definition properties_pass (data : gmap string pyval) : Prop :=
  ∃ props, data !! "properties" = Some (PDict props)
           ∧ ESSENTIAL_PROPERTIES_KEYS ⊆ dom props.

(** ** The port-selection expression, in the words of the spec *)

(** The upper-case form of a lower-case letter. *)
Definition upper_of (l : ascii) : ascii := Ascii.ascii_of_N (Py.code l - 32).

Definition is_lower_letter (l : ascii) : bool :=
  ((97 <=? Py.code l) && (Py.code l <=? 122))%N.

(** [spells word v]: [v] is [word], a word in lower-case letters, written
    in any mixture of upper and lower case. *)
Fixpoint spells (word v : string) : Prop :=
  match word, v with
  | "", "" => True
  | String l word', String c v' => (c = l ∨ c = upper_of l) ∧ spells word' v'
  | _, _ => False
  end.

(** A token made of one or more decimal digits. *)
Inductive digits : string → Prop :=
| digits_one (c : ascii) :
    Py.char_isdigit c = true → digits (String c "")
| digits_more (c : ascii) (s : string) :
    Py.char_isdigit c = true → digits s → digits (String c s).

(** The number a token of digits denotes. *)
Fixpoint numeral (acc : N) (s : string) : N :=
  match s with
  | "" => acc
  | String c s' => numeral (10 * acc + (Py.code c - 48)) s'
  end.

(** A token that denotes a positive integer. *)
Definition positive_integer (t : string) : Prop :=
  digits t ∧ (0 < numeral 0 t)%N.

(** One or more tokens separated by commas. *)
Inductive comma_separated (token : string → Prop) : string → Prop :=
| comma_separated_one (t : string) :
    token t → comma_separated token t
| comma_separated_more (t rest : string) :
    token t → comma_separated token rest →
    comma_separated token (t +:+ "," +:+ rest).

(** Modelled from the spec: its taxonomy calls every failure about
    malformed operator input [InvalidConfiguration]; the exception classes
    of [ironic.common.exception], which is not among the sources, that the
    module raises for operator input are [InvalidParameterValue] and
    [MissingParameterValue]. *)
Definition InvalidConfiguration (e : exn) : Prop :=
  match e with
  | InvalidParameterValue _ | MissingParameterValue _ => True
  | _ => False
  end.

(** A word in lower-case letters. *)
Fixpoint lower_word (w : string) : bool :=
  match w with
  | "" => true
  | String l w' => is_lower_letter l && lower_word w'
  end.

(** The three accepted forms of the expression, with tokens of digits. *)
Definition accepted_expression (v : string) : Prop :=
  spells "all" v ∨ spells "none" v ∨ comma_separated digits v.

(** The three forms with tokens that denote positive integers. *)
Definition positive_expression (v : string) : Prop :=
  spells "all" v ∨ spells "none" v ∨ comma_separated positive_integer v.

(** ** Statements about the port selection *)

(** The label under which the controller reports port [n]. *)
Definition port_label (n : string) : string := "Port " +:+ n.

(** The labels an expression asks for, in the order it lists them. *)
Definition requested_labels (node : node) : list string :=
  port_label <$> Py.split "," (desired_ports node).

(** A comma-separated numeric selection expression. *)
Definition numeric_selection (node : node) : Prop :=
  comma_separated digits (desired_ports node).

(** The mapping has a MAC for the label that counts as true in a
    condition: the label is present and its value is not empty. *)
Definition usable (macs : gmap string atom) (label : string) : bool :=
  Py.truthy_opt Py.truthy_atom (macs !! label).

(** The body of the loop over the requested labels. *)
Definition selection_step (macs : gmap string atom)
    (acc : gmap string atom * list atom) (port_number : string)
  : gmap string atom * list atom :=
  let '(created, missing) := acc in
  match macs !! port_number with
  | Some mac_address =>
      if Py.truthy_atom mac_address
      then (<[port_number := mac_address]> created, missing)
      else (created, missing ++ [AStr port_number])
  | None => (created, missing ++ [AStr port_number])
  end.

Definition ports_not_found_error (node : node) (missing : list string) : exn :=
  HardwareInspectionFailure
    (ErrText ("Could not find requested ports "
              +:+ Py.repr (PList (AStr <$> missing))
              +:+ " on the node " +:+ uuid node)).

(** ** Statements about the port registration *)

(** The MACs the registration loop goes through, in its order. *)
Definition mac_values (macs : gmap string atom) : list atom :=
  (map_to_list macs).*2.

(** The registration loop of [_create_ports_if_not_exist] over a list of
    MACs. *)
Definition port_loop (E : env) (node : node) (values : list atom) : M unit :=
  for_each values (λ mac,
    let port_dict := PortDict mac (node_id node) in
    try_except
      (db_create_port E port_dict ;;
       LOG INFO "Port created for MAC address %(address)s for node %(node)s"
           (Fmt.Mapping [("address", PAtom mac); ("node", text (uuid node))]))
      (λ e, match e with
            | MACAlreadyExists _ =>
                Some (LOG WARN
                        "Port already exists for MAC address %(address)s for node %(node)s"
                        (Fmt.Mapping [("address", PAtom mac);
                                      ("node", text (uuid node))]))
            | _ => None
            end))%M.

(** The row for a MAC of the node. *)
Definition port_of (node : node) (mac : atom) : port_dict :=
  PortDict mac (node_id node).

(** The world after the store took the row for [mac] ([created]), or
    refused it as a duplicate: the call and one log record are added. *)
Definition after_attempt (node : node) (w : world) (mac : atom) (created : bool)
  : world :=
  let p := port_of node mac in
  let args := Fmt.Mapping [("address", PAtom mac); ("node", text (uuid node))] in
  if created
  then with_log (with_row (with_call w (CallCreatePort p)) p)
         (LogRecord INFO
            "Port created for MAC address %(address)s for node %(node)s" args)
  else with_log (with_call w (CallCreatePort p))
         (LogRecord WARN
            "Port already exists for MAC address %(address)s for node %(node)s" args).

Definition is_duplicate (e : exn) : Prop :=
  match e with
  | MACAlreadyExists _ => True
  | _ => False
  end.

(** ** Statements about the capability merger *)

(** A capabilities string read as a map, the way [_update_capabilities]
    reads the string of the node: the empty string is the empty map. *)
Definition read_capabilities (s : string) : result (gmap string atom) :=
  if String.eqb s "" then Ok ∅
  else Dict.of_pairs 0 (Py.split1 ":" <$> Py.split "," s) ∅.

(** The text of a value in the capabilities string. *)
Definition rendered (v : atom) : atom := AStr (Py.str_atom v).

Definition plain_key (k : string) : bool :=
  negb (Py.contains_char "," k) && negb (Py.contains_char ":" k).

Definition plain_value (v : atom) : bool :=
  negb (Py.contains_char "," (Py.str_atom v)).

(** No key has a comma or a colon and no value, as text, has a comma. *)
Definition plain (m : gmap string atom) : Prop :=
  ∀ k v, m !! k = Some v → plain_key k = true ∧ plain_value v = true.

(** The text of one item of the capabilities string. *)
Definition item_text (kv : string * atom) : string :=
  kv.1 +:+ ":" +:+ Py.str_atom kv.2.

(** The string [_update_capabilities] returns for a merged dictionary. *)
Definition serialize (m : gmap string atom) : string :=
  Py.join "," (item_text <$> map_to_list m).


(** A capabilities string with a token that has no colon. *)
Definition malformed (s : string) : Prop :=
  s ≠ "" ∧ ∃ t, t ∈ Py.split "," s ∧ Py.contains_char ":" t = false.

Definition format_slip : exn :=
  ValueError "unsupported format character ',' (0x2c) at index 61".

(** ** The steps of the inspection workflow

    [inspect_hardware] is one function; to state what holds between its
    steps, the steps are named here and the function is shown below to be
    their sequence. *)

(** From the start to the merge of the essential properties into the node
    in memory: the flag [power_turned_on], the inspection result, the
    inspected properties and the merged properties. *)
Definition essential_step (E : env)
  : M (bool * gmap string pyval * gmap string atom * gmap string atom) :=
  (node <- get_node ;;
   call_collaborator CallGetIloObject (get_ilo_object E node) ;;
   state <- try_except
              (call_collaborator CallGetPowerState (get_power_state E))
              (λ e, match e with
                    | IloOperationError _ _ =>
                        Some (operation <- lift ("Inspecting hardware (get_power_state) on %s"
                                                 %% Fmt.One (text (uuid node))) ;;
                              raise (IloOperationError operation (ErrExn e)))
                    | _ => None
                    end) ;;
   power_turned_on <-
     (if bool_decide (state ≠ POWER_ON) then
        LOG INFO "The node %s is not powered on. Powering on the node for inspection."
            (Fmt.One (text (uuid node))) ;;
        call_collaborator (CallPowerAction POWER_ON) (node_power_action E POWER_ON) ;;
        ret true
      else ret false) ;;
   node <- get_node ;;
   result <- _get_essential_properties E node ;;
   properties_ <- lift (Dict.getitem result "properties") ;;
   inspected_properties <-
     lift (foldr (λ known_property acc,
                    (inspected <- acc ;;
                     value <- Dict.subscript properties_ known_property ;;
                     Ok (<[known_property := value]> inspected))%res)
                 (Ok ∅) (elements ESSENTIAL_PROPERTIES_KEYS)) ;;
   node <- get_node ;;
   let node_properties := inspected_properties ∪ properties node in
   put_node (set_properties node node_properties) ;;
   ret (power_turned_on, result, inspected_properties, node_properties))%M.

(** The query for capabilities and their merge into the node in memory. *)
Definition capabilities_step (E : env) (node_properties : gmap string atom)
  : M unit :=
  (node <- get_node ;;
   capabilities <- _get_capabilities E node ;;
   if Py.truthy capabilities then
     valid_cap <- lift (_create_supported_capabilities_dict capabilities) ;;
     node <- get_node ;;
     capabilities <- lift (_update_capabilities node (PDict valid_cap)) ;;
     if negb (String.eqb capabilities "") then
       put_node (set_properties node
                   (<["capabilities" := AStr capabilities]> node_properties))
     else ret tt
   else ret tt)%M.

(** The registration of ports for the saved node. *)
Definition registration_step (E : env) (node : node)
    (result : gmap string pyval) : M unit :=
  (let driver_info := driver_info node in
   inspect_ports <- lift (Dict.getitem driver_info "inspect_ports") ;;
   if negb (String.eqb (Py.lower inspect_ports) "none") then
     macs <- lift (macs <- Dict.getitem result "macs" ;; Dict.as_dict macs)%res ;;
     macs_input_given <- lift (_get_macs_for_desired_ports node macs) ;;
     if negb (bool_decide (macs_input_given = ∅)) then
       _create_ports_if_not_exist E node macs_input_given
     else ret tt
   else ret tt)%M.

(** The end of the workflow: the log, the power-off and the state. *)
Definition final_step (E : env) (node : node) (power_turned_on : bool)
    (inspected_properties : gmap string atom) : M state :=
  (LOG DEBUG "Node properties for %(node)s are updated as %(properties)s"
       (Fmt.Mapping [("properties", PDict inspected_properties);
                     ("node", text (uuid node))]) ;;
   LOG INFO "Node %s inspected." (Fmt.One (text (uuid node))) ;;
   (if power_turned_on then
      call_collaborator (CallPowerAction POWER_OFF) (node_power_action E POWER_OFF) ;;
      LOG INFO "The node %s was powered on for inspection. Powered off the node as inspection completed."
          (Fmt.One (text (uuid node)))
    else ret tt) ;;
   ret MANAGEABLE)%M.

(** The steps in sequence. *)
Definition inspect_in_steps (E : env) : M state :=
  (x <- essential_step E ;;
   let '(power_turned_on, result, inspected_properties, node_properties) := x in
   capabilities_step E node_properties ;;
   save ;;
   node <- get_node ;;
   registration_step E node result ;;
   final_step E node power_turned_on inspected_properties)%M.

(** Neither a save nor a query for capabilities is among the calls. *)
Definition quiet (cs : list call) : bool :=
  forallb (λ c, match c with
                | CallSave | CallGetServerCapabilities => false
                | _ => true
                end) cs.


(** The copy of the essential properties out of the validated result. *)
Definition copy_essentials (properties_ : pyval) : result (gmap string atom) :=
  foldr (λ known_property acc,
           (inspected <- acc ;;
            value <- Dict.subscript properties_ known_property ;;
            Ok (<[known_property := value]> inspected))%res)
        (Ok ∅) (elements ESSENTIAL_PROPERTIES_KEYS).

(** [wp m Q w]: the run of [m] from [w] ends in an outcome and a world
    that satisfy [Q]. *)
Definition wp {A} (m : M A) (Q : result A → world → Prop) (w : world) : Prop :=
  Q (m w).1 (m w).2.



(** ** The port registration, in the words of the spec

    Python leaves the order in which a dictionary is gone through open; the
    statements about [_create_ports_if_not_exist] and about the string of
    [_update_capabilities] are made for some order of the entries. *)

(** What the registration is to do with the MACs [values], one after the
    other: a row the store takes is created and logged; a MAC the store
    knows already is logged as a warning and the next MAC is tried; any
    other failure of the store ends the registration as it was raised. *)
Fixpoint attempts (E : env) (node : node) (values : list atom) (w : world)
  : result unit * world :=
  match values with
  | [] => (Ok tt, w)
  | mac :: rest =>
      match create_port E (port_of node mac) (ports w) with
      | Ok _ => attempts E node rest (after_attempt node w mac true)
      | Raise (MACAlreadyExists _) =>
          attempts E node rest (after_attempt node w mac false)
      | Raise e => (Raise e, with_call w (CallCreatePort (port_of node mac)))
      end
  end.

(** The port table after the registration of the MACs [values] from the
    table [rows]: a row is added for every MAC the store takes, up to the
    first failure that is no duplicate. *)
Fixpoint rows_taken (E : env) (node : node) (values : list atom)
    (rows : list port_dict) : list port_dict :=
  match values with
  | [] => rows
  | mac :: rest =>
      match create_port E (port_of node mac) rows with
      | Ok _ => rows_taken E node rest (rows ++ [port_of node mac])
      | Raise (MACAlreadyExists _) => rows_taken E node rest rows
      | Raise _ => rows
      end
  end.

(** [s] is a serialization of the map [m]: its items [key:value], in some
    order, joined by commas. *)
Definition serialization_of (m : gmap string atom) (s : string) : Prop :=
  ∃ items, items ≡ₚ map_to_list m ∧ s = Py.join "," (item_text <$> items).

(** The MACs for which the inspection of a node is to register ports, given
    the inspection result: none for the expression "none", those the
    policy selects from the reported MACs otherwise. *)
Definition to_register (n : node) (result : gmap string pyval) : list atom :=
  match driver_info n !! "inspect_ports" with
  | Some v =>
      if String.eqb (Py.lower v) "none" then []
      else match result !! "macs" with
           | Some (PDict macs) =>
               match _get_macs_for_desired_ports n macs with
               | Ok selected => mac_values selected
               | Raise _ => []
               end
           | _ => []
           end
  | None => []
  end.

Definition macs_to_register (E : env) (n : node) : list atom :=
  match get_essential_properties E with
  | Ok result => to_register n result
  | Raise _ => []
  end.

(** ** Statements about the calls of the workflow *)

(** The calls of the first step: the client, the power state, the power-on
    when the node was not on, the essential properties. *)
Definition opening (power_turned_on : bool) : list call :=
  [CallGetIloObject; CallGetPowerState]
  ++ (if power_turned_on then [CallPowerAction POWER_ON] else [])
  ++ [CallGetEssentialProperties].

(** The calls of a whole inspection in their order, for a node that was
    powered on for it or not, and the rows handed to the port store. *)
Definition protocol (power_turned_on : bool) (rows : list port_dict) : list call :=
  opening power_turned_on
  ++ [CallGetServerCapabilities; CallSave]
  ++ (CallCreatePort <$> rows)
  ++ (if power_turned_on then [CallPowerAction POWER_OFF] else []).

(** The node has to be powered on for the inspection: the power interface
    reports a state other than POWER_ON. *)
Definition reported_off (E : env) : bool :=
  match get_power_state E with
  | Ok state => bool_decide (state ≠ POWER_ON)
  | Raise _ => false
  end.

(** The controller has no capabilities to add: the query raises IloError
    or returns a value that is false in a condition. *)
Definition nothing_discovered (E : env) : Prop :=
  (∃ msg, get_server_capabilities E = Raise (IloError msg))
  ∨ (∃ v, get_server_capabilities E = Ok v ∧ Py.truthy v = false).
(** ** Facts about strings *)

Module StringFacts.

Lemma app_cons (c : ascii) (s t : string) :
  String c s +:+ t = String c (s +:+ t).
Proof. reflexivity. Qed.

Lemma app_nil_l (s : string) : "" +:+ s = s.
Proof. reflexivity. Qed.

Lemma app_nil_r (s : string) : s +:+ "" = s.
Proof. induction s as [|c s IH]; [done | by rewrite app_cons, IH]. Qed.

Lemma app_assoc (a b c : string) : (a +:+ b) +:+ c = a +:+ (b +:+ c).
Proof. induction a as [|x a IH]; [done | by rewrite !app_cons, IH]. Qed.

Lemma startswith_app (p t : string) : Py.startswith p (p +:+ t) = true.
Proof.
  induction p as [|c p IH]; [done|].
  rewrite app_cons. simpl. by rewrite Ascii.eqb_refl, IH.
Qed.

Lemma contains_here (p t : string) : Py.contains p (p +:+ t) = true.
Proof.
  destruct p as [|c p]; [by destruct t|].
  rewrite app_cons. cbn [Py.contains].
  rewrite <- app_cons. by rewrite startswith_app.
Qed.

Lemma contains_app_r (sub a b : string) :
  Py.contains sub b = true → Py.contains sub (a +:+ b) = true.
Proof.
  intros H. induction a as [|c a IH]; [done|].
  rewrite app_cons. cbn [Py.contains]. rewrite IH. apply orb_true_r.
Qed.

Lemma contains_self (p : string) : Py.contains p p = true.
Proof. rewrite <- (app_nil_r p) at 2. apply contains_here. Qed.

(** Every item of a joined list occurs in the joined text. *)
Lemma contains_join (sep : string) (l : list string) (k : string) :
  k ∈ l → Py.contains k (Py.join sep l) = true.
Proof.
  induction l as [|x l IH]; [by intros ?%elem_of_nil|].
  intros [->|Hin]%elem_of_cons.
  - destruct l; [apply contains_self | apply contains_here].
  - destruct l as [|y l]; [by apply elem_of_nil in Hin|].
    change (Py.join sep (x :: y :: l)) with (x +:+ sep +:+ Py.join sep (y :: l)).
    by apply contains_app_r, contains_app_r, IH.
Qed.

End StringFacts.

Module SetFacts.

Lemma difference_empty (X Y : gset string) : X ⊆ Y ↔ X ∖ Y = ∅.
Proof.
  split.
  - intros H. apply elem_of_equiv_empty_L.
    intros x [Hx Hn]%elem_of_difference. by apply Hn, H.
  - intros H x Hx. destruct (decide (x ∈ Y)) as [|Hn]; [done|].
    assert (x ∈ X ∖ Y) as Hd by (by apply elem_of_difference).
    rewrite H in Hd. by apply not_elem_of_empty in Hd.
Qed.

Lemma subseteq_empty (X : gset string) : X ⊆ ∅ → X = ∅.
Proof. set_solver. Qed.

End SetFacts.

(** ** The messages the module builds *)

Module Messages.

Lemma missing_keys (ks : string) :
  "Server didn't return the key(s): %(key)s" %% Fmt.Mapping [("key", text ks)]
  = Ok ("Server didn't return the key(s): " +:+ ks).
Proof.
  transitivity (Ok ("Server didn't return the key(s): " +:+ ks +:+ "")); [done|].
  by rewrite StringFacts.app_nil_r.
Qed.

Lemma properties_not_dict (p : pyval) (u : string) :
  "Essential properties are expected to be in dictionary format, received %(properties)s from node %(node)s."
  %% Fmt.Mapping [("properties", p); ("node", text u)]
  = Ok ("Essential properties are expected to be in dictionary format, received "
        +:+ Py.str p +:+ " from node " +:+ u +:+ ".").
Proof. done. Qed.

Lemma no_properties (u : string) :
  "The node %s didn't return 'properties' as the key with inspection."
  %% Fmt.One (text u)
  = Ok ("The node " +:+ u
        +:+ " didn't return 'properties' as the key with inspection.").
Proof. done. Qed.

Lemma macs_not_dict (m : pyval) (u : string) :
  "Node %(node)s didn't return MACs %(macs)s in dictionary format."
  %% Fmt.Mapping [("macs", m); ("node", text u)]
  = Ok ("Node " +:+ u +:+ " didn't return MACs " +:+ Py.str m
        +:+ " in dictionary format.").
Proof. done. Qed.

Lemma no_macs (u : string) :
  "The node %s didn't return 'macs' as the key with inspection."
  %% Fmt.One (text u)
  = Ok ("The node " +:+ u +:+ " didn't return 'macs' as the key with inspection.").
Proof. done. Qed.

End Messages.

(** ** The validator of the inspection result *)

Section Validator.

Variable node : node.
Variable data : gmap string pyval.

Lemma essential_keys_nonempty : ESSENTIAL_PROPERTIES_KEYS ≠ ∅.
Proof.
  intros H. apply (not_elem_of_empty (C := gset string) "memory_mb").
  rewrite <- H. unfold ESSENTIAL_PROPERTIES_KEYS. set_solver.
Qed.

Lemma truthy_dict (d : gmap string atom) : Py.truthy (PDict d) = true ↔ d ≠ ∅.
Proof.
  simpl. destruct (decide (d = ∅)) as [->|Hne].
  - rewrite bool_decide_eq_true_2 by done. naive_solver.
  - rewrite bool_decide_eq_false_2 by done. naive_solver.
Qed.

Lemma validate_missing_keys props :
  data !! "properties" = Some (PDict props) →
  props ≠ ∅ →
  ESSENTIAL_PROPERTIES_KEYS ∖ dom props ≠ ∅ →
  _validate node data
  = Raise (HardwareInspectionFailure
             (ErrText ("Server didn't return the key(s): "
                       +:+ Py.join ", " (elements (ESSENTIAL_PROPERTIES_KEYS ∖ dom props))))).
Proof.
  intros Hp Hne Hmiss. unfold _validate. rewrite Hp.
  cbn [Py.truthy_opt]. rewrite (proj2 (truthy_dict props) Hne).
  rewrite bool_decide_eq_true_2 by done.
  by rewrite Messages.missing_keys.
Qed.

End Validator.

Section ValidatorTheorems.
Variable node : node.

Lemma validate_no_properties data :
  Py.truthy_opt Py.truthy (data !! "properties") = false →
  _validate node data = Raise (no_properties_error node).
Proof.
  intros Hp. unfold _validate. rewrite Hp.
  by rewrite Messages.no_properties.
Qed.

Lemma validate_no_macs data :
  properties_pass data →
  Py.truthy_opt Py.truthy (data !! "macs") = false →
  _validate node data = Raise (no_macs_error node).
Proof.
  intros (props & Hp & Hsub) Hm. unfold _validate. rewrite Hp, Hm.
  assert (Hne : props ≠ ∅).
  { intros ->. rewrite dom_empty_L in Hsub.
    by apply essential_keys_nonempty, SetFacts.subseteq_empty. }
  cbn [Py.truthy_opt]. rewrite (proj2 (truthy_dict props) Hne).
  rewrite bool_decide_eq_false_2
    by (by intros []; apply SetFacts.difference_empty).
  by rewrite Messages.no_macs.
Qed.

(** The validator reads [data] only through [data.get('properties')],
    [data.get('macs')] and the same two subscripts. *)
Lemma validate_falsy_macs_always_fails data :
  Py.truthy_opt Py.truthy (data !! "macs") = false →
  ∃ error, _validate node data = Raise (HardwareInspectionFailure (ErrText error)).
Proof.
  intros Hm. unfold _validate. rewrite Hm.
  destruct (data !! "properties") as [[a|l|props]|]; cbn [Py.truthy_opt].
  - destruct (Py.truthy (PAtom a)).
    + rewrite Messages.properties_not_dict. eauto.
    + rewrite Messages.no_properties. eauto.
  - destruct (Py.truthy (PList l)).
    + rewrite Messages.properties_not_dict. eauto.
    + rewrite Messages.no_properties. eauto.
  - destruct (Py.truthy (PDict props)).
    + case_bool_decide.
      * rewrite Messages.missing_keys. eauto.
      * cbn [rbind]. rewrite Messages.no_macs. eauto.
    + rewrite Messages.no_properties. eauto.
  - rewrite Messages.no_properties. eauto.
Qed.

Lemma validate_empty_as_absent data key :
  key = "properties" ∨ key = "macs" →
  data !! key = Some (PDict ∅) →
  _validate node data = _validate node (delete key data).
Proof.
  intros [-> | ->] Hk; unfold _validate.
  - rewrite Hk, lookup_delete_eq. rewrite lookup_delete_ne by done. done.
  - rewrite Hk, lookup_delete_eq. rewrite lookup_delete_ne by done. done.
Qed.
End ValidatorTheorems.

(** C5.  When the properties of an inspection result are a non-empty
    mapping that misses some of the four essential keys, the validator
    fails with one error whose message lists exactly the missing keys, each
    of which occurs in the message. *)
Theorem validate_reports_all_missing_keys
    (node : node) (data : gmap string pyval) (props : gmap string atom) :
  data !! "properties" = Some (PDict props) →
  props ≠ ∅ →
  ESSENTIAL_PROPERTIES_KEYS ⊈ dom props →
  ∃ missing error,
    _validate node data = Raise (HardwareInspectionFailure (ErrText error))
    ∧ error = "Server didn't return the key(s): " +:+ Py.join ", " missing
    ∧ (∀ k, k ∈ missing ↔ k ∈ ESSENTIAL_PROPERTIES_KEYS ∧ props !! k = None)
    ∧ (∀ k, k ∈ ESSENTIAL_PROPERTIES_KEYS → props !! k = None →
            Py.contains k error = true).
Proof.
  intros Hp Hne Hmiss.
  set (missing := elements (ESSENTIAL_PROPERTIES_KEYS ∖ dom props)).
  assert (Hin : ∀ k, k ∈ missing ↔ k ∈ ESSENTIAL_PROPERTIES_KEYS ∧ props !! k = None).
  { intros k. unfold missing.
    rewrite elem_of_elements, elem_of_difference, not_elem_of_dom. done. }
  exists missing, ("Server didn't return the key(s): " +:+ Py.join ", " missing).
  split_and!; [|done|done|].
  - apply validate_missing_keys; [done..|].
    by rewrite <- SetFacts.difference_empty.
  - intros k Hk Hnone. apply StringFacts.contains_app_r, StringFacts.contains_join.
    by apply Hin.
Qed.

Lemma validate_reports_all_missing_keys_witness :
  let props : gmap string atom := {[ "cpus" := AInt 4; "cpu_arch" := AStr "x86_64" ]} in
  let data : gmap string pyval :=
    {[ "properties" := PDict props; "macs" := PDict Sample.macs ]} in
  ∃ missing error,
    _validate (Sample.node0 None "all") data
    = Raise (HardwareInspectionFailure (ErrText error))
    ∧ error = "Server didn't return the key(s): " +:+ Py.join ", " missing
    ∧ (∀ k, k ∈ missing ↔ k ∈ ESSENTIAL_PROPERTIES_KEYS ∧ props !! k = None)
    ∧ (∀ k, k ∈ ESSENTIAL_PROPERTIES_KEYS → props !! k = None →
            Py.contains k error = true).
Proof.
  intros props data.
  apply (validate_reports_all_missing_keys (Sample.node0 None "all") data props).
  - reflexivity.
  - intros H. apply (f_equal (λ m, m !! "cpus")) in H. vm_compute in H. discriminate.
  - intros H. specialize (H "memory_mb").
    assert (Hm : "memory_mb" ∈ dom props → False).
    { intros Hd%elem_of_dom. vm_compute in Hd. by destruct Hd. }
    apply Hm, H. unfold ESSENTIAL_PROPERTIES_KEYS. set_solver.
Defined.

(** C5, as first stated, fails on the empty mapping: it misses all four
    keys, and the error names none of them. *)
Lemma validate_empty_properties_names_no_key :
  let data : gmap string pyval :=
    {[ "properties" := PDict ∅; "macs" := PDict Sample.macs ]} in
  let error := "The node node-1 didn't return 'properties' as the key with inspection." in
  data !! "properties" = Some (PDict ∅)
  ∧ _validate (Sample.node0 None "all") data
    = Raise (HardwareInspectionFailure (ErrText error))
  ∧ Forall (λ k, Py.contains k error = false) (elements ESSENTIAL_PROPERTIES_KEYS)
  ∧ ¬ (∀ k, k ∈ ESSENTIAL_PROPERTIES_KEYS → Py.contains k error = true).
Proof.
  intros data error. split_and!.
  - done.
  - by vm_compute.
  - vm_compute. repeat constructor.
  - intros H. specialize (H "cpus").
    assert (Py.contains "cpus" error = false) as Hf by (by vm_compute).
    rewrite H in Hf; [done|]. unfold ESSENTIAL_PROPERTIES_KEYS. set_solver.
Qed.

(** ** Splitting and joining *)

Module SplitFacts.

Lemma split_nonempty (sep : ascii) (s : string) : Py.split sep s ≠ [].
Proof.
  destruct s as [|c s]; [done|]. simpl.
  destruct (Ascii.eqb c sep); [done|]. by destruct (Py.split sep s).
Qed.

(** A text without the separator is its own single token. *)
Lemma split_no_sep (sep : ascii) (t : string) :
  Py.contains_char sep t = false → Py.split sep t = [t].
Proof.
  induction t as [|c t IH]; [done|]. simpl.
  intros [Hc Ht]%orb_false_elim. rewrite Hc, IH; done.
Qed.

Lemma split_app_sep (sep : ascii) (t rest : string) :
  Py.contains_char sep t = false →
  Py.split sep (t +:+ String sep rest) = t :: Py.split sep rest.
Proof.
  induction t as [|c t IH].
  - intros _. rewrite StringFacts.app_nil_l. simpl. by rewrite Ascii.eqb_refl.
  - cbn [Py.contains_char]. intros [Hc Ht]%orb_false_elim.
    rewrite StringFacts.app_cons. cbn [Py.split]. rewrite Hc, IH; done.
Qed.

(** Splitting a joined list of separator-free tokens gives them back. *)
Lemma split_join (sep : ascii) (ts : list string) :
  ts ≠ [] →
  Forall (λ t, Py.contains_char sep t = false) ts →
  Py.split sep (Py.join (String sep "") ts) = ts.
Proof.
  induction ts as [|t ts IH]; [done|]. intros _ [Ht Hts]%Forall_cons.
  destruct ts as [|u ts].
  - by apply split_no_sep.
  - change (Py.join (String sep "") (t :: u :: ts))
      with (t +:+ String sep "" +:+ Py.join (String sep "") (u :: ts)).
    rewrite StringFacts.app_cons, StringFacts.app_nil_l.
    rewrite split_app_sep by done. by rewrite IH.
Qed.

(** Joining the tokens of a text gives the text back. *)
Lemma join_split (sep : ascii) (s : string) :
  Py.join (String sep "") (Py.split sep s) = s.
Proof.
  induction s as [|c s IH]; [done|]. simpl.
  destruct (Ascii.eqb c sep) eqn:Hc.
  - apply Ascii.eqb_eq in Hc as ->.
    destruct (Py.split sep s) as [|t ts] eqn:Hs; [by apply split_nonempty in Hs|].
    change (Py.join (String sep "") ("" :: t :: ts))
      with ("" +:+ String sep "" +:+ Py.join (String sep "") (t :: ts)).
    by rewrite IH.
  - destruct (Py.split sep s) as [|t ts] eqn:Hs; [by apply split_nonempty in Hs|].
    destruct ts as [|u ts].
    + simpl in *. by rewrite IH.
    + change (Py.join (String sep "") (String c t :: u :: ts))
        with (String c t +:+ String sep "" +:+ Py.join (String sep "") (u :: ts)).
      rewrite StringFacts.app_cons. f_equal. exact IH.
Qed.

Lemma tokens_have_no_sep (sep : ascii) (s : string) :
  Forall (λ t, Py.contains_char sep t = false) (Py.split sep s).
Proof.
  induction s as [|c s IH]; [by repeat constructor|]. simpl.
  destruct (Ascii.eqb c sep) eqn:Hc; [by constructor|].
  destruct (Py.split sep s) as [|t ts]; [by repeat constructor; simpl; rewrite Hc|].
  apply Forall_cons in IH as [Ht Hts]. constructor; [|done].
  simpl. by rewrite Hc, Ht.
Qed.

Lemma contains_char_app (x : ascii) (a b : string) :
  Py.contains_char x (a +:+ b) = Py.contains_char x a || Py.contains_char x b.
Proof.
  induction a as [|c a IH]; [done|].
  rewrite StringFacts.app_cons. simpl. by rewrite IH, orb_assoc.
Qed.

Lemma partition_app (sep : ascii) (k v : string) :
  Py.contains_char sep k = false →
  Py.partition sep (k +:+ String sep v) = Some (k, v).
Proof.
  induction k as [|c k IH].
  - intros _. rewrite StringFacts.app_nil_l. simpl. by rewrite Ascii.eqb_refl.
  - cbn [Py.contains_char]. intros [Hc Hk]%orb_false_elim.
    rewrite StringFacts.app_cons. cbn [Py.partition]. by rewrite Hc, IH.
Qed.

Lemma partition_none (sep : ascii) (s : string) :
  Py.partition sep s = None ↔ Py.contains_char sep s = false.
Proof.
  induction s as [|c s IH]; [done|]. simpl.
  destruct (Ascii.eqb c sep); [done|]. simpl.
  destruct (Py.partition sep s) as [[a b]|]; [|tauto].
  split; [done|]. intros H. by apply IH in H.
Qed.

Lemma partition_some (sep : ascii) (s k v : string) :
  Py.partition sep s = Some (k, v) →
  s = k +:+ String sep v ∧ Py.contains_char sep k = false.
Proof.
  revert k v. induction s as [|c s IH]; [done|]. simpl. intros k v.
  destruct (Ascii.eqb c sep) eqn:Hc.
  - apply Ascii.eqb_eq in Hc as ->. by intros [= <- <-].
  - destruct (Py.partition sep s) as [[a b]|]; [|done].
    intros [= <- <-]. destruct (IH a b eq_refl) as [-> Ha].
    split; [done|]. simpl. by rewrite Hc, Ha.
Qed.

End SplitFacts.

(** ** The configuration validator *)

Module Expression.

Lemma code_bounded (c : ascii) : (Py.code c < 256)%N.
Proof. apply Ascii.N_ascii_bounded. Qed.

Lemma of_code (c : ascii) : Ascii.ascii_of_N (Py.code c) = c.
Proof. apply Ascii.ascii_N_embedding. Qed.

Lemma code_of (n : N) : (n < 256)%N → Py.code (Ascii.ascii_of_N n) = n.
Proof. apply Ascii.N_ascii_embedding. Qed.

(** A character lowers to the letter [l] exactly when it is [l] or its
    upper-case form. *)
Lemma char_lower_letter (l c : ascii) :
  is_lower_letter l = true →
  Py.char_lower c = l ↔ c = l ∨ c = upper_of l.
Proof.
  unfold is_lower_letter, Py.char_lower, Py.char_isupper, upper_of.
  intros [Hlo Hhi]%andb_prop.
  apply N.leb_le in Hlo, Hhi.
  pose proof (code_bounded c) as Hc.
  destruct (65 <=? Py.code c)%N eqn:H1; destruct (Py.code c <=? 90)%N eqn:H2;
    cbn [andb]; try apply N.leb_le in H1; try apply N.leb_le in H2;
    try apply N.leb_gt in H1; try apply N.leb_gt in H2.
  - split.
    + intros <-. right. rewrite code_of by lia.
      rewrite N.add_sub. by rewrite of_code.
    + intros [->| ->]; [lia|].
      rewrite code_of by lia.
      replace (Py.code l - 32 + 32)%N with (Py.code l) by lia. apply of_code.
  - split; [by left|]. intros [->| ->]; [done|].
    rewrite code_of in H2 by lia. lia.
  - split; [by left|]. intros [->| ->]; [done|].
    rewrite code_of in H1 by lia. lia.
  - lia.
Qed.

Lemma lower_spells (word v : string) :
  lower_word word = true → Py.lower v = word ↔ spells word v.
Proof.
  revert v. induction word as [|l word IH]; intros v Hw.
  - destruct v; simpl; [done|]. split; [done|tauto].
  - simpl in Hw. apply andb_prop in Hw as [Hl Hw].
    destruct v as [|c v]; simpl; [split; [done|tauto]|].
    rewrite <- (IH v Hw), <- (char_lower_letter l c Hl).
    split; [by intros [= -> ->] | by intros [-> ->]].
Qed.

Lemma eqb_lower_spells (word v : string) :
  lower_word word = true →
  String.eqb (Py.lower v) word = true ↔ spells word v.
Proof. intros Hw. by rewrite String.eqb_eq, lower_spells. Qed.

Lemma isdigit_digits (t : string) : Py.isdigit t = true ↔ digits t.
Proof.
  split.
  - destruct t as [|c t]; [done|]. unfold Py.isdigit.
    revert c. induction t as [|d t IH]; intros c; simpl.
    + rewrite andb_true_r. by constructor.
    + intros [Hc Ht]%andb_prop. constructor 2; [done|]. by apply IH.
  - induction 1 as [c Hc|c s Hc Hs IH]; simpl; [by rewrite Hc|].
    destruct s as [|d s]; [inversion Hs|]. unfold Py.isdigit in IH.
    by rewrite Hc, IH.
Qed.

Lemma digits_no_comma (t : string) : digits t → Py.contains_char "," t = false.
Proof.
  assert (Hd : ∀ c, Py.char_isdigit c = true → Ascii.eqb c "," = false).
  { intros c Hc. destruct (Ascii.eqb c ",") eqn:E; [|done].
    apply Ascii.eqb_eq in E as ->. done. }
  induction 1 as [c Hc|c s Hc Hs IH]; simpl; rewrite (Hd c Hc); [done|].
  by rewrite IH.
Qed.

(** Joined tokens of a property form a comma-separated list of it. *)
Lemma join_comma_separated (token : string → Prop) (ts : list string) :
  ts ≠ [] → Forall token ts → comma_separated token (Py.join "," ts).
Proof.
  induction ts as [|t ts IH]; [done|]. intros _ [Ht Hts]%Forall_cons.
  destruct ts as [|u ts]; [by constructor|].
  change (Py.join "," (t :: u :: ts)) with (t +:+ "," +:+ Py.join "," (u :: ts)).
  constructor 2; [done|]. by apply IH.
Qed.

(** The check of [validate] on the tokens is the comma-separated list of
    digit tokens of the spec. *)
Lemma all_tokens_digits (v : string) :
  forallb Py.isdigit (Py.split "," v) = true ↔ comma_separated digits v.
Proof.
  split.
  - intros H. rewrite <- (SplitFacts.join_split "," v).
    apply join_comma_separated; [apply SplitFacts.split_nonempty|].
    apply Forall_forall. intros t Ht. apply isdigit_digits.
    rewrite forallb_forall in H. by apply H, list_elem_of_In.
  - induction 1 as [t Ht|t rest Ht Hrest IH].
    + rewrite SplitFacts.split_no_sep by by apply digits_no_comma.
      simpl. by rewrite (proj2 (isdigit_digits t) Ht).
    + rewrite StringFacts.app_cons, StringFacts.app_nil_l.
      rewrite SplitFacts.split_app_sep by by apply digits_no_comma.
      simpl. by rewrite (proj2 (isdigit_digits t) Ht), IH.
Qed.

Lemma invalid_message (value node : string) :
  "inspect_ports can accept either comma separated port numbers, or a single port number, or 'all' or 'none'. %(value)s given for node %(node)s driver_info['inspect_ports']"
  %% Fmt.Mapping [("value", text value); ("node", text node)]
  = Ok ("inspect_ports can accept either comma separated port numbers, or a single port number, or 'all' or 'none'. "
        +:+ value +:+ " given for node " +:+ node
        +:+ " driver_info['inspect_ports']").
Proof. done. Qed.

(** What [validate] does once the driver information is parsed. *)
Lemma validate_cases (E : env) (node : node) (d : gmap string string) :
  parse_driver_info E node = Ok d →
  (∀ v, d !! "inspect_ports" = Some v → Py.ascii_text v = true) →
  match d !! "inspect_ports" with
  | None => ∃ msg, validate E node = Raise (MissingParameterValue msg)
  | Some v =>
      (accepted_expression v ∧ validate E node = Ok tt)
      ∨ (¬ accepted_expression v
         ∧ ∃ msg, validate E node = Raise (InvalidParameterValue msg))
  end.
Proof.
  intros Hd Hascii. unfold validate. rewrite Hd. cbn [rbind].
  destruct (d !! "inspect_ports") as [v|]; [|eauto].
  rewrite (Hascii v eq_refl). cbn [negb].
  unfold accepted_expression.
  rewrite <- !eqb_lower_spells, <- all_tokens_digits by done.
  destruct (String.eqb (Py.lower v) "all"); cbn [negb andb]; [left; eauto|].
  destruct (String.eqb (Py.lower v) "none"); cbn [negb andb]; [left; eauto|].
  destruct (forallb Py.isdigit (Py.split "," v)); cbn [negb]; [left; eauto|].
  right. rewrite invalid_message. split; [|eauto]. by intros [|[|]].
Qed.

End Expression.

(** C9.  Once the driver information is parsed, and for a port-selection
    expression of ASCII characters, [validate] fails exactly when the
    expression is absent, or is present and is neither "all" nor "none" in
    any letter case nor a comma-separated list of tokens of one or more of
    the digits 0 to 9; the failure is then an InvalidConfiguration
    condition, and every expression of one of the three forms is accepted.
    (Outside ASCII the [isdigit] of the code knows further digits.) *)
Theorem validate_accepts_exactly_the_three_forms
    (E : env) (node : node) (d : gmap string string) :
  parse_driver_info E node = Ok d →
  (∀ v, d !! "inspect_ports" = Some v → Py.ascii_text v = true) →
  ((∃ e, validate E node = Raise e)
   ↔ d !! "inspect_ports" = None
     ∨ ∃ v, d !! "inspect_ports" = Some v ∧ ¬ accepted_expression v)
  ∧ (validate E node = Ok tt
     ↔ ∃ v, d !! "inspect_ports" = Some v ∧ accepted_expression v)
  ∧ (∀ e, validate E node = Raise e → InvalidConfiguration e).
Proof.
  intros Hd Hascii.
  pose proof (Expression.validate_cases E node d Hd Hascii) as H.
  destruct (d !! "inspect_ports") as [v|].
  - destruct H as [[Hacc Hok]|[Hrej [msg Hr]]].
    + rewrite Hok. split_and!.
      * split; [by intros [e ?]|]. intros [?|(v' & [= <-] & Hn)]; [done|]. by destruct Hn.
      * split; [eauto|done].
      * done.
    + rewrite Hr. split_and!.
      * split; [eauto|eauto].
      * split; [done|]. by intros (v' & [= <-] & Hacc).
      * by intros e [= <-].
  - destruct H as [msg Hr]. rewrite Hr. split_and!.
    + split; eauto.
    + split; [done|]. by intros (v' & ? & _).
    + by intros e [= <-].
Qed.

Lemma validate_accepts_exactly_the_three_forms_witness :
  let E := Sample.controller POWER_ON (Raise (IloError "no capabilities")) in
  let node := Sample.node0 None "1,2" in
  parse_driver_info E node = Ok (driver_info node)
  ∧ (∀ v, driver_info node !! "inspect_ports" = Some v → Py.ascii_text v = true)
  ∧ ((∃ e, validate E node = Raise e)
     ↔ driver_info node !! "inspect_ports" = None
       ∨ ∃ v, driver_info node !! "inspect_ports" = Some v ∧ ¬ accepted_expression v)
  ∧ (validate E node = Ok tt
     ↔ ∃ v, driver_info node !! "inspect_ports" = Some v ∧ accepted_expression v)
  ∧ (∀ e, validate E node = Raise e → InvalidConfiguration e).
Proof.
  intros E node.
  assert (Hascii : ∀ v, driver_info node !! "inspect_ports" = Some v →
                        Py.ascii_text v = true).
  { intros v [= <-]. reflexivity. }
  split; [reflexivity|]. split; [exact Hascii|].
  apply (validate_accepts_exactly_the_three_forms E node (driver_info node));
    [reflexivity|exact Hascii].
Defined.

(** C9, as first stated, fails on "0": every token is made of digits, so
    [validate] accepts it, yet it is neither "all" nor "none" nor a list of
    positive integers. *)
Lemma validate_accepts_zero :
  let E := Sample.controller POWER_ON (Raise (IloError "no capabilities")) in
  let node := Sample.node0 None "0" in
  driver_info node !! "inspect_ports" = Some "0"
  ∧ validate E node = Ok tt
  ∧ ¬ positive_expression "0".
Proof.
  intros E node. split_and!; [done | by vm_compute |].
  assert (Hz : ∀ t, positive_integer t → t ≠ "0").
  { intros t [_ Hpos] ->. vm_compute in Hpos. done. }
  assert (Hno : ∀ t, digits t → Py.contains_char "," t = false)
    by apply Expression.digits_no_comma.
  intros [H|[H|H]]; [by destruct H | by destruct H |].
  inversion H as [t Ht Heq|t rest [Ht _] Hrest Heq].
  - by apply (Hz "0").
  - destruct t as [|c t]; [inversion Ht|].
    rewrite StringFacts.app_cons in Heq. injection Heq as -> Heq.
    destruct t; [done|]. by rewrite StringFacts.app_cons in Heq.
Qed.


(** ** The port selection policy *)

Module Selection.

Lemma filter_none {A} (P : A → Prop) `{!∀ x, Decision (P x)} (l : list A) :
  (∀ x, x ∈ l → ¬ P x) → filter P l = [].
Proof.
  induction l as [|x l IH]; [done|]. intros Hall.
  rewrite filter_cons, decide_False by (apply Hall; left).
  apply IH. intros y Hy. apply Hall. by right.
Qed.

Lemma labels (tokens : list string) :
  collect (λ port_number, "Port %s" %% Fmt.One (text port_number)) tokens
  = Ok (port_label <$> tokens).
Proof.
  induction tokens as [|t ts IH]; [done|]. cbn [collect].
  replace ("Port %s" %% Fmt.One (text t)) with (Ok (A := string) (port_label t)).
  - cbn [rbind]. by rewrite IH.
  - unfold port_label. rewrite <- (StringFacts.app_nil_r t) at 1. done.
Qed.

Lemma not_found_message (missing : list atom) (u : string) :
  "Could not find requested ports %(ports)s on the node %(node)s"
  %% Fmt.Mapping [("ports", PList missing); ("node", text u)]
  = Ok ("Could not find requested ports " +:+ Py.repr (PList missing)
        +:+ " on the node " +:+ u).
Proof.
  rewrite <- (StringFacts.app_nil_r u) at 2. done.
Qed.

(** The labels put aside are the requested ones without a usable MAC, in
    the order of the request. *)
Lemma loop_missing macs labels created missing :
  (foldl (selection_step macs) (created, missing) labels).2
  = missing ++ (AStr <$> filter (λ l, usable macs l = false) labels).
Proof.
  revert created missing.
  induction labels as [|l labels IH]; intros created missing.
  - by rewrite app_nil_r.
  - cbn [foldl selection_step]. rewrite filter_cons.
    destruct (macs !! l) as [mac|] eqn:Hl.
    + destruct (Py.truthy_atom mac) eqn:Hm; rewrite IH.
      * rewrite decide_False; [done|]. unfold usable. rewrite Hl. cbn.
        by rewrite Hm.
      * rewrite decide_True; [by rewrite fmap_cons, <- app_assoc|].
        unfold usable. by rewrite Hl.
    + rewrite IH, decide_True; [by rewrite fmap_cons, <- app_assoc|].
      unfold usable. by rewrite Hl.
Qed.

(** The MACs collected are those of the requested labels with a usable
    MAC, next to what was collected before. *)
Lemma loop_created macs labels created missing l mac :
  (foldl (selection_step macs) (created, missing) labels).1 !! l = Some mac
  ↔ (l ∈ labels ∧ usable macs l = true ∧ macs !! l = Some mac)
    ∨ (¬ (l ∈ labels ∧ usable macs l = true) ∧ created !! l = Some mac).
Proof.
  revert created missing.
  induction labels as [|x labels IH]; intros created missing.
  - cbn [foldl]. rewrite elem_of_nil. tauto.
  - cbn [foldl selection_step]. rewrite elem_of_cons.
    destruct (decide (l ∈ labels)) as [Hin|Hin];
      destruct (decide (l = x)) as [->|Hne];
      (destruct (macs !! x) as [m|] eqn:Hx;
       [destruct (Py.truthy_atom m) eqn:Hm|]);
      rewrite IH;
      first [ assert (Hu : usable macs x = true)
                by (unfold usable; rewrite Hx; exact Hm)
            | assert (Hu : usable macs x = false)
                by (unfold usable; rewrite Hx; first [exact Hm | done]) ];
      rewrite ?lookup_insert_eq, ?lookup_insert_ne by done;
      rewrite ?Hu, ?Hx; intuition congruence.
Qed.

Lemma fold_step macs labels :
  foldl (λ '(created, missing) port_number,
           match macs !! port_number with
           | Some mac_address =>
               if Py.truthy_atom mac_address
               then (<[port_number := mac_address]> created, missing)
               else (created, (missing ++ [AStr port_number])%list)
           | None => (created, (missing ++ [AStr port_number])%list)
           end)
        ((∅, []) : gmap string atom * list atom) labels
  = foldl (selection_step macs) (∅, []) labels.
Proof.
  generalize ((∅, []) : gmap string atom * list atom).
  induction labels as [|l labels IH]; intros [created missing]; [done|].
  cbn [foldl]. by rewrite IH.
Qed.

(** What the policy does for an expression other than "all". *)
Lemma explicit_request (node : node) (macs : gmap string atom) :
  String.eqb (Py.lower (desired_ports node)) "all" = false →
  let missing := filter (λ l, usable macs l = false) (requested_labels node) in
  _get_macs_for_desired_ports node macs
  = if bool_decide (missing = [])
    then Ok (foldl (selection_step macs) (∅, []) (requested_labels node)).1
    else Raise (ports_not_found_error node missing).
Proof.
  intros Hall missing. unfold _get_macs_for_desired_ports. rewrite Hall.
  rewrite labels. cbn [rbind]. rewrite fold_step.
  fold (requested_labels node).
  pose proof (loop_missing macs (requested_labels node) ∅ []) as Hmiss.
  destruct (foldl (selection_step macs) (∅, []) (requested_labels node)) as [created miss].
  cbn [fst snd] in *. rewrite app_nil_l in Hmiss. subst miss. fold missing.
  destruct missing as [|m ms].
  - by rewrite !bool_decide_eq_true_2.
  - rewrite !bool_decide_eq_false_2 by done. cbn [negb].
    by rewrite not_found_message.
Qed.

Lemma starts_with_digit (v : string) :
  comma_separated digits v → ∃ c rest, v = String c rest ∧ Py.char_isdigit c = true.
Proof.
  assert (Hd : ∀ t, digits t → ∃ c rest, t = String c rest ∧ Py.char_isdigit c = true).
  { intros t [c Hc|c s Hc Hs]; eauto. }
  intros [t Ht|t rest Ht Hrest]; [by apply Hd|].
  destruct (Hd t Ht) as (c & r & -> & Hc). rewrite StringFacts.app_cons. eauto.
Qed.

Lemma numeric_is_not_all (node : node) :
  numeric_selection node →
  String.eqb (Py.lower (desired_ports node)) "all" = false.
Proof.
  intros (c & rest & Hv & Hc)%starts_with_digit.
  destruct (String.eqb _ "all") eqn:Heq; [|done].
  apply Expression.eqb_lower_spells in Heq; [|done].
  rewrite Hv in Heq. destruct Heq as [[->| ->] _]; done.
Qed.

End Selection.

(** C2.  For a comma-separated numeric selection expression: when every
    requested label has a MAC in the mapping that is not empty, the policy
    returns exactly the MACs of the requested labels; when some requested
    label has none, it raises HardwareInspectionFailure, the error lists
    exactly the labels without one, and nothing is returned. *)
Theorem selection_returns_requested_or_fails
    (node : node) (macs : gmap string atom) :
  numeric_selection node →
  (Forall (λ l, usable macs l = true) (requested_labels node) →
   ∃ selected,
     _get_macs_for_desired_ports node macs = Ok selected
     ∧ ∀ l mac, selected !! l = Some mac
                ↔ l ∈ requested_labels node ∧ macs !! l = Some mac)
  ∧ (Exists (λ l, usable macs l = false) (requested_labels node) →
     ∃ missing,
       _get_macs_for_desired_ports node macs
       = Raise (ports_not_found_error node missing)
       ∧ ∀ l, l ∈ missing ↔ l ∈ requested_labels node ∧ usable macs l = false).
Proof.
  intros Hnum.
  pose proof (Selection.explicit_request node macs
                (Selection.numeric_is_not_all node Hnum)) as Hrun.
  cbv zeta in Hrun. split.
  - intros Hall. rewrite Forall_forall in Hall.
    assert (Hnone : filter (λ l, usable macs l = false) (requested_labels node) = []).
    { apply Selection.filter_none. intros l Hl. by rewrite (Hall l Hl). }
    rewrite Hnone in Hrun. eexists. split; [exact Hrun|].
    intros l mac. rewrite Selection.loop_created, lookup_empty. split.
    + intros [(? & _ & ?)|[_ ?]]; [done|discriminate].
    + intros [Hl Hmac]. left. split_and!; [done| |done]. by apply Hall.
  - intros Hex. rewrite Exists_exists in Hex. destruct Hex as (l0 & Hl0 & Hbad).
    set (missing := filter (λ l, usable macs l = false) (requested_labels node)) in *.
    assert (Hin : ∀ l, l ∈ missing ↔ l ∈ requested_labels node ∧ usable macs l = false).
    { intros l. unfold missing. rewrite list_elem_of_filter. tauto. }
    rewrite bool_decide_eq_false_2 in Hrun.
    + by exists missing.
    + intros Hnil. assert (l0 ∈ missing) as Hm by by apply Hin.
      rewrite Hnil in Hm. by apply elem_of_nil in Hm.
Qed.

Lemma selection_returns_requested_or_fails_witness :
  let node := Sample.node0 None "1,2" in
  let macs := Sample.macs in
  numeric_selection node
  ∧ (Forall (λ l, usable macs l = true) (requested_labels node) →
     ∃ selected,
       _get_macs_for_desired_ports node macs = Ok selected
       ∧ ∀ l mac, selected !! l = Some mac
                  ↔ l ∈ requested_labels node ∧ macs !! l = Some mac)
  ∧ (Exists (λ l, usable macs l = false) (requested_labels node) →
     ∃ missing,
       _get_macs_for_desired_ports node macs
       = Raise (ports_not_found_error node missing)
       ∧ ∀ l, l ∈ missing ↔ l ∈ requested_labels node ∧ usable macs l = false).
Proof.
  intros node macs.
  assert (Hnum : numeric_selection node).
  { apply Expression.all_tokens_digits. reflexivity. }
  split; [exact Hnum|].
  exact (selection_returns_requested_or_fails node macs Hnum).
Defined.

(** C2, as first stated, fails when a requested label is present in the
    mapping with an empty MAC: the label counts as missing and the policy
    raises. *)
Lemma selection_rejects_present_label_with_empty_mac :
  let node := Sample.node0 None "1" in
  let macs : gmap string atom := {[ "Port 1" := AStr "" ]} in
  numeric_selection node
  ∧ Forall (λ l, is_Some (macs !! l)) (requested_labels node)
  ∧ _get_macs_for_desired_ports node macs
    = Raise (HardwareInspectionFailure
               (ErrText "Could not find requested ports ['Port 1'] on the node node-1"))
  ∧ ¬ ∃ selected, _get_macs_for_desired_ports node macs = Ok selected.
Proof.
  intros node macs.
  assert (Hrun : _get_macs_for_desired_ports node macs
                 = Raise (HardwareInspectionFailure
                            (ErrText "Could not find requested ports ['Port 1'] on the node node-1")))
    by (by vm_compute).
  split_and!.
  - apply Expression.all_tokens_digits. reflexivity.
  - change (requested_labels node) with ["Port 1"].
    constructor; [|constructor]. exists (AStr ""). reflexivity.
  - exact Hrun.
  - intros [selected Hok]. by rewrite Hrun in Hok.
Qed.

(** ** Port registration *)

Module Registration.

Section Loop.

Variable E : env.
Variable node : node.

Lemma unfold_loop (macs : gmap string atom) :
  _create_ports_if_not_exist E node macs = port_loop E node (mac_values macs).
Proof. reflexivity. Qed.

(** The three outcomes of one turn of the loop. *)
Lemma turn_created mac rest w :
  create_port E (port_of node mac) (ports w) = Ok tt →
  port_loop E node (mac :: rest) w
  = port_loop E node rest (after_attempt node w mac true).
Proof.
  intros H. unfold port_loop, after_attempt. cbn [for_each].
  unfold bind at 1, try_except, bind, db_create_port, LOG.
  unfold port_of in *. cbn beta zeta in *. by rewrite H.
Qed.

Lemma turn_duplicate mac rest w m :
  create_port E (port_of node mac) (ports w) = Raise (MACAlreadyExists m) →
  port_loop E node (mac :: rest) w
  = port_loop E node rest (after_attempt node w mac false).
Proof.
  intros H. unfold port_loop, after_attempt. cbn [for_each].
  unfold bind at 1, try_except, bind, db_create_port, LOG.
  unfold port_of in *. cbn beta zeta in *. by rewrite H.
Qed.

Lemma turn_failed mac rest w e :
  create_port E (port_of node mac) (ports w) = Raise e →
  ¬ is_duplicate e →
  port_loop E node (mac :: rest) w
  = (Raise e, with_call w (CallCreatePort (port_of node mac))).
Proof.
  intros H Hd. unfold port_loop. cbn [for_each].
  unfold bind at 1, try_except, bind, db_create_port, LOG.
  unfold port_of in *. cbn beta zeta in *. rewrite H. by destruct e.
Qed.

Lemma create_port_cases p rows :
  create_port E p rows = Ok tt
  ∨ (∃ m, create_port E p rows = Raise (MACAlreadyExists m))
  ∨ (∃ e, create_port E p rows = Raise e ∧ ¬ is_duplicate e).
Proof.
  destruct (create_port E p rows) as [[]|e]; [by left|].
  destruct e; eauto 6.
Qed.

(** An exception that leaves the loop is one the store raised for one of
    the MACs, and it is not the duplicate condition. *)
Lemma raised_by_store values w e :
  (port_loop E node values w).1 = Raise e →
  ¬ is_duplicate e
  ∧ ∃ mac rows, mac ∈ values ∧ create_port E (port_of node mac) rows = Raise e.
Proof.
  revert w. induction values as [|mac rest IH]; intros w; [done|].
  destruct (create_port_cases (port_of node mac) (ports w))
    as [Hok|[[m Hdup]|(e' & Hfail & Hnd)]].
  - rewrite (turn_created _ _ _ Hok). intros (? & mac' & rows & ? & ?)%IH.
    split; [done|]. exists mac', rows. split; [by right|done].
  - rewrite (turn_duplicate _ _ _ _ Hdup). intros (? & mac' & rows & ? & ?)%IH.
    split; [done|]. exists mac', rows. split; [by right|done].
  - rewrite (turn_failed _ _ _ _ Hfail Hnd). cbn [fst]. intros [= ->].
    split; [done|]. exists mac, (ports w). split; [by left|done].
Qed.

(** With a store that fails only on duplicates the loop ends normally,
    having tried every MAC in order. *)
Lemma all_attempted values w :
  (∀ p rows e, create_port E p rows = Raise e → is_duplicate e) →
  (port_loop E node values w).1 = Ok tt
  ∧ calls (port_loop E node values w).2
    = calls w ++ (CallCreatePort ∘ port_of node <$> values).
Proof.
  intros Hstore. revert w. induction values as [|mac rest IH]; intros w.
  - split; [done|]. by rewrite app_nil_r.
  - destruct (create_port_cases (port_of node mac) (ports w))
      as [Hok|[[m Hdup]|(e' & Hfail & Hnd)]].
    + rewrite (turn_created _ _ _ Hok).
      destruct (IH (after_attempt node w mac true)) as [-> ->].
      split; [done|]. cbn. by rewrite <- app_assoc.
    + rewrite (turn_duplicate _ _ _ _ Hdup).
      destruct (IH (after_attempt node w mac false)) as [-> ->].
      split; [done|]. cbn. by rewrite <- app_assoc.
    + by apply Hstore in Hfail.
Qed.

(** The loop touches neither the node nor what was saved, and calls
    nothing but the port store. *)
Lemma frame values w :
  task_node (port_loop E node values w).2 = task_node w
  ∧ saved (port_loop E node values w).2 = saved w
  ∧ ∃ cs, calls (port_loop E node values w).2 = calls w ++ cs
          ∧ Forall (λ c, ∃ p, c = CallCreatePort p) cs.
Proof.
  revert w. induction values as [|mac rest IH]; intros w.
  - split_and!; [done..|]. exists []. by rewrite app_nil_r.
  - destruct (create_port_cases (port_of node mac) (ports w))
      as [Hok|[[m Hdup]|(e' & Hfail & Hnd)]].
    + rewrite (turn_created _ _ _ Hok).
      destruct (IH (after_attempt node w mac true)) as (-> & -> & cs & -> & Hcs).
      split_and!; [done..|]. exists (CallCreatePort (port_of node mac) :: cs).
      cbn. rewrite <- app_assoc. split; [done|].
      constructor; [eauto|done].
    + rewrite (turn_duplicate _ _ _ _ Hdup).
      destruct (IH (after_attempt node w mac false)) as (-> & -> & cs & -> & Hcs).
      split_and!; [done..|]. exists (CallCreatePort (port_of node mac) :: cs).
      cbn. rewrite <- app_assoc. split; [done|].
      constructor; [eauto|done].
    + rewrite (turn_failed _ _ _ _ Hfail Hnd). cbn.
      split_and!; [done..|]. exists [CallCreatePort (port_of node mac)].
      split; [done|]. constructor; [eauto|done].
Qed.

(** The loop does what the registration is to do with the MACs in the
    order it goes through them. *)
Lemma refines values w :
  port_loop E node values w = attempts E node values w.
Proof.
  revert w. induction values as [|mac rest IH]; intros w; [reflexivity|].
  cbn [attempts].
  destruct (create_port E (port_of node mac) (ports w)) as [[]|e] eqn:Hstore.
  - rewrite (turn_created _ _ _ Hstore). apply IH.
  - destruct e;
      first [ rewrite (turn_duplicate _ _ _ _ Hstore); apply IH
            | rewrite (turn_failed _ _ _ _ Hstore); [reflexivity|by intros []] ].
Qed.

End Loop.

End Registration.

(** C8.  [_create_ports_if_not_exist] does with the MACs of the mapping, in
    the order in which it goes through them, what the registration is to
    do: a MAC the store knows already is caught, logged as a warning, and
    the loop goes on with the remaining MACs; any other failure of the
    store leaves the function at once and as it was raised.  So an
    exception that leaves the function is one the store raised and is not
    the duplicate condition, and with a store that fails on duplicates only
    the function ends normally. *)
Theorem duplicate_mac_is_skipped_other_failures_propagate
    (E : env) (node : node) (macs : gmap string atom) (w : world) :
  (∃ order,
     order ≡ₚ mac_values macs
     ∧ _create_ports_if_not_exist E node macs w = attempts E node order w)
  ∧ (∀ e, (_create_ports_if_not_exist E node macs w).1 = Raise e →
          ¬ is_duplicate e
          ∧ ∃ mac rows, mac ∈ mac_values macs
                        ∧ create_port E (port_of node mac) rows = Raise e)
  ∧ ((∀ p rows e, create_port E p rows = Raise e → is_duplicate e) →
     (_create_ports_if_not_exist E node macs w).1 = Ok tt).
Proof.
  rewrite Registration.unfold_loop. split_and!.
  - exists (mac_values macs). split; [reflexivity|]. apply Registration.refines.
  - apply Registration.raised_by_store.
  - intros Hstore. apply (Registration.all_attempted E node _ w Hstore).
Qed.

Lemma duplicate_mac_is_skipped_other_failures_propagate_witness :
  let E := Sample.controller POWER_ON (Raise (IloError "no capabilities")) in
  let node := Sample.node0 None "all" in
  let mac := AStr "aa:aa:aa:aa:aa:aa" in
  let macs : gmap string atom := {[ "Port 1" := mac; "Port 2" := mac ]} in
  let w := Sample.start node in
  (∀ p rows e, create_port E p rows = Raise e → is_duplicate e)
  ∧ (_create_ports_if_not_exist E node macs w).1 = Ok tt
  ∧ _create_ports_if_not_exist E node macs w
    = (Ok tt, after_attempt node (after_attempt node w mac true) mac false).
Proof.
  intros E node mac macs w.
  assert (Hstore : ∀ p rows e, create_port E p rows = Raise e → is_duplicate e).
  { intros p rows e. cbn. unfold Sample.unique_store.
    case_bool_decide; [|discriminate]. intros [= <-]. exact I. }
  destruct (duplicate_mac_is_skipped_other_failures_propagate E node macs w)
    as ((order & Horder & Hrun) & _ & Hends).
  split; [exact Hstore|]. split; [exact (Hends Hstore)|].
  assert (Hvalues : mac_values macs = [mac; mac]) by (vm_compute; reflexivity).
  rewrite Hvalues in Horder.
  assert (Hsame : order = [mac; mac]).
  { destruct order as [|a [|b [|c order]]];
      try (apply Permutation_length in Horder; discriminate Horder).
    assert (Ha : a ∈ [mac; mac]) by (rewrite <- Horder; by left).
    assert (Hb : b ∈ [mac; mac]) by (rewrite <- Horder; by right; left).
    apply elem_of_cons in Ha as [->|Ha%list_elem_of_singleton];
      apply elem_of_cons in Hb as [->|Hb%list_elem_of_singleton];
      by subst. }
  rewrite Hrun, Hsame. reflexivity.
Defined.

(** Two labels with one MAC on a store that refuses duplicates: the second
    attempt is refused, a warning is logged, the loop ends normally. *)
Example registration_skips_duplicate :
  let E := Sample.controller POWER_ON (Raise (IloError "no capabilities")) in
  let node := Sample.node0 None "all" in
  let macs : gmap string atom :=
    {[ "Port 1" := AStr "aa:aa:aa:aa:aa:aa"; "Port 2" := AStr "aa:aa:aa:aa:aa:aa";
       "Port 3" := AStr "cc:cc:cc:cc:cc:cc" ]} in
  let run := _create_ports_if_not_exist E node macs (Sample.start node) in
  run.1 = Ok tt
  ∧ length (calls run.2) = 3
  ∧ address <$> ports run.2 = [AStr "cc:cc:cc:cc:cc:cc"; AStr "aa:aa:aa:aa:aa:aa"]
  ∧ log_level <$> log run.2 = [INFO; INFO; WARN].
Proof. by vm_compute. Qed.

(** A store that fails otherwise stops the loop at the first MAC. *)
Example registration_propagates_store_failure :
  let E := Sample.with_store
             (Sample.controller POWER_ON (Raise (IloError "no capabilities")))
             Sample.broken_store in
  let node := Sample.node0 None "all" in
  let run := _create_ports_if_not_exist E node Sample.macs (Sample.start node) in
  run.1 = Raise (OtherError "DBConnectionError" "connection lost")
  ∧ length (calls run.2) = 1
  ∧ ports run.2 = [].
Proof. by vm_compute. Qed.

(** ** The capability merger *)

Module Merger.

Lemma item (kv : string * atom) : capability_item kv = Ok (item_text kv).
Proof.
  destruct kv as [k v]. unfold item_text. cbn [fst snd].
  transitivity (Ok (A := string) (k +:+ ":" +:+ Py.str_atom v +:+ "")); [done|].
  by rewrite StringFacts.app_nil_r.
Qed.

Lemma items (l : list (string * atom)) :
  collect capability_item l = Ok (item_text <$> l).
Proof.
  induction l as [|kv l IH]; [done|]. cbn [collect].
  rewrite item, IH. done.
Qed.

(** The pairs [dict] receives from well-formed tokens. *)
Lemma of_pairs_fold (l : list (string * string)) (i : nat) (acc : gmap string atom) :
  Dict.of_pairs i ((λ kv, [kv.1; kv.2]) <$> l) acc
  = Ok (foldl (λ m kv, <[kv.1 := AStr kv.2]> m) acc l).
Proof.
  revert i acc. induction l as [|[k v] l IH]; intros i acc; [done|].
  cbn. apply IH.
Qed.

Lemma fold_lookup (l : list (string * string)) (acc : gmap string atom) (k : string) :
  NoDup l.*1 →
  foldl (λ m kv, <[kv.1 := AStr kv.2]> m) acc l !! k
  = match (list_to_map l : gmap string string) !! k with
    | Some v => Some (AStr v)
    | None => acc !! k
    end.
Proof.
  revert acc. induction l as [|[k0 v0] l IH]; intros acc Hnd.
  - cbn [foldl list_to_map foldr]. by rewrite lookup_empty.
  - cbn in Hnd. apply NoDup_cons in Hnd as [Hk0 Hnd].
    cbn [foldl list_to_map foldr fst snd]. rewrite IH by done.
    destruct (decide (k = k0)) as [->|Hne].
    + rewrite lookup_insert_eq.
      rewrite (not_elem_of_list_to_map_1 (M := gmap string) l k0 Hk0).
      by rewrite lookup_insert_eq.
    + rewrite !lookup_insert_ne by done. done.
Qed.

Lemma of_pairs_only_value_error i pairs acc e :
  Dict.of_pairs i pairs acc = Raise e → ∃ msg, e = ValueError msg.
Proof.
  revert i acc. induction pairs as [|p pairs IH]; intros i acc; [done|].
  destruct p as [|k [|v [|x p]]]; cbn; try (intros [= <-]; eauto).
  apply IH.
Qed.

Lemma of_pairs_invariant (P : string → atom → Prop) pairs i acc m :
  (∀ k v, acc !! k = Some v → P k v) →
  Forall (λ p, ∀ k v, p = [k; v] → P k (AStr v)) pairs →
  Dict.of_pairs i pairs acc = Ok m →
  ∀ k v, m !! k = Some v → P k v.
Proof.
  revert i acc. induction pairs as [|p pairs IH]; intros i acc Hacc Hall.
  - by intros [= <-].
  - apply Forall_cons in Hall as [Hp Hall].
    destruct p as [|k0 [|v0 [|x p]]]; cbn; try done.
    apply IH; [|done]. intros k v.
    destruct (decide (k = k0)) as [->|Hne].
    + rewrite lookup_insert_eq. intros [= <-]. by apply Hp.
    + rewrite lookup_insert_ne by done. apply Hacc.
Qed.

Lemma item_text_nonempty kv : item_text kv ≠ "".
Proof. destruct kv as [[|c k] v]; done. Qed.

Lemma join_nonempty (sep x : string) (xs : list string) :
  x ≠ "" → Py.join sep (x :: xs) ≠ "".
Proof. destruct x as [|c x]; [done|]. intros _. by destruct xs. Qed.

Lemma eqb_empty_false (s : string) : s ≠ "" → String.eqb s "" = false.
Proof. intros H. by apply String.eqb_neq. Qed.

Lemma item_text_no_comma k v :
  plain_key k = true → plain_value v = true →
  Py.contains_char "," (item_text (k, v)) = false.
Proof.
  unfold plain_key, plain_value, item_text. cbn [fst snd].
  intros [Hk _]%andb_prop Hv. apply negb_true_iff in Hk, Hv.
  rewrite !SplitFacts.contains_char_app, Hk, Hv. done.
Qed.

Lemma item_text_split k v :
  plain_key k = true →
  Py.split1 ":" (item_text (k, v)) = [k; Py.str_atom v].
Proof.
  unfold plain_key, item_text, Py.split1. cbn [fst snd].
  intros [_ Hk]%andb_prop. apply negb_true_iff in Hk.
  rewrite StringFacts.app_cons, StringFacts.app_nil_l.
  by rewrite SplitFacts.partition_app.
Qed.

(** Reading back what was serialized gives the merged map, each value as
    its text. *)
Lemma read_serialized (m : gmap string atom) :
  plain m → read_capabilities (serialize m) = Ok (rendered <$> m).
Proof.
  intros Hplain. unfold read_capabilities, serialize.
  pose proof (NoDup_fst_map_to_list m) as Hnd.
  assert (Hin : ∀ k v, (k, v) ∈ map_to_list m →
                       plain_key k = true ∧ plain_value v = true).
  { intros k v Hkv. apply elem_of_map_to_list in Hkv. by apply Hplain. }
  assert (Hm : list_to_map (map_to_list m) = m) by apply list_to_map_to_list.
  destruct (decide (map_to_list m = [])) as [Hnil|Hne].
  { rewrite Hnil in *. cbn in Hm. subst m. cbn. by rewrite fmap_empty. }
  rewrite eqb_empty_false.
  2:{ destruct (map_to_list m) as [|kv l]; [done|]. rewrite fmap_cons.
      apply join_nonempty, item_text_nonempty. }
  rewrite (SplitFacts.split_join "," (item_text <$> map_to_list m)).
  2:{ by destruct (map_to_list m). }
  2:{ apply Forall_fmap, Forall_forall. intros [k v] Hkv.
      destruct (Hin k v Hkv). by apply item_text_no_comma. }
  assert (Hpairs :
    Py.split1 ":" <$> (item_text <$> map_to_list m)
    = (λ kv : string * string, [kv.1; kv.2])
        <$> (prod_map id Py.str_atom <$> map_to_list m)).
  { rewrite <- !list_fmap_compose. apply Forall_fmap_ext, Forall_forall.
    intros [k v] Hkv. destruct (Hin k v Hkv). cbn.
    by apply item_text_split. }
  rewrite Hpairs, of_pairs_fold. f_equal. apply map_eq. intros k.
  rewrite fold_lookup.
  2:{ rewrite <- list_fmap_compose.
      replace (fst ∘ prod_map id Py.str_atom) with (fst (A := string) (B := atom)); [done|].
      done. }
  rewrite list_to_map_fmap, Hm, !lookup_fmap, lookup_empty.
  by destruct (m !! k).
Qed.

(** What was read from a capabilities string has plain keys and values,
    and every value is a text. *)
Lemma read_plain (caps : string) (existing : gmap string atom) :
  read_capabilities caps = Ok existing →
  ∀ k v, existing !! k = Some v →
         plain_key k = true ∧ plain_value v = true ∧ rendered v = v.
Proof.
  unfold read_capabilities. destruct (String.eqb caps "").
  { intros [= <-] k v. by rewrite lookup_empty. }
  apply of_pairs_invariant; [intros k v; by rewrite lookup_empty|].
  apply Forall_fmap, Forall_forall. intros t Ht k v. cbn.
  unfold Py.split1.
  destruct (Py.partition ":" t) as [[a b]|] eqn:Hp; [|done].
  intros [= -> ->]. apply SplitFacts.partition_some in Hp as [-> Hk].
  pose proof (SplitFacts.tokens_have_no_sep "," caps) as Hall.
  rewrite Forall_forall in Hall. apply Hall in Ht.
  rewrite SplitFacts.contains_char_app in Ht. cbn in Ht.
  apply orb_false_elim in Ht as [Hk' Hv'].
  unfold plain_key, plain_value, rendered. cbn. by rewrite Hk, Hk', Hv'.
Qed.

(** The run of the merger on a node whose capabilities string reads as
    [existing]. *)
Lemma run (node : node) (caps : string) (existing new : gmap string atom) :
  properties node !! "capabilities" = Some (AStr caps) →
  read_capabilities caps = Ok existing →
  _update_capabilities node (PDict new) = Ok (serialize (new ∪ existing)).
Proof.
  intros Hcaps Hread. unfold _update_capabilities, read_capabilities in *.
  rewrite Hcaps. cbn [Py.truthy_opt Py.truthy_atom].
  destruct (String.eqb caps "").
  - injection Hread as <-. cbn [negb rbind]. by rewrite items.
  - cbn [negb]. rewrite Hread. cbn [rbind]. by rewrite items.
Qed.

Lemma union_plain (new existing : gmap string atom) :
  plain new → plain existing → plain (new ∪ existing).
Proof.
  intros Hn He k v [Hk|[_ Hk]]%lookup_union_Some_raw; [by apply Hn | by apply He].
Qed.

End Merger.

(** C3.  For an existing capabilities string that parses and a discovered
    mapping whose keys have neither comma nor colon and whose values, as
    text, have no comma, the string the merger returns reads back as a map
    in which every operator key absent from the discovered mapping keeps
    its value and every discovered key has the text of its new value. *)
Theorem merge_keeps_operator_keys_and_takes_new_values
    (node : node) (caps : string) (existing new : gmap string atom) :
  properties node !! "capabilities" = Some (AStr caps) →
  read_capabilities caps = Ok existing →
  plain new →
  ∃ out merged,
    _update_capabilities node (PDict new) = Ok out
    ∧ read_capabilities out = Ok merged
    ∧ (∀ k v, existing !! k = Some v → new !! k = None → merged !! k = Some v)
    ∧ (∀ k v, new !! k = Some v → merged !! k = Some (rendered v))
    ∧ dom merged = dom new ∪ dom existing.
Proof.
  intros Hcaps Hread Hnew.
  pose proof (Merger.read_plain caps existing Hread) as Hex.
  assert (Hplain : plain (new ∪ existing)).
  { apply Merger.union_plain; [done|]. intros k v Hk. by destruct (Hex k v Hk) as (? & ? & _). }
  exists (serialize (new ∪ existing)), (rendered <$> (new ∪ existing)).
  split_and!.
  - by apply (Merger.run node caps).
  - by apply Merger.read_serialized.
  - intros k v Hk Hn. rewrite lookup_fmap, lookup_union_r, Hk by done.
    cbn. f_equal. by destruct (Hex k v Hk) as (_ & _ & ?).
  - intros k v Hk. by rewrite lookup_fmap, (lookup_union_Some_l _ _ _ _ Hk).
  - by rewrite dom_fmap_L, dom_union_L.
Qed.

Lemma merge_keeps_operator_keys_and_takes_new_values_witness :
  let node := Sample.node0 (Some "boot_mode:bios,custom:foo") "all" in
  let existing : gmap string atom :=
    {[ "boot_mode" := AStr "bios"; "custom" := AStr "foo" ]} in
  let new : gmap string atom := {[ "BootMode" := AStr "UEFI" ]} in
  properties node !! "capabilities" = Some (AStr "boot_mode:bios,custom:foo")
  ∧ read_capabilities "boot_mode:bios,custom:foo" = Ok existing
  ∧ plain new
  ∧ ∃ out merged,
      _update_capabilities node (PDict new) = Ok out
      ∧ read_capabilities out = Ok merged
      ∧ (∀ k v, existing !! k = Some v → new !! k = None → merged !! k = Some v)
      ∧ (∀ k v, new !! k = Some v → merged !! k = Some (rendered v))
      ∧ dom merged = dom new ∪ dom existing.
Proof.
  intros node existing new.
  assert (H1 : properties node !! "capabilities" = Some (AStr "boot_mode:bios,custom:foo"))
    by reflexivity.
  assert (H2 : read_capabilities "boot_mode:bios,custom:foo" = Ok existing)
    by (vm_compute; reflexivity).
  assert (H3 : plain new).
  { intros k v [<- <-]%lookup_singleton_Some. split; reflexivity. }
  split_and!; [exact H1 | exact H2 | exact H3 |].
  exact (merge_keeps_operator_keys_and_takes_new_values
           node "boot_mode:bios,custom:foo" existing new H1 H2 H3).
Defined.

(** C3, as first stated, fails for a discovered value with a comma: the
    string the merger returns has a token without a colon and does not
    read as a map at all, so the key present in both maps to nothing. *)
Lemma merge_output_unreadable_with_comma_in_value :
  let node := Sample.node0 (Some "server_model:DL360") "all" in
  let new : gmap string atom := {[ "server_model" := AStr "DL380,Gen8" ]} in
  read_capabilities "server_model:DL360" = Ok {[ "server_model" := AStr "DL360" ]}
  ∧ _update_capabilities node (PDict new) = Ok "server_model:DL380,Gen8"
  ∧ read_capabilities "server_model:DL380,Gen8"
    = Raise (ValueError "dictionary update sequence element #1 has length 1; 2 is required")
  ∧ ¬ ∃ merged, read_capabilities "server_model:DL380,Gen8" = Ok merged
                ∧ merged !! "server_model" = Some (AStr "DL380,Gen8").
Proof.
  intros node new.
  assert (Hread : read_capabilities "server_model:DL380,Gen8"
                  = Raise (ValueError "dictionary update sequence element #1 has length 1; 2 is required"))
    by (vm_compute; reflexivity).
  split_and!; [vm_compute; reflexivity | vm_compute; reflexivity | exact Hread |].
  intros (merged & Hok & _). by rewrite Hread in Hok.
Qed.




Module MergerSlip.

Lemma message (u caps : string) :
  "Node %(node)s has invalid capabilities string %(capabilities), unable to modify the node properties['capabilities'] string"
  %% Fmt.Mapping [("node", text u); ("capabilities", text caps)]
  = Raise format_slip.
Proof. reflexivity. Qed.

Lemma of_pairs_bad pairs i acc :
  Exists (λ p, length p ≠ 2) pairs →
  ∃ msg, Dict.of_pairs i pairs acc = Raise (ValueError msg).
Proof.
  intros Hex. revert i acc.
  induction Hex as [p pairs Hp|p pairs Hex IH]; intros i acc.
  - destruct p as [|k [|v [|x p]]]; cbn; eauto. done.
  - destruct p as [|k [|v [|x p]]]; cbn; eauto.
Qed.

(** A malformed capabilities string makes the merger raise the
    [ValueError] of the format of its own message. *)
Lemma malformed_raises (node : node) (caps : string) (new : pyval) :
  properties node !! "capabilities" = Some (AStr caps) →
  malformed caps →
  _update_capabilities node new = Raise format_slip.
Proof.
  intros Hcaps [Hne (t & Ht & Hcolon)]. unfold _update_capabilities.
  rewrite Hcaps. cbn [Py.truthy_opt Py.truthy_atom].
  rewrite Merger.eqb_empty_false by done. cbn [negb].
  destruct (of_pairs_bad (Py.split1 ":" <$> Py.split "," caps) 0 ∅) as [msg ->].
  { apply Exists_fmap, Exists_exists. exists t. split; [done|].
    apply SplitFacts.partition_none in Hcolon.
    unfold compose, Py.split1. by rewrite Hcolon. }
  by rewrite message.
Qed.

(** The merger never raises [InvalidParameterValue]. *)
Lemma never_invalid_parameter (node : node) (new : pyval) (msg : string) :
  _update_capabilities node new ≠ Raise (InvalidParameterValue msg).
Proof.
  unfold _update_capabilities.
  destruct (properties node !! "capabilities") as [[| | |caps]|];
    cbn [Py.truthy_opt Py.truthy_atom].
  1-3,5: repeat case_match; cbn [rbind]; rewrite ?Merger.items; cbn [rbind];
    done.
  destruct (negb (String.eqb caps "")).
  - destruct (Dict.of_pairs 0 _ ∅) as [m|e] eqn:Hp.
    + cbn [rbind]. destruct new; cbn [rbind]; rewrite ?Merger.items; done.
    + destruct (Merger.of_pairs_only_value_error _ _ _ _ Hp) as [m ->].
      by rewrite message.
  - cbn [rbind]. destruct new; cbn [rbind]; rewrite ?Merger.items; done.
Qed.

End MergerSlip.

(** C7.  The capabilities string that the module's own comment gives as
    malformed makes the merger raise [ValueError], not the
    [InvalidParameterValue] its docstring promises: the format of the
    message has [%(capabilities)] without a conversion. *)
Theorem malformed_capabilities_raise_value_error :
  let node := Sample.node0 (Some "boot_mode:bios,boot_option") "all" in
  malformed "boot_mode:bios,boot_option"
  ∧ _update_capabilities node (PDict ∅) = Raise format_slip
  ∧ ¬ InvalidConfiguration format_slip.
Proof.
  intros node.
  assert (Hm : malformed "boot_mode:bios,boot_option").
  { split; [done|]. exists "boot_option". split; [|done].
    change (Py.split "," "boot_mode:bios,boot_option")
      with ["boot_mode:bios"; "boot_option"]. by right; left. }
  split_and!; [exact Hm | | by intros []].
  by apply (MergerSlip.malformed_raises node "boot_mode:bios,boot_option").
Qed.

(** ** The inspection workflow *)

Module Workflow.

Lemma bind_assoc {A B C} (m : M A) (f : A → M B) (g : B → M C) (w : world) :
  bind (bind m f) g w = bind m (λ x, bind (f x) g) w.
Proof. unfold bind. by destruct (m w) as [[a|e] w']. Qed.

Lemma bind_ext {A B} (m : M A) (k k' : A → M B) (w : world) :
  (∀ a w', k a w' = k' a w') → bind m k w = bind m k' w.
Proof. intros H. unfold bind. destruct (m w) as [[a|e] w']; [apply H|done]. Qed.

Lemma bind_ret {A B} (a : A) (k : A → M B) (w : world) :
  bind (ret a) k w = k a w.
Proof. reflexivity. Qed.

(** [inspect_hardware] is the sequence of its steps. *)
Lemma in_steps (E : env) (w : world) :
  inspect_hardware E w = inspect_in_steps E w.
Proof.
  unfold inspect_hardware, inspect_in_steps, essential_step.
  repeat (rewrite bind_assoc; apply bind_ext; intros ? ?).
  rewrite bind_ret. unfold capabilities_step.
  repeat (rewrite bind_assoc; apply bind_ext; intros ? ?).
  do 3 (apply bind_ext; intros ? ?).
  unfold registration_step.
  repeat (rewrite bind_assoc; apply bind_ext; intros ? ?).
  reflexivity.
Qed.

(** *** Rules for [wp] *)

Section Rules.

Context {A : Type} (Q : result A → world → Prop) (w : world).

Lemma wp_bind {B} (m : M B) (k : B → M A) :
  wp m (λ r w', match r with
                | Ok b => wp (k b) Q w'
                | Raise e => Q (Raise e) w'
                end) w →
  wp (bind m k) Q w.
Proof. unfold wp, bind. destruct (m w) as [[b|e] w']; cbn; done. Qed.

Lemma wp_ret (a : A) : Q (Ok a) w → wp (ret a) Q w.
Proof. done. Qed.

Lemma wp_raise (e : exn) : Q (Raise e) w → wp (raise e) Q w.
Proof. done. Qed.

Lemma wp_lift (r : result A) : Q r w → wp (lift r) Q w.
Proof. done. Qed.

Lemma wp_call (c : call) (r : result A) :
  Q r (with_call w c) → wp (call_collaborator c r) Q w.
Proof. done. Qed.

Lemma wp_try (m : M A) (handler : exn → option (M A)) :
  wp m (λ r w', match r with
                | Ok a => Q (Ok a) w'
                | Raise e => match handler e with
                             | Some h => wp h Q w'
                             | None => Q (Raise e) w'
                             end
                end) w →
  wp (try_except m handler) Q w.
Proof.
  unfold wp, try_except. destruct (m w) as [[a|e] w']; cbn; [done|].
  destruct (handler e); cbn; done.
Qed.


End Rules.

Section UnitRules.

Context (Q : result unit → world → Prop) (w : world).

Lemma wp_put_node (n : node) : Q (Ok tt) (with_node w n) → wp (put_node n) Q w.
Proof. done. Qed.

Lemma wp_LOG (l : level) (fmt : string) (a : Fmt.args) :
  Q (Ok tt) (with_log w (LogRecord l fmt a)) → wp (LOG l fmt a) Q w.
Proof. done. Qed.

Lemma wp_save :
  Q (Ok tt) (with_saved (with_call w CallSave) (task_node w)) → wp save Q w.
Proof. done. Qed.

End UnitRules.

Lemma wp_get_node (Q : result node → world → Prop) (w : world) :
  Q (Ok (task_node w)) w → wp get_node Q w.
Proof. done. Qed.

Ltac wp_step :=
  lazymatch goal with
  | |- wp (bind _ _) _ _ => apply wp_bind
  | |- wp (ret _) _ _ => apply wp_ret
  | |- wp (raise _) _ _ => apply wp_raise
  | |- wp (lift _) _ _ => apply wp_lift
  | |- wp get_node _ _ => apply wp_get_node
  | |- wp (put_node _) _ _ => apply wp_put_node
  | |- wp (LOG _ _ _) _ _ => apply wp_LOG
  | |- wp save _ _ => apply wp_save
  | |- wp (call_collaborator _ _) _ _ => apply wp_call
  | |- wp (try_except _ _) _ _ => apply wp_try
  | |- wp (_get_essential_properties _ _) _ _ => unfold _get_essential_properties
  | |- wp (_get_capabilities _ _) _ _ => unfold _get_capabilities
  | |- wp (if ?b then _ else _) _ _ => destruct b eqn:?
  | |- match ?r with Ok _ => _ | Raise _ => _ end => destruct r eqn:?
  | |- match match ?e with HardwareInspectionFailure _ => _ | _ => _ end with
       | Some _ => _ | None => _ end => destruct e
  end; cbn beta iota.

Ltac world_simpl :=
  cbn [saved ports calls task_node with_node with_call with_log with_saved
       with_row] in *.

(** The first step saves nothing, registers nothing and neither saves nor
    asks for capabilities; when it ends normally the result passed the
    validator and its essential properties are merged into the node. *)
Lemma essential_step_spec (E : env) (w : world) :
  wp (essential_step E)
     (λ r w',
        saved w' = saved w
        ∧ ports w' = ports w
        ∧ (∃ cs, calls w' = calls w ++ cs ∧ quiet cs = true)
        ∧ ∀ power_turned_on result inspected node_properties,
            r = Ok (power_turned_on, result, inspected, node_properties) →
            get_essential_properties E = Ok result
            ∧ _validate (task_node w) result = Ok tt
            ∧ (∃ properties_, result !! "properties" = Some properties_
                              ∧ copy_essentials properties_ = Ok inspected)
            ∧ node_properties = inspected ∪ properties (task_node w)
            ∧ task_node w' = set_properties (task_node w) node_properties) w.
Proof.
  unfold essential_step. fold copy_essentials.
  repeat wp_step; world_simpl.
  all: split; [reflexivity|].
  all: split; [reflexivity|].
  all: split; [eexists; split; [rewrite <- ?app_assoc; reflexivity|reflexivity]|].
  all: intros ? ? ? ? [= <- <- <- <-].
  all: match goal with
       | H : Dict.getitem ?d ?k = Ok ?v |- _ =>
           unfold Dict.getitem in H; destruct (d !! k) eqn:Hprop; [|discriminate H];
           injection H as ->
       end.
  all: split; [reflexivity|].
  all: split; [match goal with H : _validate _ _ = Ok ?u |- _ => by destruct u end|].
  all: split; [eexists; split; [reflexivity|assumption]|].
  all: split; reflexivity.
Qed.


(** A controller error in the capability query is swallowed: the step ends
    normally, the node is untouched, a debug record is logged. *)
Lemma capability_error_is_swallowed (E : env)
    (node_properties : gmap string atom) (w : world) (msg : string) :
  get_server_capabilities E = Raise (IloError msg) →
  capabilities_step E node_properties w
  = (Ok tt,
     with_log (with_call w CallGetServerCapabilities)
       (LogRecord DEBUG "Node %s did not return any additional capabilities."
          (Fmt.One (text (uuid (task_node w)))))).
Proof.
  intros H. unfold capabilities_step, _get_capabilities, call_collaborator,
    try_except, bind, get_node, record_call, lift, LOG, ret.
  cbn beta iota. by rewrite H.
Qed.











(** What passing the validator says about the result. *)
Lemma validate_ok (node : node) (data : gmap string pyval) :
  _validate node data = Ok tt →
  ∃ props macs,
    data !! "properties" = Some (PDict props)
    ∧ ESSENTIAL_PROPERTIES_KEYS ⊆ dom props
    ∧ data !! "macs" = Some (PDict macs)
    ∧ macs ≠ ∅.
Proof.
  unfold _validate.
  destruct (data !! "properties") as [[a|l|props]|]; cbn [Py.truthy_opt].
  1,2,4: repeat case_match;
    rewrite ?Messages.properties_not_dict, ?Messages.no_properties; done.
  destruct (Py.truthy (PDict props)); [|by rewrite Messages.no_properties].
  case_bool_decide as Hmiss; [by rewrite Messages.missing_keys|]. cbn [rbind].
  destruct (data !! "macs") as [[a|l|macs]|]; cbn [Py.truthy_opt].
  1,2,4: repeat case_match;
    rewrite ?Messages.macs_not_dict, ?Messages.no_macs; done.
  destruct (Py.truthy (PDict macs)) eqn:Ht; [|by rewrite Messages.no_macs].
  intros _. exists props, macs. split_and!;
    [done| |done|exact (proj1 (truthy_dict macs) Ht)].
  apply SetFacts.difference_empty.
  destruct (decide (ESSENTIAL_PROPERTIES_KEYS ∖ dom props = ∅)); [done|].
  by destruct Hmiss.
Qed.


Lemma capabilities_not_essential : "capabilities" ∉ ESSENTIAL_PROPERTIES_KEYS.
Proof.
  unfold ESSENTIAL_PROPERTIES_KEYS.
  rewrite !elem_of_union, !elem_of_singleton. by intros [[[|]|]|].
Qed.



End Workflow.




Module ZeroMacs.

(** An inspection without MACs fails in the first step, before anything is
    saved or registered. *)
Lemma fails (E : env) (w : world) (data : gmap string pyval) :
  get_essential_properties E = Ok data →
  Py.truthy_opt Py.truthy (data !! "macs") = false →
  ∃ e, (inspect_hardware E w).1 = Raise e
       ∧ saved (inspect_hardware E w).2 = saved w
       ∧ ports (inspect_hardware E w).2 = ports w.
Proof.
  intros Hdata Hmacs. rewrite Workflow.in_steps.
  unfold inspect_in_steps, bind.
  pose proof (Workflow.essential_step_spec E w) as (Hs & Hp & _ & Hv).
  destruct (essential_step E w) as [[x|e] w1]; cbn [fst snd] in *.
  - destruct x as [[[power_turned_on result] inspected] node_properties].
    destruct (Hv _ _ _ _ eq_refl) as (Hget & Hval & _).
    rewrite Hdata in Hget. injection Hget as <-.
    destruct (validate_falsy_macs_always_fails (task_node w) data Hmacs) as [err Herr].
    rewrite Herr in Hval. discriminate Hval.
  - exists e. split; [reflexivity|]. split; assumption.
Qed.

End ZeroMacs.

(** C10.  An empty mapping is treated as an absent key.  With an empty
    ['properties'] the validator raises the error that says the key was
    not returned.  With an empty ['macs'] it always fails, just as without
    the key: the error says that ['macs'] was not returned when the
    properties pass their checks, which come first.  An inspection that
    finds no MAC therefore always fails, whatever the port selection, and
    saves and registers nothing. *)
Theorem empty_mapping_is_absent_key :
  (∀ node data,
     data !! "properties" = Some (PDict ∅) →
     _validate node data = Raise (no_properties_error node)
     ∧ _validate node data = _validate node (delete "properties" data))
  ∧ (∀ node data,
       data !! "macs" = Some (PDict ∅) →
       _validate node data = _validate node (delete "macs" data)
       ∧ (∃ error, _validate node data
                   = Raise (HardwareInspectionFailure (ErrText error)))
       ∧ (properties_pass data →
          _validate node data = Raise (no_macs_error node)))
  ∧ (∀ E w data,
       get_essential_properties E = Ok data →
       data !! "macs" = Some (PDict ∅) →
       ∃ e, (inspect_hardware E w).1 = Raise e
            ∧ saved (inspect_hardware E w).2 = saved w
            ∧ ports (inspect_hardware E w).2 = ports w).
Proof.
  split; [|split].
  - intros node data Hp. split.
    + apply validate_no_properties. rewrite Hp. reflexivity.
    + apply validate_empty_as_absent; [left; reflexivity|exact Hp].
  - intros node data Hm. split; [|split].
    + apply validate_empty_as_absent; [right; reflexivity|exact Hm].
    + apply validate_falsy_macs_always_fails. rewrite Hm. reflexivity.
    + intros Hpass. apply validate_no_macs; [exact Hpass|].
      rewrite Hm. reflexivity.
  - intros E w data Hdata Hm. apply (ZeroMacs.fails E w data Hdata).
    rewrite Hm. reflexivity.
Qed.

Lemma empty_mapping_is_absent_key_witness :
  let E := Sample.controller POWER_ON (Raise (IloError "not supported")) in
  let node := Sample.node0 None "none" in
  let data : gmap string pyval :=
    {[ "properties" := PDict Sample.essentials; "macs" := PDict ∅ ]} in
  data !! "macs" = Some (PDict ∅)
  ∧ _validate node data = _validate node (delete "macs" data)
  ∧ _validate node {[ "properties" := PDict ∅; "macs" := PDict Sample.macs ]}
    = Raise (no_properties_error node).
Proof.
  intros E node data.
  destruct empty_mapping_is_absent_key as (Hprops & Hmacs & _).
  assert (Hm : data !! "macs" = Some (PDict ∅)) by reflexivity.
  split; [exact Hm|]. split.
  - exact (proj1 (Hmacs node data Hm)).
  - apply Hprops. reflexivity.
Defined.

(** C10, as first stated, fails when ['macs'] is empty and the properties
    are not a mapping: the validator fails, but with the error about the
    format of the properties, which is checked first. *)
Lemma empty_macs_with_bad_properties :
  let node := Sample.node0 None "all" in
  let data : gmap string pyval :=
    {[ "properties" := PList [AInt 1]; "macs" := PDict ∅ ]} in
  data !! "macs" = Some (PDict ∅)
  ∧ _validate node data
    = Raise (HardwareInspectionFailure
               (ErrText "Essential properties are expected to be in dictionary format, received [1] from node node-1."))
  ∧ _validate node data ≠ Raise (no_macs_error node)
  ∧ _validate node data ≠ Raise (no_properties_error node).
Proof.
  intros node data.
  assert (Hrun : _validate node data
                 = Raise (HardwareInspectionFailure
                            (ErrText "Essential properties are expected to be in dictionary format, received [1] from node node-1.")))
    by (vm_compute; reflexivity).
  split; [reflexivity|]. split; [exact Hrun|].
  rewrite Hrun. split; intros H; vm_compute in H; discriminate H.
Qed.

(** C4.  A capabilities result that is no mapping is not fatal for the
    workflow: a list of unknown names passes the filter, which returns an
    empty dictionary, so the check for a dictionary in
    [_update_capabilities] never sees the list; the workflow saves the node
    and ends in MANAGEABLE.  A text fares the same. *)
Theorem non_mapping_capabilities_are_not_fatal :
  let w := Sample.start (Sample.node0 (Some "boot_mode:bios") "none") in
  let listed := Sample.controller POWER_ON (Ok (PList [AStr "foo"])) in
  let worded := Sample.controller POWER_ON (Ok (PAtom (AStr "garbage"))) in
  _update_capabilities (task_node w) (PList [AStr "foo"])
  = Raise (HardwareInspectionFailure
             (ErrText "The expected format of capabilities from inspection is dictionary while node node-1 returned ['foo']."))
  ∧ (inspect_hardware listed w).1 = Ok MANAGEABLE
  ∧ length (saved (inspect_hardware listed w).2) = 1
  ∧ (inspect_hardware worded w).1 = Ok MANAGEABLE.
Proof. vm_compute. repeat split. Qed.

(** The two end-to-end runs of the spec.  A node that is powered off, the
    selection "2": the node is powered on, one port is created for the MAC
    of port 2, the node is powered off again, the state is MANAGEABLE. *)
Example inspection_of_a_powered_off_node :
  let E := Sample.controller POWER_OFF (Raise (IloError "not supported")) in
  let w := Sample.start (Sample.node0 (Some "boot_mode:bios") "2") in
  (inspect_hardware E w).1 = Ok MANAGEABLE
  ∧ calls (inspect_hardware E w).2
    = [CallGetIloObject; CallGetPowerState; CallPowerAction POWER_ON;
       CallGetEssentialProperties; CallGetServerCapabilities; CallSave;
       CallCreatePort (PortDict (AStr "bb:bb:bb:bb:bb:bb") 7);
       CallPowerAction POWER_OFF]
  ∧ (λ n, properties n !! "capabilities") <$> saved (inspect_hardware E w).2
    = [Some (AStr "boot_mode:bios")]
  ∧ (λ n, properties n !! "memory_mb") <$> saved (inspect_hardware E w).2
    = [Some (AInt 32768)].
Proof. vm_compute. repeat split. Qed.

(** The selection "none": no port is created. *)
Example inspection_without_ports :
  let E := Sample.controller POWER_ON (Ok (PDict {[ "BootMode" := AStr "uefi" ]})) in
  let w := Sample.start (Sample.node0 None "none") in
  (inspect_hardware E w).1 = Ok MANAGEABLE
  ∧ ports (inspect_hardware E w).2 = []
  ∧ (λ n, properties n !! "capabilities") <$> saved (inspect_hardware E w).2
    = [Some (AStr "BootMode:uefi")].
Proof. vm_compute. repeat split. Qed.
(** ** More about the validator of the inspection result *)

Module Checked.

(** A result with complete properties and some MACs passes. *)
Lemma complete_passes (node : node) (data : gmap string pyval)
    (props macs : gmap string atom) :
  data !! "properties" = Some (PDict props) →
  ESSENTIAL_PROPERTIES_KEYS ⊆ dom props →
  data !! "macs" = Some (PDict macs) →
  macs ≠ ∅ →
  _validate node data = Ok tt.
Proof.
  intros Hp Hsub Hm Hne.
  assert (Hprops : props ≠ ∅).
  { intros ->. rewrite dom_empty_L in Hsub.
    by apply essential_keys_nonempty, SetFacts.subseteq_empty. }
  unfold _validate. rewrite Hp, Hm. cbn [Py.truthy_opt].
  rewrite (proj2 (truthy_dict props) Hprops), (proj2 (truthy_dict macs) Hne).
  rewrite bool_decide_eq_false_2; [reflexivity|].
  intros Hmiss. apply Hmiss. by apply SetFacts.difference_empty.
Qed.

(** The validator ends normally or with its own failure. *)
Lemma outcomes (node : node) (data : gmap string pyval) :
  _validate node data = Ok tt
  ∨ ∃ error, _validate node data = Raise (HardwareInspectionFailure (ErrText error)).
Proof.
  destruct (Py.truthy_opt Py.truthy (data !! "macs")) eqn:Hm.
  2:{ right. by apply validate_falsy_macs_always_fails. }
  unfold _validate. rewrite Hm.
  destruct (data !! "properties") as [[a|l|props]|]; cbn [Py.truthy_opt].
  - destruct (Py.truthy (PAtom a)).
    + rewrite Messages.properties_not_dict. eauto.
    + rewrite Messages.no_properties. eauto.
  - destruct (Py.truthy (PList l)).
    + rewrite Messages.properties_not_dict. eauto.
    + rewrite Messages.no_properties. eauto.
  - destruct (Py.truthy (PDict props)).
    + case_bool_decide.
      * rewrite Messages.missing_keys. eauto.
      * cbn [rbind]. destruct (data !! "macs") as [[a|l|macs]|]; cbv iota.
        -- rewrite Messages.macs_not_dict. eauto.
        -- rewrite Messages.macs_not_dict. eauto.
        -- by left.
        -- discriminate Hm.
    + rewrite Messages.no_properties. eauto.
  - rewrite Messages.no_properties. eauto.
Qed.

End Checked.

(** X1.  The validator passes exactly the results in which 'properties' is
    a mapping that has the four essential keys and 'macs' is a mapping
    that is not empty; it looks at no value of the properties and at no
    other key. *)
Theorem validate_passes_exactly_complete_results
    (node : node) (data : gmap string pyval) :
  _validate node data = Ok tt
  ↔ ∃ props macs,
      data !! "properties" = Some (PDict props)
      ∧ ESSENTIAL_PROPERTIES_KEYS ⊆ dom props
      ∧ data !! "macs" = Some (PDict macs)
      ∧ macs ≠ ∅.
Proof.
  split; [apply Workflow.validate_ok|].
  intros (props & macs & Hp & Hsub & Hm & Hne).
  by apply (Checked.complete_passes node data props macs).
Qed.

Lemma validate_passes_exactly_complete_results_witness :
  _validate (Sample.node0 None "all")
    {[ "properties" := PDict (<["vendor" := ANone]> Sample.essentials);
       "macs" := PDict {[ "Port 1" := ANone ]} ]}
  = Ok tt.
Proof.
  apply validate_passes_exactly_complete_results.
  exists (<["vendor" := ANone]> Sample.essentials), {[ "Port 1" := ANone ]}.
  split; [reflexivity|]. split; [|split; [reflexivity|]].
  - intros k. unfold ESSENTIAL_PROPERTIES_KEYS, Sample.essentials.
    rewrite !elem_of_union, !elem_of_singleton, elem_of_dom.
    intros [[[->| ->]| ->]| ->]; vm_compute; eauto.
  - intros H. apply (f_equal (λ m, m !! "Port 1")) in H. discriminate H.
Defined.

(** X2.  Whatever the result holds, the validator ends normally or raises
    HardwareInspectionFailure with a text: a missing key, a value that is
    no mapping or an empty mapping never surfaces as a KeyError or a
    TypeError. *)
Theorem validate_raises_only_inspection_failure
    (node : node) (data : gmap string pyval) :
  _validate node data = Ok tt
  ∨ ∃ error, _validate node data = Raise (HardwareInspectionFailure (ErrText error)).
Proof. apply Checked.outcomes. Qed.

(** X3.  [_get_essential_properties] asks the controller once and touches
    nothing else.  An IloError of the controller comes out as
    HardwareInspectionFailure that carries it, so no IloError leaves the
    function; and a result that is returned is the controller's own, with
    the four essential keys in its properties and a mapping of MACs that is
    not empty. *)
Theorem essential_properties_are_fetched_and_checked
    (E : env) (node : node) (w : world) :
  (_get_essential_properties E node w).2 = with_call w CallGetEssentialProperties
  ∧ (∀ msg, get_essential_properties E = Raise (IloError msg) →
            (_get_essential_properties E node w).1
            = Raise (HardwareInspectionFailure (ErrExn (IloError msg))))
  ∧ (∀ msg, (_get_essential_properties E node w).1 ≠ Raise (IloError msg))
  ∧ (∀ result, (_get_essential_properties E node w).1 = Ok result →
       get_essential_properties E = Ok result
       ∧ ∃ props macs,
           result !! "properties" = Some (PDict props)
           ∧ ESSENTIAL_PROPERTIES_KEYS ⊆ dom props
           ∧ result !! "macs" = Some (PDict macs)
           ∧ macs ≠ ∅).
Proof.
  unfold _get_essential_properties, try_except, call_collaborator, bind,
    record_call, lift, raise, ret. cbn beta iota.
  destruct (get_essential_properties E) as [result|e] eqn:Hget.
  - destruct (Checked.outcomes node result)
      as [Hv|[error Hv]]; rewrite Hv; cbn [fst snd].
    + split_and!; [reflexivity|discriminate|discriminate|].
      intros r [= <-]. split; [reflexivity|].
      by apply Workflow.validate_ok with node.
    + split_and!; [reflexivity|discriminate|discriminate|discriminate].
  - destruct e; cbn [fst snd];
      (split_and!; [reflexivity| |discriminate|discriminate]);
      first [discriminate | by intros ? [= <-]].
Qed.

Lemma essential_properties_are_fetched_and_checked_witness :
  let node := Sample.node0 None "all" in
  let w := Sample.start node in
  let sound := Sample.controller POWER_ON (Raise (IloError "not supported")) in
  let failing :=
    {| parse_driver_info := λ n, Ok (driver_info n);
       str_node := uuid;
       get_ilo_object := λ _, Ok tt;
       get_power_state := Ok POWER_ON;
       node_power_action := λ _, Ok tt;
       get_essential_properties := Raise (IloError "connection refused");
       get_server_capabilities := Ok (PAtom ANone);
       create_port := Sample.unique_store |} in
  (_get_essential_properties failing node w).1
  = Raise (HardwareInspectionFailure (ErrExn (IloError "connection refused")))
  ∧ get_essential_properties sound = Ok Sample.inspection
  ∧ ∃ props macs,
      Sample.inspection !! "properties" = Some (PDict props)
      ∧ ESSENTIAL_PROPERTIES_KEYS ⊆ dom props
      ∧ Sample.inspection !! "macs" = Some (PDict macs)
      ∧ macs ≠ ∅.
Proof.
  intros node w sound failing.
  destruct (essential_properties_are_fetched_and_checked failing node w)
    as (_ & Hfail & _).
  destruct (essential_properties_are_fetched_and_checked sound node w)
    as (_ & _ & _ & Hok).
  split; [apply (Hfail "connection refused"); reflexivity|].
  apply (Hok Sample.inspection). vm_compute. reflexivity.
Defined.
(** ** More about the filter of the capabilities *)

Module Filter.

(** The loop of [_create_supported_capabilities_dict] over the keys [l]
    of a dictionary. *)
Lemma loop_of_mapping (d : gmap string atom) (l : list string) :
  ∃ valid : gmap string atom,
    foldr (λ key acc,
             (valid_cap <- acc ;;
              value <- Dict.get (PDict d) key ;;
              Ok (<[key := value]> valid_cap))%res)
          (Ok ∅) l = Ok valid
    ∧ ∀ k, valid !! k
           = if bool_decide (k ∈ l) then Some (default ANone (d !! k)) else None.
Proof.
  induction l as [|x l (valid & Hl & IH)].
  - exists ∅. split; [reflexivity|]. intros k.
    rewrite lookup_empty, bool_decide_eq_false_2; [reflexivity|apply not_elem_of_nil].
  - exists (<[x := default ANone (d !! x)]> valid).
    split; [cbn [foldr]; by rewrite Hl|].
    intros k. destruct (decide (k = x)) as [->|Hne].
    + rewrite lookup_insert_eq, bool_decide_eq_true_2; [reflexivity|by left].
    + rewrite lookup_insert_ne, IH by done.
      destruct (decide (k ∈ l)) as [Hin|Hin].
      * rewrite !bool_decide_eq_true_2; [reflexivity|by right|done].
      * rewrite !bool_decide_eq_false_2; [reflexivity| |done].
        by intros [?|?]%elem_of_cons.
Qed.

Lemma of_mapping (d : gmap string atom) :
  ∃ valid,
    _create_supported_capabilities_dict (PDict d) = Ok valid
    ∧ ∀ k, valid !! k
           = if bool_decide (k ∈ CAPABILITIES_KEYS) then d !! k else None.
Proof.
  unfold _create_supported_capabilities_dict. cbn [Dict.iter rbind].
  destruct (loop_of_mapping d (elements (CAPABILITIES_KEYS ∩ dom d)))
    as (valid & -> & Hvalid).
  exists valid. split; [reflexivity|]. intros k. rewrite Hvalid.
  destruct (decide (k ∈ CAPABILITIES_KEYS)) as [Hk|Hk].
  - rewrite (bool_decide_eq_true_2 (k ∈ CAPABILITIES_KEYS)) by done.
    destruct (d !! k) as [v|] eqn:Hd.
    + rewrite bool_decide_eq_true_2; [reflexivity|].
      apply elem_of_elements, elem_of_intersection. split; [done|].
      apply elem_of_dom. by exists v.
    + rewrite bool_decide_eq_false_2; [reflexivity|].
      intros [_ Hin%elem_of_dom]%elem_of_elements%elem_of_intersection.
      rewrite Hd in Hin. by destruct Hin.
  - rewrite (bool_decide_eq_false_2 (k ∈ CAPABILITIES_KEYS)) by done.
    rewrite bool_decide_eq_false_2; [reflexivity|].
    intros [Hc _]%elem_of_elements%elem_of_intersection. exact (Hk Hc).
Qed.

(** Iterating over a text yields its characters. *)
Lemma chars_length (s k : string) : k ∈ Dict.chars s → String.length k = 1.
Proof.
  induction s as [|c s IH]; cbn [Dict.chars].
  - by intros ?%not_elem_of_empty.
  - intros [->%elem_of_singleton|?]%elem_of_union; [reflexivity|by apply IH].
Qed.

(** No capability name is a single character. *)
Lemma key_length (k : string) : k ∈ CAPABILITIES_KEYS → String.length k ≠ 1.
Proof.
  unfold CAPABILITIES_KEYS. rewrite !elem_of_union, !elem_of_singleton.
  intros H. repeat (destruct H as [H| ->]; [|discriminate]). by subst k.
Qed.

Lemma of_text (s : string) :
  _create_supported_capabilities_dict (PAtom (AStr s)) = Ok ∅.
Proof.
  unfold _create_supported_capabilities_dict. cbn [Dict.iter rbind].
  replace (CAPABILITIES_KEYS ∩ Dict.chars s) with (∅ : gset string).
  - by rewrite elements_empty.
  - symmetry. apply (elem_of_equiv_empty_L (C := gset string)).
    intros k [Hk Hc]%elem_of_intersection.
    by apply (key_length k Hk), (chars_length s).
Qed.

Lemma named_in_list (l : list atom) (k : string) :
  k ∈ Dict.atom_strings l ↔ AStr k ∈ l.
Proof.
  unfold Dict.atom_strings. rewrite elem_of_list_to_set, list_elem_of_omap.
  split.
  - intros (a & Ha & Hk). destruct a; try discriminate. by injection Hk as ->.
  - intros H. by exists (AStr k).
Qed.

(** A list has no [get]: the loop fails at its first turn. *)
Lemma loop_of_list (l : list atom) (keys : list string) :
  keys ≠ [] →
  foldr (λ key acc,
           (valid_cap <- acc ;;
            value <- Dict.get (PList l) key ;;
            Ok (<[key := value]> valid_cap))%res)
        (Ok (∅ : gmap string atom)) keys
  = Raise (AttributeError "'list' object has no attribute 'get'").
Proof.
  induction keys as [|x keys IH]; [done|]. intros _. cbn [foldr].
  destruct keys as [|y keys]; [reflexivity|]. by rewrite IH.
Qed.

Lemma of_list_unnamed (l : list atom) :
  (∀ k, k ∈ CAPABILITIES_KEYS → AStr k ∉ l) →
  _create_supported_capabilities_dict (PList l) = Ok ∅.
Proof.
  intros Hno. unfold _create_supported_capabilities_dict. cbn [Dict.iter rbind].
  replace (CAPABILITIES_KEYS ∩ Dict.atom_strings l) with (∅ : gset string).
  - by rewrite elements_empty.
  - symmetry. apply (elem_of_equiv_empty_L (C := gset string)).
    intros k [Hk Hl%named_in_list]%elem_of_intersection. exact (Hno k Hk Hl).
Qed.

Lemma of_list_named (l : list atom) (k : string) :
  k ∈ CAPABILITIES_KEYS →
  AStr k ∈ l →
  _create_supported_capabilities_dict (PList l)
  = Raise (AttributeError "'list' object has no attribute 'get'").
Proof.
  intros Hk Hl. unfold _create_supported_capabilities_dict.
  cbn [Dict.iter rbind]. apply loop_of_list.
  intros Hnil. apply elements_empty_inv, leibniz_equiv in Hnil.
  apply (not_elem_of_empty (C := gset string) k). rewrite <- Hnil.
  apply elem_of_intersection. split; [done|]. by apply named_in_list.
Qed.

End Filter.

(** X4.  For a mapping the filter returns exactly the entries whose key is
    one of the nine supported capability names, each with the value the
    controller gave; other entries are dropped. *)
Theorem filter_keeps_exactly_the_supported_capabilities (d : gmap string atom) :
  ∃ valid,
    _create_supported_capabilities_dict (PDict d) = Ok valid
    ∧ ∀ k, valid !! k
           = if bool_decide (k ∈ CAPABILITIES_KEYS) then d !! k else None.
Proof. apply Filter.of_mapping. Qed.

(** X5.  The filter is idempotent on mappings: what it returns passes it
    unchanged. *)
Theorem filter_of_filtered_is_the_same (d : gmap string atom) :
  ∃ valid,
    _create_supported_capabilities_dict (PDict d) = Ok valid
    ∧ _create_supported_capabilities_dict (PDict valid) = Ok valid.
Proof.
  destruct (Filter.of_mapping d) as (valid & Hd & Hvalid).
  destruct (Filter.of_mapping valid) as (again & Hv & Hagain).
  exists valid. split; [exact Hd|]. rewrite Hv. f_equal.
  apply map_eq. intros k. rewrite Hagain, Hvalid.
  by destruct (bool_decide (k ∈ CAPABILITIES_KEYS)).
Qed.

(** X6.  A result that is no mapping: every text passes the filter as the
    empty dictionary, since iterating over a text yields single characters
    and no capability name is one; a list passes as the empty dictionary
    when it names no capability, and raises AttributeError when it names
    one, since a list has no [get]. *)
Theorem filter_of_what_is_no_mapping (s : string) (l : list atom) :
  _create_supported_capabilities_dict (PAtom (AStr s)) = Ok ∅
  ∧ ((∀ k, k ∈ CAPABILITIES_KEYS → AStr k ∉ l) →
     _create_supported_capabilities_dict (PList l) = Ok ∅)
  ∧ (∀ k, k ∈ CAPABILITIES_KEYS → AStr k ∈ l →
          _create_supported_capabilities_dict (PList l)
          = Raise (AttributeError "'list' object has no attribute 'get'")).
Proof.
  split; [apply Filter.of_text|].
  split; [apply Filter.of_list_unnamed|apply Filter.of_list_named].
Qed.

Lemma filter_of_what_is_no_mapping_witness :
  _create_supported_capabilities_dict (PAtom (AStr "BootMode")) = Ok ∅
  ∧ _create_supported_capabilities_dict (PList [AStr "boot"; AInt 1]) = Ok ∅
  ∧ _create_supported_capabilities_dict (PList [AStr "foo"; AStr "BootMode"])
    = Raise (AttributeError "'list' object has no attribute 'get'").
Proof.
  destruct (filter_of_what_is_no_mapping "BootMode" [AStr "boot"; AInt 1])
    as (Htext & Hnone & _).
  destruct (filter_of_what_is_no_mapping "" [AStr "foo"; AStr "BootMode"])
    as (_ & _ & Hnamed).
  split; [exact Htext|]. split.
  - apply Hnone. intros k Hk Hin.
    apply elem_of_cons in Hin as [[= ->]|Hin].
    + revert Hk. unfold CAPABILITIES_KEYS.
      rewrite !elem_of_union, !elem_of_singleton.
      intros H. repeat (destruct H as [H|H]; [|discriminate H]). discriminate H.
    + apply elem_of_cons in Hin as [Hin|Hin]; [discriminate Hin|].
      by apply elem_of_nil in Hin.
  - apply (Hnamed "BootMode").
    + unfold CAPABILITIES_KEYS. rewrite !elem_of_union, !elem_of_singleton.
      by repeat left.
    + by right; left.
Defined.
(** ** More about the capability merger *)

Module Stored.

Lemma split_app (sep : ascii) (a b : string) :
  Py.split sep (a +:+ String sep b) = Py.split sep a ++ Py.split sep b.
Proof.
  induction a as [|c a IH].
  - rewrite StringFacts.app_nil_l. cbn [Py.split]. by rewrite Ascii.eqb_refl.
  - rewrite StringFacts.app_cons. cbn [Py.split]. rewrite IH.
    destruct (Ascii.eqb c sep); [reflexivity|].
    destruct (Py.split sep a) as [|t ts] eqn:Ha; [|reflexivity].
    by apply SplitFacts.split_nonempty in Ha.
Qed.

Lemma of_pairs_app (l1 l2 : list (list string)) (i : nat) (acc : gmap string atom) :
  Dict.of_pairs i (l1 ++ l2) acc
  = match Dict.of_pairs i l1 acc with
    | Ok m => Dict.of_pairs (i + length l1) l2 m
    | Raise e => Raise e
    end.
Proof.
  revert i acc. induction l1 as [|p l1 IH]; intros i acc.
  - cbn. by rewrite Nat.add_0_r.
  - destruct p as [|k [|v [|x p]]]; cbn; try reflexivity.
    rewrite IH. by rewrite Nat.add_succ_r.
Qed.

Lemma of_pairs_keeps (pairs : list (list string)) (i : nat)
    (acc m : gmap string atom) (k : string) :
  Dict.of_pairs i pairs acc = Ok m → is_Some (acc !! k) → is_Some (m !! k).
Proof.
  revert i acc. induction pairs as [|p pairs IH]; intros i acc.
  - by intros [= <-].
  - destruct p as [|k0 [|v0 [|x p]]]; cbn; try discriminate.
    intros H Hk. apply (IH _ _ H).
    destruct (decide (k = k0)) as [->|Hne].
    + rewrite lookup_insert_eq. by eexists.
    + by rewrite lookup_insert_ne.
Qed.

(** A string that is not empty reads as a map that is not empty. *)
Lemma read_nonempty (caps : string) (existing : gmap string atom) :
  caps ≠ "" → read_capabilities caps = Ok existing → existing ≠ ∅.
Proof.
  intros Hne. unfold read_capabilities. rewrite Merger.eqb_empty_false by done.
  destruct (Py.split "," caps) as [|t ts] eqn:Hs;
    [by apply SplitFacts.split_nonempty in Hs|].
  rewrite fmap_cons. destruct (Py.split1 ":" t) as [|k [|v [|x p]]];
    cbn [Dict.of_pairs]; try discriminate.
  intros H ->.
  destruct (of_pairs_keeps _ _ _ _ k H) as [x Hx].
  - rewrite lookup_insert_eq. by eexists.
  - by rewrite lookup_empty in Hx.
Qed.

Lemma of_pairs_total (pairs : list (list string)) (i : nat) (acc : gmap string atom) :
  Forall (λ p, length p = 2) pairs → ∃ m, Dict.of_pairs i pairs acc = Ok m.
Proof.
  intros Hall. revert i acc.
  induction Hall as [|p pairs Hp _ IH]; intros i acc; [by eexists|].
  destruct p as [|k [|v [|x p]]]; try discriminate. cbn. apply IH.
Qed.

(** A capabilities string reads as a map or has a token without colon. *)
Lemma reads_or_malformed (caps : string) :
  (∃ existing, read_capabilities caps = Ok existing) ∨ malformed caps.
Proof.
  destruct (decide (caps = "")) as [->|Hne]; [left; by exists ∅|].
  destruct (decide (Forall (λ t, Py.contains_char ":" t = true)
                      (Py.split "," caps))) as [Hall|Hex].
  - left. unfold read_capabilities. rewrite Merger.eqb_empty_false by done.
    apply of_pairs_total, Forall_fmap. eapply Forall_impl; [exact Hall|].
    intros t Ht. cbn. unfold Py.split1.
    destruct (Py.partition ":" t) as [[a b]|] eqn:Hp; [reflexivity|].
    apply SplitFacts.partition_none in Hp. cbn beta in Ht. congruence.
  - right. split; [done|].
    apply not_Forall_Exists, Exists_exists in Hex as (t & Ht & Hc); [|apply _].
    exists t. split; [done|]. by apply not_true_is_false.
Qed.

Lemma malformed_unreadable (caps : string) (existing : gmap string atom) :
  malformed caps → read_capabilities caps ≠ Ok existing.
Proof.
  intros [Hne (t & Ht & Hc)]. unfold read_capabilities.
  rewrite Merger.eqb_empty_false by done.
  destruct (MergerSlip.of_pairs_bad (Py.split1 ":" <$> Py.split "," caps) 0 ∅)
    as [msg ->]; [|discriminate].
  apply Exists_fmap, Exists_exists. exists t. split; [done|].
  apply SplitFacts.partition_none in Hc. unfold compose, Py.split1.
  by rewrite Hc.
Qed.

Lemma serialize_empty (m : gmap string atom) : serialize m = "" ↔ m = ∅.
Proof.
  unfold serialize. split.
  - intros H. apply map_to_list_empty_iff.
    destruct (map_to_list m) as [|kv l]; [reflexivity|].
    rewrite fmap_cons in H.
    by apply Merger.join_nonempty in H; [|apply Merger.item_text_nonempty].
  - intros ->. by rewrite map_to_list_empty.
Qed.

(** The merger on a node without a capabilities string. *)
Lemma run_without (node : node) (new : gmap string atom) :
  Py.truthy_opt Py.truthy_atom (properties node !! "capabilities") = false →
  _update_capabilities node (PDict new) = Ok (serialize new).
Proof.
  intros H. unfold _update_capabilities. rewrite H. cbn [rbind].
  rewrite Merger.items. cbn [rbind]. unfold serialize.
  by rewrite (right_id_L ∅ (∪)).
Qed.

Lemma serialization (m : gmap string atom) : serialization_of m (serialize m).
Proof. by exists (map_to_list m). Qed.

Lemma not_a_mapping_message (u : string) (new : pyval) :
  "The expected format of capabilities from inspection is dictionary while node %(node)s returned %(capabilities)s."
  %% Fmt.Mapping [("node", text u); ("capabilities", new)]
  = Ok ("The expected format of capabilities from inspection is dictionary while node "
        +:+ u +:+ " returned " +:+ Py.str new +:+ ".").
Proof. done. Qed.

End Stored.

(** X7.  The merger returns the empty string exactly when there is nothing
    to record: the discovered mapping is empty and the node has no
    capabilities string (none, or an empty one). *)
Theorem merge_is_empty_only_without_capabilities
    (node : node) (new : gmap string atom) :
  _update_capabilities node (PDict new) = Ok ""
  ↔ new = ∅
    ∧ Py.truthy_opt Py.truthy_atom (properties node !! "capabilities") = false.
Proof.
  destruct (Py.truthy_opt Py.truthy_atom (properties node !! "capabilities"))
    eqn:Ht.
  - split; [|by intros [_ ?]]. intros Hrun. exfalso.
    destruct (properties node !! "capabilities") as [a|] eqn:Hcaps; [|done].
    destruct a as [| | |caps].
    1-3: unfold _update_capabilities in Hrun; rewrite Hcaps, Ht in Hrun;
         discriminate Hrun.
    assert (Hne : caps ≠ "") by (by intros ->).
    destruct (Stored.reads_or_malformed caps) as [[existing Hread]|Hbad].
    + rewrite (Merger.run node caps existing new Hcaps Hread) in Hrun.
      injection Hrun as Hrun. apply Stored.serialize_empty in Hrun.
      apply (Stored.read_nonempty caps existing Hne Hread).
      apply map_eq. intros k. rewrite lookup_empty.
      apply (f_equal (λ m, m !! k)) in Hrun. rewrite lookup_empty in Hrun.
      by apply lookup_union_None in Hrun as [_ ?].
    + rewrite (MergerSlip.malformed_raises node caps _ Hcaps Hbad) in Hrun.
      discriminate Hrun.
  - rewrite (Stored.run_without node new Ht). split.
    + intros [= H]. by apply Stored.serialize_empty in H.
    + intros [-> _]. by rewrite (proj2 (Stored.serialize_empty ∅)).
Qed.

Lemma merge_is_empty_only_without_capabilities_witness :
  _update_capabilities (Sample.node0 (Some "") "all") (PDict ∅) = Ok "".
Proof.
  apply (merge_is_empty_only_without_capabilities (Sample.node0 (Some "") "all") ∅).
  split; reflexivity.
Defined.

(** X8.  On a node with a capabilities string the merger fails exactly
    when the string is not empty and one of its comma-separated tokens has
    no colon, and the failure is then the ValueError of the format of its
    message; otherwise it returns a serialization of the stored map updated
    with the discovered mapping: the items of that map, in some order,
    joined by commas. *)
Theorem merge_fails_exactly_on_a_token_without_colon
    (node : node) (caps : string) (new : gmap string atom) :
  properties node !! "capabilities" = Some (AStr caps) →
  (malformed caps ∧ _update_capabilities node (PDict new) = Raise format_slip)
  ∨ (¬ malformed caps
     ∧ ∃ existing out,
         read_capabilities caps = Ok existing
         ∧ _update_capabilities node (PDict new) = Ok out
         ∧ serialization_of (new ∪ existing) out).
Proof.
  intros Hcaps.
  destruct (Stored.reads_or_malformed caps) as [[existing Hread]|Hbad].
  - right. split.
    + intros Hbad. by apply (Stored.malformed_unreadable caps existing).
    + exists existing, (serialize (new ∪ existing)).
      split; [exact Hread|]. split; [by apply (Merger.run node caps)|].
      apply Stored.serialization.
  - left. split; [exact Hbad|]. by apply (MergerSlip.malformed_raises node caps).
Qed.

Lemma merge_fails_exactly_on_a_token_without_colon_witness :
  let node := Sample.node0 (Some "a:1,b") "all" in
  (malformed "a:1,b" ∧ _update_capabilities node (PDict ∅) = Raise format_slip)
  ∨ (¬ malformed "a:1,b"
     ∧ ∃ existing out,
         read_capabilities "a:1,b" = Ok existing
         ∧ _update_capabilities node (PDict ∅) = Ok out
         ∧ serialization_of (∅ ∪ existing) out).
Proof.
  intros node.
  apply (merge_fails_exactly_on_a_token_without_colon node "a:1,b" ∅).
  reflexivity.
Defined.

(** X9.  Discovered capabilities that are no mapping make the merger
    raise: HardwareInspectionFailure that names the node and what was
    received when the node has no capabilities string or one that reads as
    a map; the error of the stored string comes first otherwise. *)
Theorem merge_rejects_what_is_no_mapping (node : node) (new : pyval) :
  (∀ d, new ≠ PDict d) →
  (∃ e, _update_capabilities node new = Raise e)
  ∧ ((properties node !! "capabilities" = None
      ∨ ∃ caps existing, properties node !! "capabilities" = Some (AStr caps)
                         ∧ read_capabilities caps = Ok existing) →
     _update_capabilities node new
     = Raise (HardwareInspectionFailure
                (ErrText ("The expected format of capabilities from inspection is dictionary while node "
                          +:+ uuid node +:+ " returned " +:+ Py.str new +:+ ".")))).
Proof.
  intros Hnew.
  assert (Hreject : ∀ cap_dict : gmap string atom,
    (cap_dict <- match new with
                 | PDict d => Ok (d ∪ cap_dict)
                 | _ =>
                     msg <- "The expected format of capabilities from inspection is dictionary while node %(node)s returned %(capabilities)s."
                            %% Fmt.Mapping [("node", text (uuid node));
                                            ("capabilities", new)] ;;
                     Raise (HardwareInspectionFailure (ErrText msg))
                 end ;;
     items <- collect capability_item (map_to_list cap_dict) ;;
     Ok (Py.join "," items))%res
    = Raise (HardwareInspectionFailure
               (ErrText ("The expected format of capabilities from inspection is dictionary while node "
                         +:+ uuid node +:+ " returned " +:+ Py.str new +:+ ".")))).
  { intros cap_dict. destruct new as [a|l|d]; [| |by destruct (Hnew d)];
      by rewrite Stored.not_a_mapping_message. }
  split.
  - unfold _update_capabilities.
    destruct (if Py.truthy_opt Py.truthy_atom (properties node !! "capabilities")
              then _ else _) as [cap_dict|e]; cbn [rbind]; [|by eexists].
    rewrite Hreject. by eexists.
  - intros [Hnone|(caps & existing & Hcaps & Hread)]; unfold _update_capabilities.
    + rewrite Hnone. cbn [Py.truthy_opt rbind]. apply Hreject.
    + rewrite Hcaps. cbn [Py.truthy_opt Py.truthy_atom].
      unfold read_capabilities in Hread. destruct (String.eqb caps "").
      * cbn [negb rbind]. apply Hreject.
      * cbn [negb]. rewrite Hread. cbn [rbind]. apply Hreject.
Qed.

Lemma merge_rejects_what_is_no_mapping_witness :
  _update_capabilities (Sample.node0 (Some "boot_mode:bios") "all")
    (PList [AStr "BootMode"])
  = Raise (HardwareInspectionFailure
             (ErrText "The expected format of capabilities from inspection is dictionary while node node-1 returned ['BootMode'].")).
Proof.
  apply (merge_rejects_what_is_no_mapping
           (Sample.node0 (Some "boot_mode:bios") "all") (PList [AStr "BootMode"])).
  - discriminate.
  - right. exists "boot_mode:bios", {[ "boot_mode" := AStr "bios" ]}.
    split; reflexivity.
Defined.

(** X10.  The capabilities string of the node is read entry by entry: an
    entry [k:v] after a string that reads as a map sets [k] to [v], taking
    the place of an earlier entry for [k]; only the first colon of an entry
    separates, so [v] may hold colons.  What the merger returns is then a
    serialization of that map updated with the discovered mapping. *)
Theorem later_entry_overrides_an_earlier_one
    (node : node) (s k v : string) (existing new : gmap string atom) :
  properties node !! "capabilities"
  = Some (AStr (s +:+ "," +:+ k +:+ ":" +:+ v)) →
  s ≠ "" →
  read_capabilities s = Ok existing →
  plain_key k = true →
  Py.contains_char "," v = false →
  read_capabilities (s +:+ "," +:+ k +:+ ":" +:+ v)
  = Ok (<[k := AStr v]> existing)
  ∧ ∃ out,
      _update_capabilities node (PDict new) = Ok out
      ∧ serialization_of (new ∪ <[k := AStr v]> existing) out.
Proof.
  intros Hcaps Hne Hread Hk Hv.
  assert (Hall : read_capabilities (s +:+ "," +:+ k +:+ ":" +:+ v)
                 = Ok (<[k := AStr v]> existing)).
  { unfold read_capabilities in *.
    rewrite Merger.eqb_empty_false in Hread by done.
    rewrite Merger.eqb_empty_false by (by destruct s).
    rewrite StringFacts.app_cons, StringFacts.app_nil_l, Stored.split_app.
    rewrite fmap_app, Stored.of_pairs_app, Hread.
    rewrite (SplitFacts.split_no_sep "," (k +:+ ":" +:+ v)).
    2:{ apply (Merger.item_text_no_comma k (AStr v)); [exact Hk|].
        unfold plain_value. cbn. by rewrite Hv. }
    cbn [fmap list_fmap].
    pose proof (Merger.item_text_split k (AStr v) Hk) as Hsplit.
    unfold item_text in Hsplit. cbn [fst snd Py.str_atom] in Hsplit.
    rewrite Hsplit. reflexivity. }
  split; [exact Hall|].
  exists (serialize (new ∪ <[k := AStr v]> existing)).
  split; [exact (Merger.run node _ _ new Hcaps Hall)|apply Stored.serialization].
Qed.

Lemma later_entry_overrides_an_earlier_one_witness :
  read_capabilities "boot_mode:bios,boot_mode:uefi:secure"
  = Ok (<["boot_mode" := AStr "uefi:secure"]> {[ "boot_mode" := AStr "bios" ]})
  ∧ ∃ out,
      _update_capabilities
        (Sample.node0 (Some "boot_mode:bios,boot_mode:uefi:secure") "all")
        (PDict ∅)
      = Ok out
      ∧ serialization_of
          (∅ ∪ <["boot_mode" := AStr "uefi:secure"]>
                  {[ "boot_mode" := AStr "bios" ]}) out.
Proof.
  apply (later_entry_overrides_an_earlier_one
           (Sample.node0 (Some "boot_mode:bios,boot_mode:uefi:secure") "all")
           "boot_mode:bios" "boot_mode" "uefi:secure");
    first [reflexivity | discriminate].
Defined.
(** ** More about the port selection and the port registration *)


(** X12.  The expression "all", in any mixture of upper and lower case,
    selects the whole discovered mapping as it is, entries with an empty
    MAC included. *)
Theorem all_selects_the_whole_mapping (node : node) (macs : gmap string atom) :
  spells "all" (desired_ports node) →
  _get_macs_for_desired_ports node macs = Ok macs.
Proof.
  intros Hall%Expression.eqb_lower_spells; [|reflexivity].
  unfold _get_macs_for_desired_ports. by rewrite Hall.
Qed.

Lemma all_selects_the_whole_mapping_witness :
  _get_macs_for_desired_ports (Sample.node0 None "aLL")
    {[ "Port 1" := AStr "aa:aa:aa:aa:aa:aa"; "Port 2" := AStr "" ]}
  = Ok {[ "Port 1" := AStr "aa:aa:aa:aa:aa:aa"; "Port 2" := AStr "" ]}.
Proof.
  apply (all_selects_the_whole_mapping (Sample.node0 None "aLL")).
  cbn. repeat split; auto.
Defined.

(** X13.  Without 'inspect_ports' in the driver information the policy
    reads the expression as the text of [None]: it asks for the one label
    'Port None', and fails when the mapping has no MAC under it. *)
Theorem absent_expression_asks_for_port_none
    (node : node) (macs : gmap string atom) :
  driver_info node !! "inspect_ports" = None →
  requested_labels node = ["Port None"]
  ∧ (usable macs "Port None" = false →
     _get_macs_for_desired_ports node macs
     = Raise (ports_not_found_error node ["Port None"])).
Proof.
  intros Hnone.
  assert (Hd : desired_ports node = "None").
  { unfold desired_ports. by rewrite Hnone. }
  assert (Hl : requested_labels node = ["Port None"]).
  { unfold requested_labels. by rewrite Hd. }
  split; [exact Hl|]. intros Hu.
  rewrite Selection.explicit_request by (by rewrite Hd).
  rewrite Hl. cbn [filter list_filter]. rewrite decide_True by exact Hu.
  by rewrite bool_decide_eq_false_2.
Qed.

Lemma absent_expression_asks_for_port_none_witness :
  _get_macs_for_desired_ports (Node 7 "node-1" ∅ ∅) Sample.macs
  = Raise (HardwareInspectionFailure
             (ErrText "Could not find requested ports ['Port None'] on the node node-1")).
Proof.
  apply (absent_expression_asks_for_port_none (Node 7 "node-1" ∅ ∅) Sample.macs);
    reflexivity.
Defined.

Module Rows.

Section Added.

Variable E : env.
Variable node : node.

(** The rows the loop adds are rows of the node for MACs the store took,
    in the order of the loop. *)
Lemma added (values : list atom) (w : world) :
  ∃ created,
    sublist created values
    ∧ ports (port_loop E node values w).2
      = ports w ++ (port_of node <$> created)
    ∧ ∀ mac, mac ∈ created →
             ∃ rows, create_port E (port_of node mac) rows = Ok tt.
Proof.
  revert w. induction values as [|mac rest IH]; intros w.
  - exists []. split; [constructor|]. split; [by rewrite app_nil_r|].
    by intros mac ?%elem_of_nil.
  - destruct (Registration.create_port_cases E (port_of node mac) (ports w))
      as [Hok|[[m Hdup]|(e' & Hfail & Hnd)]].
    + rewrite (Registration.turn_created _ _ _ _ _ Hok).
      destruct (IH (after_attempt node w mac true)) as (created & Hsub & -> & Hall).
      exists (mac :: created). split; [by constructor|]. split.
      * cbn. by rewrite <- app_assoc.
      * intros mac' [->|Hin]%elem_of_cons; [by exists (ports w)|by apply Hall].
    + rewrite (Registration.turn_duplicate _ _ _ _ _ _ Hdup).
      destruct (IH (after_attempt node w mac false)) as (created & Hsub & -> & Hall).
      exists created. split; [by constructor|]. split; [reflexivity|exact Hall].
    + rewrite (Registration.turn_failed _ _ _ _ _ _ Hfail Hnd).
      exists []. split; [apply sublist_nil_l|]. split; [by rewrite app_nil_r|].
      by intros mac' ?%elem_of_nil.
Qed.

(** The port table after the loop. *)
Lemma taken (values : list atom) (w : world) :
  ports (port_loop E node values w).2 = rows_taken E node values (ports w).
Proof.
  revert w. induction values as [|mac rest IH]; intros w; [reflexivity|].
  cbn [rows_taken].
  destruct (create_port E (port_of node mac) (ports w)) as [[]|e] eqn:Hstore.
  - rewrite (Registration.turn_created _ _ _ _ _ Hstore). by rewrite IH.
  - destruct e;
      first [ rewrite (Registration.turn_duplicate _ _ _ _ _ _ Hstore);
              by rewrite IH
            | rewrite (Registration.turn_failed _ _ _ _ _ _ Hstore);
              [reflexivity|by intros []] ].
Qed.


End Added.

End Rows.

(** X14.  The registration leaves the node and what was saved alone and
    keeps every row of the port table; the table it leaves is the table it
    found with a row of the given node added for every MAC the store took,
    for the MACs of the mapping in the order in which the loop goes through
    them and up to the first failure of the store that is no duplicate. *)
Theorem registration_adds_rows_of_the_node
    (E : env) (node : node) (macs : gmap string atom) (w : world) :
  task_node (_create_ports_if_not_exist E node macs w).2 = task_node w
  ∧ saved (_create_ports_if_not_exist E node macs w).2 = saved w
  ∧ ports w `prefix_of` ports (_create_ports_if_not_exist E node macs w).2
  ∧ ∃ order,
      order ≡ₚ mac_values macs
      ∧ ports (_create_ports_if_not_exist E node macs w).2
        = rows_taken E node order (ports w).
Proof.
  rewrite Registration.unfold_loop.
  destruct (Registration.frame E node (mac_values macs) w) as (Hn & Hs & _).
  destruct (Rows.added E node (mac_values macs) w) as (created & _ & Hp & _).
  split; [exact Hn|]. split; [exact Hs|]. split; [rewrite Hp; by eexists|].
  exists (mac_values macs). split; [reflexivity|apply Rows.taken].
Qed.

Lemma registration_adds_rows_of_the_node_witness :
  let E := Sample.controller POWER_ON (Raise (IloError "no capabilities")) in
  let node := Sample.node0 None "all" in
  let mac := AStr "aa:aa:aa:aa:aa:aa" in
  let macs : gmap string atom := {[ "Port 1" := mac; "Port 2" := mac ]} in
  let w := Sample.start node in
  ∃ order,
    order ≡ₚ [mac; mac]
    ∧ ports (_create_ports_if_not_exist E node macs w).2
      = rows_taken E node order (ports w).
Proof.
  intros E node mac macs w.
  destruct (registration_adds_rows_of_the_node E node macs w)
    as (_ & _ & _ & order & Horder & Hrows).
  exists order. split; [|exact Hrows].
  assert (Hvalues : mac_values macs = [mac; mac]) by (vm_compute; reflexivity).
  by rewrite <- Hvalues.
Defined.


(** ** More about the inspection workflow *)

Module Stages.

Import Workflow.

(** The first step in full: what it calls, what it returns, and that it
    changes the node only at its end. *)
Lemma essential_step_strong (E : env) (w : world) :
  wp (essential_step E)
     (λ r w',
        saved w' = saved w
        ∧ ports w' = ports w
        ∧ match r with
          | Ok (power_turned_on, result, inspected, node_properties) =>
              power_turned_on = reported_off E
              ∧ calls w' = calls w ++ opening power_turned_on
              ∧ get_essential_properties E = Ok result
              ∧ _validate (task_node w) result = Ok tt
              ∧ (∃ properties_, result !! "properties" = Some properties_
                                ∧ copy_essentials properties_ = Ok inspected)
              ∧ node_properties = inspected ∪ properties (task_node w)
              ∧ task_node w' = set_properties (task_node w) node_properties
          | Raise e =>
              task_node w' = task_node w
              ∧ ∃ cs, calls w' = calls w ++ cs
                      ∧ cs `prefix_of` opening (reported_off E)
          end) w.
Proof.
  unfold essential_step. fold copy_essentials.
  repeat wp_step; world_simpl.
  all: split; [reflexivity|].
  all: split; [reflexivity|].
  all: unfold reported_off.
  all: repeat match goal with
              | H : get_power_state _ = _ |- _ => rewrite H
              | H : bool_decide _ = _ |- _ => rewrite H
              end.
  all: try (split; [reflexivity|];
            eexists; split; [rewrite <- ?app_assoc; reflexivity|];
            eexists; reflexivity).
  all: split; [reflexivity|].
  all: split; [rewrite <- ?app_assoc; reflexivity|].
  all: split; [reflexivity|].
  all: split; [match goal with H : _validate _ _ = Ok ?u |- _ => by destruct u end|].
  all: match goal with
       | H : Dict.getitem ?d ?k = Ok ?v |- _ =>
           unfold Dict.getitem in H; destruct (d !! k) eqn:Hprop; [|discriminate H];
           injection H as ->
       end.
  all: split; [eexists; split; [reflexivity|assumption]|].
  all: split; reflexivity.
Qed.

(** The capability step in full: a failure leaves the node as it was, and
    without discovered capabilities the step ends normally and leaves the
    node as it was. *)
Lemma capabilities_step_strong (E : env) (node_properties : gmap string atom)
    (w : world) :
  wp (capabilities_step E node_properties)
     (λ r w',
        saved w' = saved w
        ∧ ports w' = ports w
        ∧ calls w' = calls w ++ [CallGetServerCapabilities]
        ∧ match r with
          | Ok _ =>
              task_node w' = task_node w
              ∨ ∃ c, task_node w'
                     = set_properties (task_node w)
                         (<["capabilities" := AStr c]> node_properties)
          | Raise e => task_node w' = task_node w
          end
        ∧ (nothing_discovered E → r = Ok tt ∧ task_node w' = task_node w)) w.
Proof.
  unfold capabilities_step, nothing_discovered.
  repeat wp_step; world_simpl.
  all: split; [reflexivity|].
  all: split; [reflexivity|].
  all: split; [reflexivity|].
  all: split; [eauto|].
  all: try match goal with
           | H : Py.truthy (PAtom ANone) = true |- _ => discriminate H
           end.
  all: intros [[? Hq]|(? & Hq & Hv)];
    first [discriminate Hq | injection Hq as <-];
    first [by split | congruence].
Qed.

(** Calls to the port store only are the calls for some rows. *)
Lemma rows_of_calls (cs : list call) :
  Forall (λ c, ∃ p, c = CallCreatePort p) cs → ∃ rows, cs = CallCreatePort <$> rows.
Proof.
  induction 1 as [|c cs [p ->] _ [rows ->]]; [by exists []|].
  by exists (p :: rows).
Qed.

Lemma wp_ports_strong (E : env) (node : node) (macs : gmap string atom)
    (Q : result unit → world → Prop) (w : world) :
  (∀ r w', saved w' = saved w → task_node w' = task_node w →
           (∃ rows, calls w' = calls w ++ (CallCreatePort <$> rows)) →
           (∃ created, ports w' = ports w ++ created) → Q r w') →
  wp (_create_ports_if_not_exist E node macs) Q w.
Proof.
  intros H. unfold wp. rewrite Registration.unfold_loop.
  destruct (Registration.frame E node (mac_values macs) w)
    as (Hn & Hs & cs & Hc & Hcs).
  destruct (Rows.added E node (mac_values macs) w) as (created & _ & Hp & _).
  apply H; [exact Hs|exact Hn| |by eexists].
  destruct (rows_of_calls cs Hcs) as [rows ->]. by exists rows.
Qed.

(** The registration step in full. *)
Lemma registration_step_strong (E : env) (node : node)
    (result : gmap string pyval) (w : world) :
  wp (registration_step E node result)
     (λ r w',
        saved w' = saved w
        ∧ task_node w' = task_node w
        ∧ (∃ rows, calls w' = calls w ++ (CallCreatePort <$> rows))
        ∧ (∃ created, ports w' = ports w ++ created)) w.
Proof.
  unfold registration_step. cbn zeta.
  repeat first [apply wp_ports_strong; intros; world_simpl | wp_step; world_simpl].
  all: split; [assumption || reflexivity|].
  all: split; [assumption || reflexivity|].
  all: split; [assumption || (exists []; by rewrite app_nil_r)|].
  all: assumption || (exists []; by rewrite app_nil_r).
Qed.

Lemma registration_without_expression (E : env) (node : node)
    (result : gmap string pyval) (w : world) :
  driver_info node !! "inspect_ports" = None →
  registration_step E node result w = (Raise (KeyError "inspect_ports"), w).
Proof.
  intros H. unfold registration_step, bind, lift, Dict.getitem. cbn zeta.
  by rewrite H.
Qed.

Lemma registration_of_none (E : env) (node : node)
    (result : gmap string pyval) (w : world) (v : string) :
  driver_info node !! "inspect_ports" = Some v →
  spells "none" v →
  registration_step E node result w = (Ok tt, w).
Proof.
  intros H Hnone%Expression.eqb_lower_spells; [|reflexivity].
  unfold registration_step, bind, lift, Dict.getitem. cbn zeta.
  by rewrite H, Hnone.
Qed.

Lemma registration_unsatisfiable (E : env) (node : node)
    (result : gmap string pyval) (w : world) (v : string)
    (macs : gmap string atom) (e : exn) :
  driver_info node !! "inspect_ports" = Some v →
  ¬ spells "none" v →
  result !! "macs" = Some (PDict macs) →
  _get_macs_for_desired_ports node macs = Raise e →
  registration_step E node result w = (Raise e, w).
Proof.
  intros H Hnone Hm He.
  unfold registration_step, bind, lift, Dict.getitem. cbn zeta.
  rewrite H. destruct (String.eqb (Py.lower v) "none") eqn:Hv.
  { destruct Hnone. by apply Expression.eqb_lower_spells. }
  cbn [negb]. rewrite Hm. cbn [rbind Dict.as_dict]. by rewrite He.
Qed.

(** The last step in full. *)
Lemma final_step_strong (E : env) (node : node) (power_turned_on : bool)
    (inspected : gmap string atom) (w : world) :
  wp (final_step E node power_turned_on inspected)
     (λ r w',
        saved w' = saved w
        ∧ task_node w' = task_node w
        ∧ ports w' = ports w
        ∧ calls w'
          = calls w ++ (if power_turned_on then [CallPowerAction POWER_OFF] else [])
        ∧ (r = Ok MANAGEABLE
           ∨ ∃ e, r = Raise e ∧ power_turned_on = true
                  ∧ node_power_action E POWER_OFF = Raise e)) w.
Proof.
  unfold final_step.
  repeat wp_step; world_simpl.
  all: split; [reflexivity|].
  all: split; [reflexivity|].
  all: split; [reflexivity|].
  all: split; [by rewrite ?app_nil_r|].
  all: first [by left | right; by eexists].
Qed.

(** The run of [inspect_hardware] stage by stage. *)
Lemma stages (E : env) (w : world) :
  ∃ r1 w1,
    essential_step E w = (r1, w1)
    ∧ match r1 with
      | Raise e => inspect_hardware E w = (Raise e, w1)
      | Ok (power_turned_on, result, inspected, node_properties) =>
          ∃ r2 w2,
            capabilities_step E node_properties w1 = (r2, w2)
            ∧ match r2 with
              | Raise e => inspect_hardware E w = (Raise e, w2)
              | Ok _ =>
                  ∃ r4 w4,
                    registration_step E (task_node w2) result
                      (with_saved (with_call w2 CallSave) (task_node w2))
                    = (r4, w4)
                    ∧ match r4 with
                      | Raise e => inspect_hardware E w = (Raise e, w4)
                      | Ok _ =>
                          inspect_hardware E w
                          = final_step E (task_node w2) power_turned_on
                              inspected w4
                      end
              end
      end.
Proof.
  pose proof (in_steps E w) as Hrun. unfold inspect_in_steps in Hrun.
  unfold bind at 1 in Hrun.
  destruct (essential_step E w)
    as [[[[[power_turned_on result] inspected] node_properties]|e1] w1];
    eexists _, _; (split; [reflexivity|]); [|exact Hrun].
  cbv beta iota. unfold bind at 1 in Hrun.
  destruct (capabilities_step E node_properties w1) as [[[]|e2] w2];
    eexists _, _; (split; [reflexivity|]); [|exact Hrun].
  cbv beta iota. unfold bind at 1, save in Hrun.
  unfold bind at 1, get_node in Hrun.
  cbn [task_node with_saved with_call] in Hrun. unfold bind at 1 in Hrun.
  destruct (registration_step E (task_node w2) result _) as [[[]|e4] w4];
    eexists _, _; (split; [reflexivity|]); cbv beta iota; exact Hrun.
Qed.

(** What every stage contributes to the run. *)
Lemma run_facts (E : env) (w : world) :
  ∃ r1 w1,
    essential_step E w = (r1, w1)
    ∧ saved w1 = saved w
    ∧ ports w1 = ports w
    ∧ match r1 with
      | Raise e =>
          inspect_hardware E w = (Raise e, w1)
          ∧ task_node w1 = task_node w
          ∧ ∃ cs, calls w1 = calls w ++ cs
                  ∧ cs `prefix_of` opening (reported_off E)
      | Ok (power_turned_on, result, inspected, node_properties) =>
          power_turned_on = reported_off E
          ∧ calls w1 = calls w ++ opening power_turned_on
          ∧ get_essential_properties E = Ok result
          ∧ _validate (task_node w) result = Ok tt
          ∧ (∃ properties_, result !! "properties" = Some properties_
                            ∧ copy_essentials properties_ = Ok inspected)
          ∧ node_properties = inspected ∪ properties (task_node w)
          ∧ task_node w1 = set_properties (task_node w) node_properties
          ∧ ∃ r2 w2,
              capabilities_step E node_properties w1 = (r2, w2)
              ∧ saved w2 = saved w
              ∧ ports w2 = ports w
              ∧ calls w2
                = calls w ++ opening power_turned_on ++ [CallGetServerCapabilities]
              ∧ (nothing_discovered E → r2 = Ok tt ∧ task_node w2 = task_node w1)
              ∧ match r2 with
                | Raise e =>
                    inspect_hardware E w = (Raise e, w2)
                    ∧ task_node w2 = task_node w1
                | Ok _ =>
                    (task_node w2 = task_node w1
                     ∨ ∃ c, task_node w2
                            = set_properties (task_node w)
                                (<["capabilities" := AStr c]> node_properties))
                    ∧ ∃ r4 w4 rows,
                        registration_step E (task_node w2) result
                          (with_saved (with_call w2 CallSave) (task_node w2))
                        = (r4, w4)
                        ∧ saved w4 = saved w ++ [task_node w2]
                        ∧ task_node w4 = task_node w2
                        ∧ calls w4
                          = calls w ++ opening power_turned_on
                            ++ [CallGetServerCapabilities; CallSave]
                            ++ (CallCreatePort <$> rows)
                        ∧ (∃ created, ports w4 = ports w ++ created)
                        ∧ match r4 with
                          | Raise e => inspect_hardware E w = (Raise e, w4)
                          | Ok _ =>
                              saved (inspect_hardware E w).2 = saved w4
                              ∧ task_node (inspect_hardware E w).2 = task_node w4
                              ∧ ports (inspect_hardware E w).2 = ports w4
                              ∧ calls (inspect_hardware E w).2
                                = calls w ++ protocol power_turned_on rows
                              ∧ ((inspect_hardware E w).1 = Ok MANAGEABLE
                                 ∨ ∃ e, (inspect_hardware E w).1 = Raise e
                                        ∧ power_turned_on = true
                                        ∧ node_power_action E POWER_OFF = Raise e)
                          end
                end
      end.
Proof.
  destruct (stages E w) as (r1 & w1 & H1 & Hrun). exists r1, w1.
  pose proof (essential_step_strong E w) as S1. unfold wp in S1.
  rewrite H1 in S1. cbn [fst snd] in S1. destruct S1 as (Hs1 & Hp1 & S1).
  split; [exact H1|]. split; [exact Hs1|]. split; [exact Hp1|].
  destruct r1 as [[[[power_turned_on result] inspected] node_properties]|e1];
    [|by split].
  destruct S1 as (Hon & Hc1 & Hget & Hval & Hcopy & Hnp & Hn1).
  do 7 (split; [assumption|]).
  destruct Hrun as (r2 & w2 & H2 & Hrun). exists r2, w2.
  pose proof (capabilities_step_strong E node_properties w1) as S2.
  unfold wp in S2. rewrite H2 in S2. cbn [fst snd] in S2.
  destruct S2 as (Hs2 & Hp2 & Hc2 & Hn2 & Hnone).
  rewrite Hs1 in Hs2. rewrite Hp1 in Hp2. rewrite Hc1, <- app_assoc in Hc2.
  do 5 (split; [assumption|]).
  destruct r2 as [[]|e2]; [|by split].
  split.
  { destruct Hn2 as [?|[c Hn2]]; [by left|right]. exists c.
    rewrite Hn2, Hn1. reflexivity. }
  destruct Hrun as (r4 & w4 & H4 & Hrun).
  pose proof (registration_step_strong E (task_node w2) result
                (with_saved (with_call w2 CallSave) (task_node w2))) as S4.
  unfold wp in S4. rewrite H4 in S4. cbn [fst snd] in S4. world_simpl.
  destruct S4 as (Hs4 & Hn4 & [rows Hc4] & [created Hp4]).
  rewrite Hs2 in Hs4. rewrite Hp2 in Hp4.
  rewrite Hc2, <- !app_assoc in Hc4. cbn [app] in Hc4.
  exists r4, w4, rows.
  split; [exact H4|]. split; [exact Hs4|]. split; [exact Hn4|].
  split; [rewrite Hc4; cbn [app]; reflexivity|]. split; [by exists created|].
  destruct r4 as [[]|e4]; [|exact Hrun].
  pose proof (final_step_strong E (task_node w2) power_turned_on inspected w4)
    as S5.
  unfold wp in S5. rewrite <- Hrun in S5.
  destruct S5 as (Hs5 & Hn5 & Hp5 & Hc5 & Hr5).
  do 3 (split; [assumption|]). split; [|exact Hr5].
  rewrite Hc5, Hc4. unfold protocol. rewrite <- !app_assoc. reflexivity.
Qed.

(** The copy has no key besides the essential ones. *)
Lemma copy_outside (properties_ : pyval) (inspected : gmap string atom)
    (k : string) :
  copy_essentials properties_ = Ok inspected →
  k ∉ ESSENTIAL_PROPERTIES_KEYS →
  inspected !! k = None.
Proof.
  unfold copy_essentials. rewrite <- elem_of_elements.
  generalize (elements ESSENTIAL_PROPERTIES_KEYS). intros l. revert inspected.
  induction l as [|x l IH]; intros inspected.
  - intros [= <-] _. apply lookup_empty.
  - cbn [foldr]. destruct (foldr _ _ l) as [acc|e]; [|discriminate].
    cbn [rbind]. destruct (Dict.subscript properties_ x) as [v|e]; [|discriminate].
    cbn [rbind]. intros [= <-] Hk. rewrite lookup_insert_ne.
    + apply IH; [reflexivity|]. intros Hin. apply Hk. by right.
    + intros ->. apply Hk. by left.
Qed.

Lemma in_opening (power_turned_on : bool) (c : call) :
  c ∈ opening power_turned_on →
  c = CallGetIloObject ∨ c = CallGetPowerState
  ∨ c = CallPowerAction POWER_ON ∨ c = CallGetEssentialProperties.
Proof.
  unfold opening. destruct power_turned_on; cbn [app];
    rewrite ?elem_of_cons, elem_of_nil; tauto.
Qed.

Lemma in_prefix {A} (l k : list A) (x : A) : l `prefix_of` k → x ∈ l → x ∈ k.
Proof. intros [t ->] Hx. apply elem_of_app. by left. Qed.

(** The node at the end of a run: as it was, or with the inspected
    properties merged in, or with the capabilities string besides; and what
    was saved, if anything, is that node. *)
Lemma final_node (E : env) (w : world) :
  (task_node (inspect_hardware E w).2 = task_node w
   ∨ ∃ properties_ inspected,
       copy_essentials properties_ = Ok inspected
       ∧ (task_node (inspect_hardware E w).2
          = set_properties (task_node w) (inspected ∪ properties (task_node w))
          ∨ ∃ c, task_node (inspect_hardware E w).2
                 = set_properties (task_node w)
                     (<["capabilities" := AStr c]>
                        (inspected ∪ properties (task_node w)))))
  ∧ (saved (inspect_hardware E w).2 = saved w
     ∨ saved (inspect_hardware E w).2
       = saved w ++ [task_node (inspect_hardware E w).2])
  ∧ ∀ s, (inspect_hardware E w).1 = Ok s →
         saved (inspect_hardware E w).2
         = saved w ++ [task_node (inspect_hardware E w).2].
Proof.
  destruct (run_facts E w) as (r1 & w1 & _ & Hs1 & _ & H).
  destruct r1 as [[[[power_turned_on result] inspected] node_properties]|e1].
  2:{ destruct H as (-> & Hn & _). cbn [fst snd].
      split; [by left|]. split; [by left|discriminate]. }
  destruct H as (_ & _ & _ & _ & (p & _ & Hcopy) & -> & Hn1
                 & r2 & w2 & _ & Hs2 & _ & _ & _ & H).
  destruct r2 as [[]|e2].
  2:{ destruct H as [-> Hn2]. cbn [fst snd]. rewrite Hn2, Hn1.
      split; [right; exists p, inspected; split; [exact Hcopy|by left]|].
      split; [by left|discriminate]. }
  destruct H as (Hn2 & r4 & w4 & rows & _ & Hs4 & Hn4 & _ & _ & H).
  assert (Hnode : task_node w4 = task_node w
                  ∨ ∃ properties_ inspected0,
                      copy_essentials properties_ = Ok inspected0
                      ∧ (task_node w4
                         = set_properties (task_node w)
                             (inspected0 ∪ properties (task_node w))
                         ∨ ∃ c, task_node w4
                                = set_properties (task_node w)
                                    (<["capabilities" := AStr c]>
                                       (inspected0 ∪ properties (task_node w))))).
  { right. exists p, inspected. split; [exact Hcopy|]. rewrite Hn4.
    destruct Hn2 as [Hn2|[c Hn2]]; [left; by rewrite Hn2, Hn1|right; by exists c]. }
  rewrite <- Hn4 in Hs4.
  destruct r4 as [[]|e4].
  2:{ rewrite H. cbn [fst snd]. split; [exact Hnode|].
      split; [by right|discriminate]. }
  destruct H as (Hs5 & Hn5 & _ & _ & _). rewrite Hs5, Hn5.
  split; [exact Hnode|]. split; [by right|]. intros _ _. exact Hs4.
Qed.

(** The capability step for a mapping of capabilities that is not empty
    and a merger that returns [c]. *)
Lemma capabilities_of_mapping (E : env) (node_properties : gmap string atom)
    (w : world) (d valid : gmap string atom) (c : string) :
  get_server_capabilities E = Ok (PDict d) →
  d ≠ ∅ →
  _create_supported_capabilities_dict (PDict d) = Ok valid →
  _update_capabilities (task_node w) (PDict valid) = Ok c →
  capabilities_step E node_properties w
  = (Ok tt,
     if negb (String.eqb c "")
     then with_node (with_call w CallGetServerCapabilities)
            (set_properties (task_node w)
               (<["capabilities" := AStr c]> node_properties))
     else with_call w CallGetServerCapabilities).
Proof.
  intros Hget Hd Hvalid Hc.
  unfold capabilities_step, _get_capabilities, try_except, call_collaborator.
  unfold bind, get_node, record_call, lift. rewrite Hget.
  rewrite (proj2 (truthy_dict d) Hd), Hvalid.
  cbn [task_node with_call]. rewrite Hc.
  by destruct (negb (String.eqb c "")).
Qed.

Lemma power_state_message (u : string) :
  "Inspecting hardware (get_power_state) on %s" %% Fmt.One (text u)
  = Ok ("Inspecting hardware (get_power_state) on " +:+ u).
Proof. rewrite <- (StringFacts.app_nil_r u) at 2. done. Qed.

End Stages.

Module Asked.

Lemma after_attempt_calls (node : node) (w : world) (mac : atom) (created : bool) :
  calls (after_attempt node w mac created)
  = calls w ++ [CallCreatePort (port_of node mac)].
Proof. by destruct created. Qed.

(** The loop asks the store for the MACs in turn, up to the one at which
    it ends. *)
Lemma loop_calls (E : env) (node : node) (values : list atom) (w : world) :
  ∃ tried,
    calls (port_loop E node values w).2
    = calls w ++ (CallCreatePort ∘ port_of node <$> tried)
    ∧ tried `prefix_of` values
    ∧ ((port_loop E node values w).1 = Ok tt → tried = values).
Proof.
  revert w. induction values as [|mac rest IH]; intros w.
  - exists []. split; [by rewrite app_nil_r|]. by split.
  - destruct (Registration.create_port_cases E (port_of node mac) (ports w))
      as [Hok|[[m Hdup]|(e' & Hfail & Hnd)]].
    + rewrite (Registration.turn_created _ _ _ _ _ Hok).
      destruct (IH (after_attempt node w mac true)) as (tried & Hc & Hpre & Hall).
      exists (mac :: tried). rewrite Hc, after_attempt_calls, <- app_assoc.
      split; [reflexivity|]. split; [by apply prefix_cons|].
      intros H. by rewrite (Hall H).
    + rewrite (Registration.turn_duplicate _ _ _ _ _ _ Hdup).
      destruct (IH (after_attempt node w mac false)) as (tried & Hc & Hpre & Hall).
      exists (mac :: tried). rewrite Hc, after_attempt_calls, <- app_assoc.
      split; [reflexivity|]. split; [by apply prefix_cons|].
      intros H. by rewrite (Hall H).
    + rewrite (Registration.turn_failed _ _ _ _ _ _ Hfail Hnd).
      exists [mac]. split; [reflexivity|].
      split; [apply prefix_cons, prefix_nil|discriminate].
Qed.

(** The registration step asks the store for the MACs it is to register. *)
Lemma registration_calls (E : env) (n : node) (data : gmap string pyval)
    (w : world) :
  ∃ tried,
    calls (registration_step E n data w).2
    = calls w ++ (CallCreatePort ∘ port_of n <$> tried)
    ∧ tried `prefix_of` to_register n data
    ∧ ((registration_step E n data w).1 = Ok tt → tried = to_register n data).
Proof.
  assert (Hidle : ∀ (r : result unit) (expected : list atom),
            (r = Ok tt → expected = []) →
            ∃ tried,
              calls (r, w).2 = calls w ++ (CallCreatePort ∘ port_of n <$> tried)
              ∧ tried `prefix_of` expected
              ∧ ((r, w).1 = Ok tt → tried = expected)).
  { intros r expected Hr. exists []. split; [by rewrite app_nil_r|].
    split; [apply prefix_nil|]. intros H. symmetry. by apply Hr. }
  unfold registration_step, to_register, bind, lift, Dict.getitem. cbn zeta.
  destruct (driver_info n !! "inspect_ports") as [v|]; [|by apply Hidle].
  destruct (String.eqb (Py.lower v) "none"); cbn [negb]; [by apply Hidle|].
  destruct (data !! "macs") as [[a|l|macs]|]; cbn [rbind Dict.as_dict];
    [by apply Hidle|by apply Hidle| |by apply Hidle].
  destruct (_get_macs_for_desired_ports n macs) as [selected|e];
    [|by apply Hidle].
  case_bool_decide as Hempty; cbn [negb].
  - apply Hidle. intros _. rewrite Hempty. unfold mac_values.
    by rewrite map_to_list_empty.
  - rewrite Registration.unfold_loop. apply loop_calls.
Qed.

Lemma to_register_same (n n' : node) (result : gmap string pyval) :
  node_id n' = node_id n →
  driver_info n' = driver_info n →
  uuid n' = uuid n →
  CallCreatePort ∘ port_of n' <$> to_register n' result
  = CallCreatePort <$> (port_of n <$> to_register n result).
Proof.
  intros Hi Hd Hu. rewrite <- list_fmap_compose.
  assert (Hsame : to_register n' result = to_register n result).
  { unfold to_register, _get_macs_for_desired_ports, desired_ports.
    by rewrite Hd, Hu. }
  rewrite Hsame. apply list_fmap_ext. intros i mac _. cbn.
  unfold port_of. by rewrite Hi.
Qed.

Lemma rows_inj (a b : list port_dict) :
  CallCreatePort <$> a = CallCreatePort <$> b → a = b.
Proof.
  revert b. induction a as [|p a IH]; intros [|q b]; try discriminate;
    [reflexivity|].
  cbn. intros [= -> H]. by rewrite (IH b H).
Qed.

End Asked.

(** X16.  The calls of an inspection to its collaborators follow one
    order: the client, the power state, the power-on when the state
    reported was not POWER_ON, the essential properties, the capabilities,
    the save, one row handed to the port store for every MAC that is to be
    registered (those the policy selects from the reported MACs, none for
    the expression "none"), and the power-off when the node was powered
    on.  The calls of every run are a beginning of that sequence, and a run
    that ends normally made all of them and returns MANAGEABLE. *)
Theorem calls_follow_the_protocol (E : env) (w : world) :
  ∃ cs rows,
    calls (inspect_hardware E w).2 = calls w ++ cs
    ∧ rows ≡ₚ (port_of (task_node w) <$> macs_to_register E (task_node w))
    ∧ cs `prefix_of` protocol (reported_off E) rows
    ∧ ∀ s, (inspect_hardware E w).1 = Ok s →
           s = MANAGEABLE ∧ cs = protocol (reported_off E) rows.
Proof.
  set (rows := port_of (task_node w) <$> macs_to_register E (task_node w)).
  destruct (Stages.run_facts E w) as (r1 & w1 & _ & _ & _ & H).
  destruct r1 as [[[[power_turned_on result] inspected] node_properties]|e1].
  2:{ destruct H as (-> & _ & cs & Hc & Hpre). exists cs, rows.
      split; [exact Hc|]. split; [reflexivity|]. split; [|discriminate].
      unfold protocol. by apply prefix_app_r. }
  destruct H as (-> & _ & Hget & _ & _ & -> & Hn1
                 & r2 & w2 & _ & _ & _ & Hc2 & _ & H).
  destruct r2 as [[]|e2].
  2:{ destruct H as [-> _]. eexists _, rows. split; [exact Hc2|].
      split; [reflexivity|]. split; [|discriminate].
      unfold protocol. apply prefix_app, prefix_cons, prefix_nil. }
  destruct H as (Hn2 & r4 & w4 & rows' & H4 & _ & _ & Hc4 & _ & H).
  destruct (Asked.registration_calls E (task_node w2) result
              (with_saved (with_call w2 CallSave) (task_node w2)))
    as (tried & Hcalls & Hpre & Hall).
  rewrite H4 in Hcalls, Hall. cbn [fst snd calls with_saved with_call] in Hcalls, Hall.
  assert (Hsame : CallCreatePort ∘ port_of (task_node w2)
                    <$> to_register (task_node w2) result
                  = CallCreatePort <$> rows).
  { unfold rows, macs_to_register. rewrite Hget.
    apply Asked.to_register_same;
      destruct Hn2 as [->|[c ->]]; rewrite ?Hn1; reflexivity. }
  assert (Hrows : CallCreatePort <$> rows'
                  = CallCreatePort ∘ port_of (task_node w2) <$> tried).
  { rewrite Hc4, Hc2, <- !app_assoc in Hcalls. cbn [app] in Hcalls.
    do 2 apply app_inv_head in Hcalls. by injection Hcalls. }
  destruct r4 as [[]|e4].
  2:{ rewrite H. eexists _, rows. split; [exact Hc4|].
      split; [reflexivity|]. split; [|discriminate].
      unfold protocol. apply prefix_app, (prefix_app [_; _]).
      rewrite Hrows, <- Hsame. destruct Hpre as [rest ->].
      rewrite fmap_app, <- app_assoc. by apply prefix_app_r. }
  rewrite (Hall eq_refl), Hsame in Hrows. apply Asked.rows_inj in Hrows as ->.
  destruct H as (_ & _ & _ & Hc5 & Hr5). eexists _, rows.
  split; [exact Hc5|]. split; [reflexivity|]. split; [reflexivity|].
  intros s Hs. split; [|reflexivity].
  destruct Hr5 as [Hr5|(e & Hr5 & _)]; rewrite Hr5 in Hs; [|discriminate].
  by injection Hs as <-.
Qed.

Lemma calls_follow_the_protocol_witness :
  let E := Sample.controller POWER_OFF (Raise (IloError "not supported")) in
  let w := Sample.start (Sample.node0 None "2") in
  calls (inspect_hardware E w).2
  = calls w ++ protocol true [PortDict (AStr "bb:bb:bb:bb:bb:bb") 7].
Proof.
  intros E w.
  destruct (calls_follow_the_protocol E w) as (cs & rows & Hc & Hrows & _ & Hok).
  destruct (Hok MANAGEABLE) as [_ Hcs]; [vm_compute; reflexivity|].
  assert (Hexpected : port_of (task_node w) <$> macs_to_register E (task_node w)
                      = [PortDict (AStr "bb:bb:bb:bb:bb:bb") 7])
    by (vm_compute; reflexivity).
  rewrite Hexpected in Hrows. apply Permutation_singleton_r in Hrows.
  rewrite Hc, Hcs, Hrows. reflexivity.
Defined.

(** X17.  The power-off is the last thing an inspection does, and nothing
    undoes the power-on when the inspection fails before: a run that
    raises has not asked for the power-off, unless the power-off itself is
    what raised.  A node that was powered on for an inspection that fails
    stays powered on. *)
Theorem failed_inspection_does_not_power_off
    (E : env) (w : world) (e : exn) (cs : list call) :
  (inspect_hardware E w).1 = Raise e →
  calls (inspect_hardware E w).2 = calls w ++ cs →
  CallPowerAction POWER_OFF ∉ cs
  ∨ node_power_action E POWER_OFF = Raise e.
Proof.
  intros Hr Hc.
  destruct (Stages.run_facts E w) as (r1 & w1 & _ & _ & _ & H).
  destruct r1 as [[[[power_turned_on result] inspected] node_properties]|e1].
  2:{ destruct H as (Hrun & _ & cs' & Hc' & Hpre). rewrite Hrun in Hc.
      cbn [snd] in Hc. rewrite Hc' in Hc. apply app_inv_head in Hc as ->.
      left. intros Hin. apply (Stages.in_prefix _ _ _ Hpre) in Hin.
      apply Stages.in_opening in Hin. by destruct Hin as [|[|[|]]]. }
  destruct H as (_ & _ & _ & _ & _ & _ & _ & r2 & w2 & _ & _ & _ & Hc2 & _ & H).
  destruct r2 as [[]|e2].
  2:{ destruct H as [Hrun _]. rewrite Hrun in Hc. cbn [snd] in Hc.
      rewrite Hc2 in Hc. apply app_inv_head in Hc as <-.
      left. intros [Hin|Hin]%elem_of_app.
      - apply Stages.in_opening in Hin. by destruct Hin as [|[|[|]]].
      - apply list_elem_of_singleton in Hin. discriminate Hin. }
  destruct H as (_ & r4 & w4 & rows & _ & _ & _ & Hc4 & _ & H).
  destruct r4 as [[]|e4].
  2:{ rewrite H in Hc. cbn [snd] in Hc.
      rewrite Hc4 in Hc. apply app_inv_head in Hc as <-.
      left. intros [Hin|Hin]%elem_of_app.
      - apply Stages.in_opening in Hin. by destruct Hin as [|[|[|]]].
      - apply elem_of_cons in Hin as [Hin|Hin]; [discriminate Hin|].
        apply elem_of_cons in Hin as [Hin|Hin]; [discriminate Hin|].
        apply list_elem_of_fmap in Hin as (p & Hp & _). discriminate Hp. }
  destruct H as (_ & _ & _ & _ & [Hr5|(e' & Hr5 & _ & Hoff)]);
    rewrite Hr5 in Hr; [discriminate Hr|].
  injection Hr as <-. by right.
Qed.

Lemma failed_inspection_does_not_power_off_witness :
  let E := Sample.controller POWER_OFF (Raise (IloError "not supported")) in
  let w := Sample.start (Sample.node0 None "3") in
  (inspect_hardware E w).1
  = Raise (HardwareInspectionFailure
             (ErrText "Could not find requested ports ['Port 3'] on the node node-1"))
  ∧ (CallPowerAction POWER_OFF
       ∉ [CallGetIloObject; CallGetPowerState; CallPowerAction POWER_ON;
          CallGetEssentialProperties; CallGetServerCapabilities; CallSave]
     ∨ node_power_action E POWER_OFF
       = Raise (HardwareInspectionFailure
                  (ErrText "Could not find requested ports ['Port 3'] on the node node-1"))).
Proof.
  intros E w.
  assert (Hr : (inspect_hardware E w).1
               = Raise (HardwareInspectionFailure
                          (ErrText "Could not find requested ports ['Port 3'] on the node node-1")))
    by (vm_compute; reflexivity).
  split; [exact Hr|].
  apply (failed_inspection_does_not_power_off E w _ _ Hr).
  vm_compute. reflexivity.
Defined.

(** X18.  When the power interface fails to report the power state the
    inspection stops there, having called nothing but the client and the
    power interface: an IloOperationError is raised again as an
    IloOperationError that names the operation and the node and carries
    the first one; any other exception leaves as it is. *)
Theorem power_state_failure_stops_the_inspection
    (E : env) (w : world) (e : exn) :
  get_ilo_object E (task_node w) = Ok tt →
  get_power_state E = Raise e →
  inspect_hardware E w
  = (Raise match e with
           | IloOperationError _ _ =>
               IloOperationError
                 ("Inspecting hardware (get_power_state) on "
                  +:+ uuid (task_node w))
                 (ErrExn e)
           | _ => e
           end,
     with_call (with_call w CallGetIloObject) CallGetPowerState).
Proof.
  intros Hilo Hpower. rewrite Workflow.in_steps.
  unfold inspect_in_steps, essential_step.
  unfold bind at 1. unfold bind at 1. unfold bind at 1. unfold get_node at 1.
  unfold bind at 1, call_collaborator at 1, bind at 1, record_call at 1, lift at 1.
  rewrite Hilo. cbn [task_node with_call]. unfold bind at 1, try_except at 1.
  unfold call_collaborator at 1, bind at 1, record_call at 1, lift at 1.
  rewrite Hpower. cbn [task_node with_call].
  destruct e; try reflexivity.
  unfold bind, lift, raise. by rewrite Stages.power_state_message.
Qed.

Lemma power_state_failure_stops_the_inspection_witness :
  let E := {| parse_driver_info := λ n, Ok (driver_info n);
              str_node := uuid;
              get_ilo_object := λ _, Ok tt;
              get_power_state :=
                Raise (IloOperationError "get_host_power_status"
                         (ErrText "timed out"));
              node_power_action := λ _, Ok tt;
              get_essential_properties := Ok Sample.inspection;
              get_server_capabilities := Ok (PAtom ANone);
              create_port := Sample.unique_store |} in
  let w := Sample.start (Sample.node0 None "all") in
  inspect_hardware E w
  = (Raise (IloOperationError "Inspecting hardware (get_power_state) on node-1"
              (ErrExn (IloOperationError "get_host_power_status"
                         (ErrText "timed out")))),
     with_call (with_call w CallGetIloObject) CallGetPowerState).
Proof.
  intros E w.
  apply (power_state_failure_stops_the_inspection E w
           (IloOperationError "get_host_power_status" (ErrText "timed out")));
    reflexivity.
Defined.

(** X19.  An inspection, however it ends, leaves the identity of the node
    (id, uuid, driver information) as it was and changes no property
    besides the four essential ones and the capabilities string. *)
Theorem inspection_changes_only_inspected_properties (E : env) (w : world) :
  node_id (task_node (inspect_hardware E w).2) = node_id (task_node w)
  ∧ uuid (task_node (inspect_hardware E w).2) = uuid (task_node w)
  ∧ driver_info (task_node (inspect_hardware E w).2) = driver_info (task_node w)
  ∧ ∀ k, k ∉ ESSENTIAL_PROPERTIES_KEYS → k ≠ "capabilities" →
         properties (task_node (inspect_hardware E w).2) !! k
         = properties (task_node w) !! k.
Proof.
  destruct (Stages.final_node E w) as (Hn & _).
  destruct Hn as [->|(p & inspected & Hcopy & [-> |[c ->]])];
    (split; [reflexivity|]); (split; [reflexivity|]); (split; [reflexivity|]);
    intros k Hk Hc; [reflexivity| |]; cbn [properties set_properties].
  - rewrite lookup_union_r; [reflexivity|]. by apply (Stages.copy_outside p).
  - rewrite lookup_insert_ne; [|intros Heq; exact (Hc (eq_sym Heq))].
    rewrite lookup_union_r; [reflexivity|]. by apply (Stages.copy_outside p).
Qed.

(** X20.  The node is saved at most once, and the node that is saved is
    the node as the inspection leaves it: nothing is changed after the save.
    An inspection that ends normally has saved it. *)
Theorem saved_node_is_the_final_node (E : env) (w : world) :
  (saved (inspect_hardware E w).2 = saved w
   ∨ saved (inspect_hardware E w).2
     = saved w ++ [task_node (inspect_hardware E w).2])
  ∧ ∀ s, (inspect_hardware E w).1 = Ok s →
         saved (inspect_hardware E w).2
         = saved w ++ [task_node (inspect_hardware E w).2].
Proof. exact (proj2 (Stages.final_node E w)). Qed.

Lemma saved_node_is_the_final_node_witness :
  let E := Sample.controller POWER_ON (Ok (PDict {[ "BootMode" := AStr "uefi" ]})) in
  let w := Sample.start (Sample.node0 None "all") in
  saved (inspect_hardware E w).2 = saved w ++ [task_node (inspect_hardware E w).2].
Proof.
  intros E w.
  apply (proj2 (saved_node_is_the_final_node E w) MANAGEABLE).
  vm_compute. reflexivity.
Defined.

Module Ports.

(** The policy reads the driver information and the uuid of the node
    only. *)
Lemma selection_same (n n' : node) (macs : gmap string atom) :
  driver_info n' = driver_info n →
  uuid n' = uuid n →
  _get_macs_for_desired_ports n' macs = _get_macs_for_desired_ports n macs.
Proof.
  intros Hd Hu. unfold _get_macs_for_desired_ports, desired_ports.
  by rewrite Hd, Hu.
Qed.

(** A run whose registration step does nothing, ends normally or not:
    no row is added and the port store is not called. *)
Lemma idle_registration (E : env) (w : world) (outcome : result unit) :
  (∀ n result w3,
     driver_info n = driver_info (task_node w) →
     uuid n = uuid (task_node w) →
     get_essential_properties E = Ok result →
     registration_step E n result w3 = (outcome, w3)) →
  ports (inspect_hardware E w).2 = ports w
  ∧ (∀ cs p, calls (inspect_hardware E w).2 = calls w ++ cs →
             CallCreatePort p ∉ cs)
  ∧ (∀ e, outcome = Raise e →
          (∃ e', (inspect_hardware E w).1 = Raise e')
          ∧ (saved (inspect_hardware E w).2 ≠ saved w →
             (inspect_hardware E w).1 = Raise e)).
Proof.
  intros Hidle.
  destruct (Stages.run_facts E w) as (r1 & w1 & _ & Hs1 & Hp1 & H).
  destruct r1 as [[[[power_turned_on result] inspected] node_properties]|e1].
  2:{ destruct H as (-> & _ & cs' & Hc' & Hpre). cbn [fst snd].
      split; [exact Hp1|]. split.
      - intros cs p Hc. rewrite Hc' in Hc. apply app_inv_head in Hc as <-.
        intros Hin. apply (Stages.in_prefix _ _ _ Hpre) in Hin.
        apply Stages.in_opening in Hin. by destruct Hin as [|[|[|]]].
      - intros e _. split; [by eexists|]. intros Hne. by destruct Hne. }
  destruct H as (_ & _ & Hget & _ & _ & -> & Hn1
                 & r2 & w2 & _ & Hs2 & Hp2 & Hc2 & _ & H).
  destruct r2 as [[]|e2].
  2:{ destruct H as [-> _]. cbn [fst snd].
      split; [exact Hp2|]. split.
      - intros cs p Hc. rewrite Hc2 in Hc. apply app_inv_head in Hc as <-.
        intros [Hin|Hin]%elem_of_app.
        + apply Stages.in_opening in Hin. by destruct Hin as [|[|[|]]].
        + apply list_elem_of_singleton in Hin. discriminate Hin.
      - intros e _. split; [by eexists|]. intros Hne. by destruct Hne. }
  destruct H as (Hn2 & r4 & w4 & rows & H4 & Hs4 & _ & Hc4 & _ & H).
  rewrite Hidle in H4; [|by destruct Hn2 as [->|[c ->]]; rewrite ?Hn1
                        |by destruct Hn2 as [->|[c ->]]; rewrite ?Hn1
                        |exact Hget].
  injection H4 as <- <-.
  cbn [calls ports with_saved with_call] in Hc4.
  rewrite Hc2, <- !app_assoc in Hc4. cbn [app] in Hc4.
  do 2 apply app_inv_head in Hc4.
  injection Hc4 as Hrows. symmetry in Hrows. apply fmap_nil_inv in Hrows as ->.
  assert (Hquiet : ∀ p on, CallCreatePort p ∉ protocol on []).
  { intros p on. unfold protocol. intros [Hin|Hin]%elem_of_app.
    - apply Stages.in_opening in Hin. by destruct Hin as [|[|[|]]].
    - destruct on; cbn [fmap list_fmap app] in Hin;
        repeat (apply elem_of_cons in Hin as [Hin|Hin]; [discriminate Hin|]);
        by apply elem_of_nil in Hin. }
  destruct outcome as [[]|e].
  - destruct H as (_ & _ & Hp5 & Hc5 & _).
    split; [by rewrite Hp5|]. split; [|discriminate].
    intros cs p Hc. rewrite Hc5 in Hc. apply app_inv_head in Hc as <-.
    apply Hquiet.
  - rewrite H. cbn [fst snd ports with_saved with_call].
    split; [exact Hp2|]. split.
    + intros cs p Hc. cbn [calls with_saved with_call] in Hc.
      rewrite Hc2, <- !app_assoc in Hc. apply app_inv_head in Hc as <-.
      intros [Hin|Hin]%elem_of_app.
      * apply Stages.in_opening in Hin. by destruct Hin as [|[|[|]]].
      * cbn [fmap list_fmap app] in Hin.
        repeat (apply elem_of_cons in Hin as [Hin|Hin]; [discriminate Hin|]).
        by apply elem_of_nil in Hin.
    + intros e' [= <-]. split; [by eexists|]. by intros _.
Qed.

End Ports.

(** X21.  With the expression "none", in any mixture of upper and lower
    case, an inspection registers no port: however it ends, the port table
    is as it was and the port store was not called. *)
Theorem none_registers_no_port (E : env) (w : world) (v : string) :
  driver_info (task_node w) !! "inspect_ports" = Some v →
  spells "none" v →
  ports (inspect_hardware E w).2 = ports w
  ∧ ∀ cs p, calls (inspect_hardware E w).2 = calls w ++ cs →
            CallCreatePort p ∉ cs.
Proof.
  intros Hv Hnone.
  destruct (Ports.idle_registration E w (Ok tt)) as (Hp & Hc & _); [|by split].
  intros n result w3 Hd _ _.
  apply (Stages.registration_of_none E n result w3 v); [by rewrite Hd|exact Hnone].
Qed.

Lemma none_registers_no_port_witness :
  let E := Sample.controller POWER_OFF (Ok (PDict {[ "BootMode" := AStr "uefi" ]})) in
  let w := Sample.start (Sample.node0 None "NONE") in
  ports (inspect_hardware E w).2 = ports w
  ∧ ∀ cs p, calls (inspect_hardware E w).2 = calls w ++ cs →
            CallCreatePort p ∉ cs.
Proof.
  intros E w. apply (none_registers_no_port E w "NONE"); [reflexivity|].
  cbn. repeat split; auto.
Defined.

(** X22.  When the selection cannot be satisfied from the MACs the
    controller reports, the inspection fails and registers no port; the
    selection is made after the save, so when the node was saved the
    failure is the one of the selection: the inspected properties are
    persisted although the inspection fails. *)
Theorem unsatisfiable_selection_fails_the_inspection
    (E : env) (w : world) (v : string) (result : gmap string pyval)
    (macs : gmap string atom) (e : exn) :
  driver_info (task_node w) !! "inspect_ports" = Some v →
  ¬ spells "none" v →
  get_essential_properties E = Ok result →
  result !! "macs" = Some (PDict macs) →
  _get_macs_for_desired_ports (task_node w) macs = Raise e →
  (∃ e', (inspect_hardware E w).1 = Raise e')
  ∧ ports (inspect_hardware E w).2 = ports w
  ∧ (saved (inspect_hardware E w).2 ≠ saved w →
     (inspect_hardware E w).1 = Raise e).
Proof.
  intros Hv Hnone Hget Hmacs Hsel.
  destruct (Ports.idle_registration E w (Raise e)) as (Hp & _ & Hfail).
  - intros n result' w3 Hd Hu Hget'. rewrite Hget in Hget'. injection Hget' as <-.
    apply (Stages.registration_unsatisfiable E n result w3 v macs e);
      [by rewrite Hd|exact Hnone|exact Hmacs|].
    by rewrite (Ports.selection_same (task_node w) n).
  - destruct (Hfail e eq_refl) as [Hr Hs]. by split_and!.
Qed.

Lemma unsatisfiable_selection_fails_the_inspection_witness :
  let E := Sample.controller POWER_ON (Raise (IloError "not supported")) in
  let w := Sample.start (Sample.node0 None "1,3") in
  let e := HardwareInspectionFailure
             (ErrText "Could not find requested ports ['Port 3'] on the node node-1") in
  saved (inspect_hardware E w).2 ≠ saved w
  ∧ (inspect_hardware E w).1 = Raise e
  ∧ ports (inspect_hardware E w).2 = ports w.
Proof.
  intros E w e.
  destruct (unsatisfiable_selection_fails_the_inspection E w "1,3"
              Sample.inspection Sample.macs e) as (_ & Hp & Hs);
    [reflexivity| |reflexivity|reflexivity|vm_compute; reflexivity|].
  { cbn. by intros [[|] _]. }
  assert (Hsaved : saved (inspect_hardware E w).2 ≠ saved w).
  { intros H. apply (f_equal length) in H. vm_compute in H. discriminate H. }
  split; [exact Hsaved|]. split; [exact (Hs Hsaved)|exact Hp].
Defined.

(** X23.  Without 'inspect_ports' in the driver information of the node an
    inspection never ends normally and registers no port; the key is read
    after the save, so when the node was saved the failure is
    KeyError('inspect_ports'). *)
Theorem missing_expression_fails_after_the_save (E : env) (w : world) :
  driver_info (task_node w) !! "inspect_ports" = None →
  (∃ e, (inspect_hardware E w).1 = Raise e)
  ∧ ports (inspect_hardware E w).2 = ports w
  ∧ (saved (inspect_hardware E w).2 ≠ saved w →
     (inspect_hardware E w).1 = Raise (KeyError "inspect_ports")).
Proof.
  intros Hnone.
  destruct (Ports.idle_registration E w (Raise (KeyError "inspect_ports")))
    as (Hp & _ & Hfail).
  - intros n result w3 Hd _ _.
    apply Stages.registration_without_expression. by rewrite Hd.
  - destruct (Hfail _ eq_refl) as [Hr Hs]. by split_and!.
Qed.

Lemma missing_expression_fails_after_the_save_witness :
  let E := Sample.controller POWER_ON (Raise (IloError "not supported")) in
  let w := Sample.start (Node 7 "node-1" ∅ ∅) in
  saved (inspect_hardware E w).2 ≠ saved w
  ∧ (inspect_hardware E w).1 = Raise (KeyError "inspect_ports")
  ∧ ports (inspect_hardware E w).2 = ports w.
Proof.
  intros E w.
  destruct (missing_expression_fails_after_the_save E w) as (_ & Hp & Hs);
    [reflexivity|].
  assert (Hsaved : saved (inspect_hardware E w).2 ≠ saved w).
  { intros H. apply (f_equal length) in H. vm_compute in H. discriminate H. }
  split; [exact Hsaved|]. split; [exact (Hs Hsaved)|exact Hp].
Defined.

(** X24.  When the controller has no capabilities to add (the query raises
    IloError, or returns nothing), the capabilities string of the node is
    left as it is, well formed or not, and the capability step cannot make
    the inspection fail: a run that made the query has saved the node. *)
Theorem nothing_discovered_keeps_the_capabilities (E : env) (w : world) :
  nothing_discovered E →
  properties (task_node (inspect_hardware E w).2) !! "capabilities"
  = properties (task_node w) !! "capabilities"
  ∧ ∀ cs, calls (inspect_hardware E w).2 = calls w ++ cs →
          CallGetServerCapabilities ∈ cs → CallSave ∈ cs.
Proof.
  intros Hnone.
  destruct (Stages.run_facts E w) as (r1 & w1 & _ & _ & _ & H).
  destruct r1 as [[[[power_turned_on result] inspected] node_properties]|e1].
  2:{ destruct H as (-> & Hn & cs' & Hc' & Hpre). cbn [fst snd].
      split; [by rewrite Hn|].
      intros cs Hc. rewrite Hc' in Hc. apply app_inv_head in Hc as <-.
      intros Hin. apply (Stages.in_prefix _ _ _ Hpre) in Hin.
      apply Stages.in_opening in Hin. by destruct Hin as [|[|[|]]]. }
  destruct H as (_ & _ & _ & _ & (p & _ & Hcopy) & -> & Hn1
                 & r2 & w2 & _ & _ & _ & _ & Hstep & H).
  destruct (Hstep Hnone) as [-> Hn2]. destruct H as (_ & r4 & w4 & rows & _ & _ & Hn4 & Hc4 & _ & H).
  assert (Hcaps : properties (task_node w4) !! "capabilities"
                  = properties (task_node w) !! "capabilities").
  { rewrite Hn4, Hn2, Hn1. cbn [properties set_properties].
    rewrite lookup_union_r; [reflexivity|].
    apply (Stages.copy_outside p); [exact Hcopy|].
    apply Workflow.capabilities_not_essential. }
  destruct r4 as [[]|e4].
  - destruct H as (_ & -> & _ & Hc5 & _). split; [exact Hcaps|].
    intros cs Hc _. rewrite Hc5 in Hc. apply app_inv_head in Hc as <-.
    unfold protocol. apply elem_of_app. right. by right; left.
  - rewrite H. cbn [fst snd]. split; [exact Hcaps|].
    intros cs Hc _. rewrite Hc4 in Hc. apply app_inv_head in Hc as <-.
    apply elem_of_app. right. by right; left.
Qed.

Lemma nothing_discovered_keeps_the_capabilities_witness :
  let E := Sample.controller POWER_ON (Raise (IloError "not supported")) in
  let w := Sample.start (Sample.node0 (Some "boot_mode:bios,boot_option") "all") in
  (inspect_hardware E w).1 = Ok MANAGEABLE
  ∧ properties (task_node (inspect_hardware E w).2) !! "capabilities"
    = Some (AStr "boot_mode:bios,boot_option").
Proof.
  intros E w. split; [vm_compute; reflexivity|].
  destruct (nothing_discovered_keeps_the_capabilities E w) as [Hcaps _].
  - left. by eexists.
  - exact Hcaps.
Defined.

(** X25.  For a node whose capabilities string reads as a map and a
    controller that reports a mapping of capabilities, the capabilities
    string of the node that is saved is a serialization of the stored map
    updated with the supported part of what was reported: the items of
    that map, in some order, joined by commas. *)
Theorem saved_capabilities_are_the_merge
    (E : env) (w : world) (d : gmap string atom) (caps : string)
    (existing : gmap string atom) (n : node) :
  get_server_capabilities E = Ok (PDict d) →
  d ≠ ∅ →
  properties (task_node w) !! "capabilities" = Some (AStr caps) →
  read_capabilities caps = Ok existing →
  saved (inspect_hardware E w).2 = saved w ++ [n] →
  ∃ valid out,
    _create_supported_capabilities_dict (PDict d) = Ok valid
    ∧ properties n !! "capabilities" = Some (AStr out)
    ∧ serialization_of (valid ∪ existing) out.
Proof.
  intros Hget Hd Hcaps Hread Hsaved.
  destruct (Filter.of_mapping d) as (valid & Hvalid & _).
  exists valid, (serialize (valid ∪ existing)).
  split; [exact Hvalid|]. split; [|apply Stored.serialization].
  assert (Hfresh : ∀ l : list node, l ≠ l ++ [n]).
  { intros l H. apply (f_equal length) in H. rewrite length_app in H.
    cbn in H. lia. }
  destruct (Stages.run_facts E w) as (r1 & w1 & _ & Hs1 & _ & H).
  destruct r1 as [[[[power_turned_on result] inspected] node_properties]|e1].
  2:{ destruct H as (Hrun & _). rewrite Hrun in Hsaved. cbn [snd] in Hsaved.
      rewrite Hs1 in Hsaved. by apply Hfresh in Hsaved. }
  destruct H as (_ & _ & _ & _ & (p & _ & Hcopy) & -> & Hn1
                 & r2 & w2 & H2 & Hs2 & _ & _ & _ & H).
  assert (Hcaps1 : properties (task_node w1) !! "capabilities" = Some (AStr caps)).
  { rewrite Hn1. cbn [properties set_properties].
    rewrite lookup_union_r; [exact Hcaps|].
    apply (Stages.copy_outside p); [exact Hcopy|].
    apply Workflow.capabilities_not_essential. }
  pose proof (Merger.run (task_node w1) caps existing valid Hcaps1 Hread) as Hrun.
  rewrite (Stages.capabilities_of_mapping E _ w1 d valid _ Hget Hd Hvalid Hrun)
    in H2.
  injection H2 as <- <-.
  assert (Hn2 : properties
                  (task_node
                     (if negb (String.eqb (serialize (valid ∪ existing)) "")
                      then with_node (with_call w1 CallGetServerCapabilities)
                             (set_properties (task_node w1)
                                (<["capabilities" := AStr (serialize (valid ∪ existing))]>
                                   (inspected ∪ properties (task_node w))))
                      else with_call w1 CallGetServerCapabilities))
                !! "capabilities"
                = Some (AStr (serialize (valid ∪ existing)))).
  { destruct (String.eqb (serialize (valid ∪ existing)) "") eqn:Hempty;
      cbn [negb task_node with_node with_call properties set_properties].
    - apply String.eqb_eq in Hempty. rewrite Hcaps1, Hempty. do 2 f_equal.
      destruct (decide (caps = "")) as [->|Hne]; [reflexivity|].
      apply Stored.serialize_empty in Hempty.
      destruct (Stored.read_nonempty caps existing Hne Hread).
      apply map_eq. intros k. rewrite lookup_empty.
      apply (f_equal (λ m, m !! k)) in Hempty. rewrite lookup_empty in Hempty.
      by apply lookup_union_None in Hempty as [_ ?].
    - apply lookup_insert_eq. }
  destruct H as (_ & r4 & w4 & rows & _ & Hs4 & _ & _ & _ & H).
  assert (Hn : n = task_node
                     (if negb (String.eqb (serialize (valid ∪ existing)) "")
                      then with_node (with_call w1 CallGetServerCapabilities)
                             (set_properties (task_node w1)
                                (<["capabilities" := AStr (serialize (valid ∪ existing))]>
                                   (inspected ∪ properties (task_node w))))
                      else with_call w1 CallGetServerCapabilities)).
  { destruct r4 as [[]|e4].
    - destruct H as (Hs5 & _). rewrite Hs5, Hs4 in Hsaved.
      apply app_inv_head in Hsaved. by injection Hsaved as <-.
    - rewrite H in Hsaved. cbn [snd] in Hsaved. rewrite Hs4 in Hsaved.
      apply app_inv_head in Hsaved. by injection Hsaved as <-. }
  rewrite Hn. exact Hn2.
Qed.

Lemma saved_capabilities_are_the_merge_witness :
  let d : gmap string atom :=
    {[ "BootMode" := AStr "uefi"; "vendor_extension" := AStr "x" ]} in
  let E := Sample.controller POWER_ON (Ok (PDict d)) in
  let w := Sample.start (Sample.node0 (Some "boot_mode:bios") "none") in
  ∃ n valid out,
    saved (inspect_hardware E w).2 = saved w ++ [n]
    ∧ _create_supported_capabilities_dict (PDict d) = Ok valid
    ∧ properties n !! "capabilities" = Some (AStr out)
    ∧ serialization_of (valid ∪ {[ "boot_mode" := AStr "bios" ]}) out.
Proof.
  intros d E w.
  assert (Hsaved : ∃ n, saved (inspect_hardware E w).2 = saved w ++ [n])
    by (vm_compute; eexists; reflexivity).
  destruct Hsaved as [n Hn].
  assert (Hget : get_server_capabilities E = Ok (PDict d)) by reflexivity.
  assert (Hd : d ≠ ∅).
  { intros H. apply (f_equal (λ m, m !! "BootMode")) in H. discriminate H. }
  assert (Hcaps : properties (task_node w) !! "capabilities"
                  = Some (AStr "boot_mode:bios")) by reflexivity.
  assert (Hread : read_capabilities "boot_mode:bios"
                  = Ok {[ "boot_mode" := AStr "bios" ]})
    by (vm_compute; reflexivity).
  destruct (saved_capabilities_are_the_merge E w d "boot_mode:bios"
              {[ "boot_mode" := AStr "bios" ]} n Hget Hd Hcaps Hread Hn)
    as (valid & out & Hv & Hc & Hout).
  exists n, valid, out. split; [exact Hn|]. split; [exact Hv|].
  split; [exact Hc|exact Hout].
Defined.

(** X26.  When the controller gives no essential properties that pass the
    validator (its call fails, or the result lacks a key or MACs), the
    inspection fails before anything is changed: the node in memory is as
    it was, nothing is saved, no port is registered and the capabilities
    are not asked for. *)
Theorem incomplete_essentials_change_nothing (E : env) (w : world) :
  (∀ result, get_essential_properties E = Ok result →
             _validate (task_node w) result ≠ Ok tt) →
  (∃ e, (inspect_hardware E w).1 = Raise e)
  ∧ task_node (inspect_hardware E w).2 = task_node w
  ∧ saved (inspect_hardware E w).2 = saved w
  ∧ ports (inspect_hardware E w).2 = ports w
  ∧ ∀ cs, calls (inspect_hardware E w).2 = calls w ++ cs →
          (CallGetServerCapabilities ∉ cs) ∧ (CallSave ∉ cs).
Proof.
  intros Hbad.
  destruct (Stages.run_facts E w) as (r1 & w1 & _ & Hs1 & Hp1 & H).
  destruct r1 as [[[[power_turned_on result] inspected] node_properties]|e1].
  { destruct H as (_ & _ & Hget & Hval & _). by destruct (Hbad result Hget). }
  destruct H as (-> & Hn & cs' & Hc' & Hpre). cbn [fst snd].
  split; [by eexists|]. split; [exact Hn|]. split; [exact Hs1|].
  split; [exact Hp1|].
  intros cs Hc. rewrite Hc' in Hc. apply app_inv_head in Hc as <-.
  split; intros Hin; apply (Stages.in_prefix _ _ _ Hpre) in Hin;
    apply Stages.in_opening in Hin; by destruct Hin as [|[|[|]]].
Qed.

Lemma incomplete_essentials_change_nothing_witness :
  let E := {| parse_driver_info := λ n, Ok (driver_info n);
              str_node := uuid;
              get_ilo_object := λ _, Ok tt;
              get_power_state := Ok POWER_OFF;
              node_power_action := λ _, Ok tt;
              get_essential_properties :=
                Ok {[ "properties" := PDict Sample.essentials;
                      "macs" := PDict ∅ ]};
              get_server_capabilities := Ok (PAtom ANone);
              create_port := Sample.unique_store |} in
  let w := Sample.start (Sample.node0 None "all") in
  (inspect_hardware E w).1 = Raise (no_macs_error (task_node w))
  ∧ task_node (inspect_hardware E w).2 = task_node w
  ∧ saved (inspect_hardware E w).2 = saved w
  ∧ calls (inspect_hardware E w).2
    = [CallGetIloObject; CallGetPowerState; CallPowerAction POWER_ON;
       CallGetEssentialProperties].
Proof.
  intros E w.
  destruct (incomplete_essentials_change_nothing E w) as (_ & Hn & Hs & _).
  { intros result [= <-] H. vm_compute in H. discriminate H. }
  split; [vm_compute; reflexivity|]. split; [exact Hn|]. split; [exact Hs|].
  vm_compute. reflexivity.
Defined.
(** ** When the inspection ends normally *)

Module Sound.

Import Workflow.

(** A payload with the essential keys can be copied. *)
Lemma copy_total (props : gmap string atom) :
  ESSENTIAL_PROPERTIES_KEYS ⊆ dom props →
  ∃ inspected, copy_essentials (PDict props) = Ok inspected.
Proof.
  intros Hsub. unfold copy_essentials.
  assert (Hall : ∀ k, k ∈ elements ESSENTIAL_PROPERTIES_KEYS → is_Some (props !! k)).
  { intros k Hk%elem_of_elements. by apply elem_of_dom, Hsub. }
  revert Hall. generalize (elements ESSENTIAL_PROPERTIES_KEYS). intros l.
  induction l as [|x l IH]; intros Hall; [by eexists|].
  destruct IH as [acc Hacc]; [intros k Hk; apply Hall; by right|].
  destruct (Hall x) as [v Hv]; [by left|].
  exists (<[x := v]> acc). cbn [foldr]. rewrite Hacc.
  cbn [rbind Dict.subscript]. unfold Dict.getitem. by rewrite Hv.
Qed.

Section Run.

Variable E : env.
Variable w : world.
Variable state : state.
Variable result : gmap string pyval.

Hypothesis client : get_ilo_object E (task_node w) = Ok tt.
Hypothesis power : get_power_state E = Ok state.
Hypothesis power_on : node_power_action E POWER_ON = Ok tt.
Hypothesis essentials : get_essential_properties E = Ok result.
Hypothesis valid : _validate (task_node w) result = Ok tt.

Lemma essential_step_ends :
  ∃ x w1, essential_step E w = (Ok x, w1).
Proof.
  assert (H : wp (essential_step E) (λ r _, ∃ x, r = Ok x) w).
  { unfold essential_step. fold copy_essentials.
    repeat wp_step; world_simpl.
    all: try (eexists; reflexivity).
    all: try congruence.
    all: injection essentials as ->.
    all: destruct (validate_ok _ _ valid) as (props & macs & Hp & Hsub & _).
    all: match goal with
         | H : Dict.getitem result "properties" = _ |- _ =>
             unfold Dict.getitem in H; rewrite Hp in H;
             first [discriminate H | injection H as <-]
         end.
    all: destruct (copy_total props Hsub) as [inspected Hcopy].
    all: unfold copy_essentials in Hcopy; congruence. }
  unfold wp in H. destruct (essential_step E w) as [r1 w1].
  cbn [fst] in H. destruct H as [x Hx]. exists x, w1. by rewrite Hx.
Qed.

End Run.

(** The capability step ends normally when the controller reports a
    mapping or nothing and the capabilities string of the node, if it has
    one, reads as a map. *)
Lemma capabilities_step_ends (E : env) (node_properties : gmap string atom)
    (w : world) :
  nothing_discovered E ∨ (∃ d, get_server_capabilities E = Ok (PDict d)) →
  properties (task_node w) !! "capabilities" = None
  ∨ (∃ caps existing, properties (task_node w) !! "capabilities" = Some (AStr caps)
                      ∧ read_capabilities caps = Ok existing) →
  ∃ w2, capabilities_step E node_properties w = (Ok tt, w2).
Proof.
  intros Hfound Hstored.
  assert (Hnone : nothing_discovered E →
                  ∃ w2, capabilities_step E node_properties w = (Ok tt, w2)).
  { intros Hnone.
    pose proof (Stages.capabilities_step_strong E node_properties w) as S.
    unfold wp in S. destruct (capabilities_step E node_properties w) as [r2 w2].
    cbn [fst snd] in S. destruct S as (_ & _ & _ & _ & S).
    destruct (S Hnone) as [-> _]. by exists w2. }
  destruct Hfound as [Hfound|[d Hget]]; [by apply Hnone|].
  destruct (decide (d = ∅)) as [->|Hd].
  { apply Hnone. right. exists (PDict ∅). split; [exact Hget|reflexivity]. }
  destruct (Filter.of_mapping d) as (valid & Hvalid & _).
  assert (Hrun : ∃ c, _update_capabilities (task_node w) (PDict valid) = Ok c).
  { destruct Hstored as [Hstored|(caps & existing & Hcaps & Hread)].
    - eexists. apply Stored.run_without. by rewrite Hstored.
    - eexists. by apply (Merger.run _ caps existing). }
  destruct Hrun as [c Hrun]. eexists.
  by apply (Stages.capabilities_of_mapping E _ w d valid c).
Qed.

(** The registration step ends normally when the expression is "none" or
    the selection can be made, and the store refuses duplicates only. *)
Lemma registration_step_ends (E : env) (node : node)
    (result : gmap string pyval) (w : world) (v : string)
    (macs : gmap string atom) :
  driver_info node !! "inspect_ports" = Some v →
  result !! "macs" = Some (PDict macs) →
  spells "none" v
  ∨ (∃ selected, _get_macs_for_desired_ports node macs = Ok selected) →
  (∀ p rows e, create_port E p rows = Raise e → is_duplicate e) →
  ∃ w4, registration_step E node result w = (Ok tt, w4).
Proof.
  intros Hv Hm Hsel Hstore.
  destruct (String.eqb (Py.lower v) "none") eqn:Heq.
  { exists w. apply (Stages.registration_of_none E node result w v Hv).
    by apply Expression.eqb_lower_spells. }
  destruct Hsel as [Hnone|[selected Hsel]].
  { apply Expression.eqb_lower_spells in Hnone; [|reflexivity]. congruence. }
  unfold registration_step, bind, lift, Dict.getitem. cbn zeta.
  rewrite Hv, Heq. cbn [negb]. rewrite Hm. cbn [rbind Dict.as_dict]. rewrite Hsel.
  destruct (negb (bool_decide (selected = ∅))); [|by eexists].
  pose proof (Registration.all_attempted E node (mac_values selected) w Hstore)
    as [Hok _].
  rewrite Registration.unfold_loop.
  destruct (port_loop E node (mac_values selected) w) as [r w4].
  cbn [fst] in Hok. rewrite Hok. by exists w4.
Qed.

End Sound.

(** X27.  The inspection ends normally, in MANAGEABLE, whenever the client
    is obtained, the power state is reported and the power actions succeed,
    the controller gives essential properties that pass the validator and a
    mapping of capabilities or none, the capabilities string of the node, if
    it has one, reads as a map, the selection expression is "none" or can
    be satisfied from the reported MACs, and the port store refuses
    nothing but duplicates.  (The save of the node and the logger are
    operations that do not fail in this development.) *)
Theorem inspection_ends_normally_on_sound_input
    (E : env) (w : world) (state : state) (result : gmap string pyval)
    (macs : gmap string atom) (v : string) :
  get_ilo_object E (task_node w) = Ok tt →
  get_power_state E = Ok state →
  (∀ target, node_power_action E target = Ok tt) →
  get_essential_properties E = Ok result →
  _validate (task_node w) result = Ok tt →
  nothing_discovered E ∨ (∃ d, get_server_capabilities E = Ok (PDict d)) →
  properties (task_node w) !! "capabilities" = None
  ∨ (∃ caps existing, properties (task_node w) !! "capabilities" = Some (AStr caps)
                      ∧ read_capabilities caps = Ok existing) →
  driver_info (task_node w) !! "inspect_ports" = Some v →
  result !! "macs" = Some (PDict macs) →
  spells "none" v
  ∨ (∃ selected, _get_macs_for_desired_ports (task_node w) macs = Ok selected) →
  (∀ p rows e, create_port E p rows = Raise e → is_duplicate e) →
  (inspect_hardware E w).1 = Ok MANAGEABLE.
Proof.
  intros Hclient Hpower Haction Hget Hvalid Hfound Hstored Hv Hmacs Hsel Hstore.
  destruct (Sound.essential_step_ends E w state result Hclient Hpower
              (Haction POWER_ON) Hget Hvalid) as (x & w1' & H1').
  destruct (Stages.run_facts E w) as (r1 & w1 & H1 & _ & _ & H).
  rewrite H1' in H1. injection H1 as <- <-.
  destruct x as [[[power_turned_on result'] inspected] node_properties].
  destruct H as (_ & _ & Hget' & _ & (p & _ & Hcopy) & -> & Hn1
                 & r2 & w2 & H2 & _ & _ & _ & _ & H).
  rewrite Hget in Hget'. injection Hget' as <-.
  assert (Hcaps1 : properties (task_node w1') !! "capabilities"
                   = properties (task_node w) !! "capabilities").
  { rewrite Hn1. cbn [properties set_properties].
    rewrite lookup_union_r; [reflexivity|].
    apply (Stages.copy_outside p); [exact Hcopy|].
    apply Workflow.capabilities_not_essential. }
  destruct (Sound.capabilities_step_ends E
              (inspected ∪ properties (task_node w)) w1' Hfound) as [w2' H2'].
  { by rewrite Hcaps1. }
  rewrite H2' in H2. injection H2 as <- <-.
  destruct H as (Hn2 & r4 & w4 & rows & H4 & _ & _ & _ & _ & H).
  assert (Hsame : driver_info (task_node w2') = driver_info (task_node w)
                  ∧ uuid (task_node w2') = uuid (task_node w)).
  { destruct Hn2 as [->|[c ->]]; rewrite ?Hn1; by split. }
  destruct Hsame as [Hd Hu].
  destruct (Sound.registration_step_ends E (task_node w2') result
              (with_saved (with_call w2' CallSave) (task_node w2')) v macs)
    as [w4' H4']; [by rewrite Hd|exact Hmacs| |exact Hstore|].
  { destruct Hsel as [?|[selected Hsel]]; [by left|right]. exists selected.
    by rewrite (Ports.selection_same (task_node w) (task_node w2')). }
  rewrite H4' in H4. injection H4 as <- <-.
  destruct H as (_ & _ & _ & _ & [Hr|(e & _ & _ & Hoff)]); [exact Hr|].
  rewrite Haction in Hoff. discriminate Hoff.
Qed.

Lemma inspection_ends_normally_on_sound_input_witness :
  let d : gmap string atom := {[ "BootMode" := AStr "uefi" ]} in
  let E := Sample.controller POWER_OFF (Ok (PDict d)) in
  let w := Sample.start (Sample.node0 (Some "boot_mode:bios") "2") in
  (inspect_hardware E w).1 = Ok MANAGEABLE.
Proof.
  intros d E w.
  apply (inspection_ends_normally_on_sound_input E w POWER_OFF
           Sample.inspection Sample.macs "2").
  - reflexivity.
  - reflexivity.
  - reflexivity.
  - reflexivity.
  - vm_compute. reflexivity.
  - right. by exists d.
  - right. exists "boot_mode:bios", {[ "boot_mode" := AStr "bios" ]}.
    split; [reflexivity|vm_compute; reflexivity].
  - reflexivity.
  - reflexivity.
  - right. eexists. vm_compute. reflexivity.
  - intros p rows e. cbn. unfold Sample.unique_store.
    case_bool_decide; [|discriminate]. intros [= <-]. exact I.
Defined.
